(** * Endless-runner game engine: a shallow embedding of the game component

    The development follows the game component of the site (the file that
    defines [Game], with [resize], [makeState], [doAction] and [loop] inside
    its mount effect).  The physics constants of the oldest revision became a
    live [physics] object read through [physicsRef.current] in the later one;
    the embedding takes that object as an argument and [PHYSICS_DEFAULTS]
    carries the constants, so both revisions are instances of one model.
    (A still later revision lowers the floor by a foot offset; the embedding
    keeps the floor at [gndY - CHAR_H], as the first two have it.)

    The UPDATE half of a frame is embedded in full.  The RENDER half issues
    canvas draw calls and mutates nothing of the game state; of it, and of
    the helpers around the component, the parts that compute are embedded
    further down: the frame of the sprite and its rectangle on the sheet,
    the rectangles of an obstacle and of a window, the keying of the sprite
    sheet, and the scheduler of the music loop. *)

From Stdlib Require Import ZArith QArith Qround Lqa Lia Bool List String Ascii.
From Stdlib Require Import DecimalString.
Import ListNotations.

Set Implicit Arguments.

(** ** JavaScript numbers

    A Number is a binary64 value.  Every finite binary64 value is a rational,
    so a finite number is modelled by an exact rational and the three special
    values are kept apart.  What the model leaves out: rounding to 53 bits,
    overflow of a finite result to an infinity, and the sign of zero (a zero
    divisor is taken as [+0]).  Results are kept in lowest terms ([Qred]),
    which changes no value and keeps long runs computable. *)

Module JS.

Inductive num : Type :=
| Fin (q : Q)
| PInf
| NInf
| NaN.

Definition ofZ (z : Z) : num := Fin (inject_Z z).

Definition isNaN (a : num) : bool :=
  match a with NaN => true | _ => false end.

Definition isFinite (a : num) : bool :=
  match a with Fin _ => true | _ => false end.

(** Sign of a rational as a comparison with zero. *)
Definition Qsign (q : Q) : comparison := (0 ?= q)%Q.

Definition Qltb (a b : Q) : bool := negb (Qle_bool b a).

Definition neg (a : num) : num :=
  match a with
  | Fin q => Fin (Qred (- q))
  | PInf => NInf
  | NInf => PInf
  | NaN => NaN
  end.

(** [a + b] *)
Definition add (a b : num) : num :=
  match a, b with
  | NaN, _ | _, NaN => NaN
  | Fin p, Fin q => Fin (Qred (p + q))
  | PInf, NInf | NInf, PInf => NaN
  | PInf, _ | _, PInf => PInf
  | NInf, _ | _, NInf => NInf
  end.

(** [a - b] *)
Definition sub (a b : num) : num := add a (neg b).

(** An infinity with the sign of [s] applied to [+Infinity]; [NaN] at zero. *)
Definition signedInf (s : comparison) : num :=
  match s with
  | Lt => PInf
  | Gt => NInf
  | Eq => NaN
  end.

Definition flip (s : comparison) : comparison := CompOpp s.

(** [a * b] *)
Definition mul (a b : num) : num :=
  match a, b with
  | NaN, _ | _, NaN => NaN
  | Fin p, Fin q => Fin (Qred (p * q))
  | Fin p, PInf | PInf, Fin p => signedInf (Qsign p)
  | Fin p, NInf | NInf, Fin p => signedInf (flip (Qsign p))
  | PInf, PInf | NInf, NInf => PInf
  | PInf, NInf | NInf, PInf => NInf
  end.

(** [a / b].  A finite number over zero is an infinity of the dividend's
    sign, and [0 / 0] is [NaN]; nothing is thrown. *)
Definition div (a b : num) : num :=
  match a, b with
  | NaN, _ | _, NaN => NaN
  | Fin p, Fin q =>
      if Qeq_bool q 0 then signedInf (Qsign p) else Fin (Qred (p / q))
  | Fin _, PInf | Fin _, NInf => Fin 0
  | PInf, Fin q => if Qltb q 0 then NInf else PInf
  | NInf, Fin q => if Qltb q 0 then PInf else NInf
  | _, _ => NaN
  end.

(** Truncation of a rational toward zero. *)
Definition Qtrunc (q : Q) : Z := Z.quot (Qnum q) (Zpos (Qden q)).

(** [a % b]: the remainder has the sign of the dividend. *)
Definition rem (a b : num) : num :=
  match a, b with
  | Fin p, Fin q =>
      if Qeq_bool q 0 then NaN
      else Fin (Qred (p - q * inject_Z (Qtrunc (p / q))))
  | Fin p, PInf | Fin p, NInf => Fin p
  | _, _ => NaN
  end.

(** Comparisons: every comparison with [NaN] is false. *)
Definition ltb (a b : num) : bool :=
  match a, b with
  | NaN, _ | _, NaN => false
  | Fin p, Fin q => Qltb p q
  | NInf, NInf | PInf, _ => false
  | NInf, _ => true
  | Fin _, PInf => true
  | Fin _, NInf => false
  end.

Definition leb (a b : num) : bool :=
  match a, b with
  | NaN, _ | _, NaN => false
  | Fin p, Fin q => Qle_bool p q
  | NInf, _ => true
  | PInf, PInf => true
  | PInf, _ => false
  | Fin _, PInf => true
  | Fin _, NInf => false
  end.

Definition gtb (a b : num) : bool := ltb b a.
Definition geb (a b : num) : bool := leb b a.

(** [a === b] on numbers. *)
Definition eqb (a b : num) : bool :=
  match a, b with
  | Fin p, Fin q => Qeq_bool p q
  | PInf, PInf | NInf, NInf => true
  | _, _ => false
  end.

Definition lt (a b : num) : Prop := ltb a b = true.
Definition le (a b : num) : Prop := leb a b = true.

(** [Math.min(a, b)], [Math.max(a, b)]: [NaN] if either argument is. *)
Definition Math_min (a b : num) : num :=
  match a, b with
  | NaN, _ | _, NaN => NaN
  | _, _ => if leb a b then a else b
  end.

Definition Math_max (a b : num) : num :=
  match a, b with
  | NaN, _ | _, NaN => NaN
  | _, _ => if leb a b then b else a
  end.

(** [Math.floor(a)] *)
Definition Math_floor (a : num) : num :=
  match a with
  | Fin q => ofZ (Qfloor q)
  | _ => a
  end.

(** [Math.round(a)]: the nearest integer, ties toward [+Infinity]. *)
Definition Math_round (a : num) : num :=
  match a with
  | Fin q => ofZ (Qfloor (q + (1 # 2)))
  | _ => a
  end.

End JS.

Export JS.

Declare Scope js_scope.
Delimit Scope js_scope with js.
Bind Scope js_scope with num.
Infix "+" := add : js_scope.
Infix "-" := sub : js_scope.
Infix "*" := mul : js_scope.
Infix "/" := div : js_scope.
Infix "%%" := rem (at level 40, left associativity) : js_scope.
Infix "<?" := ltb : js_scope.
Infix "<=?" := leb : js_scope.
Infix ">?" := gtb : js_scope.
Infix ">=?" := geb : js_scope.
Infix "<" := JS.lt : js_scope.
Infix "<=" := JS.le : js_scope.

(** Decimal literals of the source, as exact rationals. *)
Definition dec (n : Z) (d : positive) : num := Fin (Qred (n # d)).

(** ** Strings, [parseInt] and number rendering

    A string is a sequence of code units; the model carries code units below
    256, which covers every character the program writes itself. *)

Module Str.

Local Open Scope string_scope.

(** White space that [parseInt] skips (TAB, LF, VT, FF, CR, SP, NBSP). *)
Definition isWhiteSpace (c : ascii) : bool :=
  let n := nat_of_ascii c in
  existsb (Nat.eqb n) [9; 10; 11; 12; 13; 32; 160]%nat.

Fixpoint trimStart (s : string) : string :=
  match s with
  | String c r => if isWhiteSpace c then trimStart r else s
  | EmptyString => s
  end.

Definition digitValue (c : ascii) : option Z :=
  let n := Z.of_nat (nat_of_ascii c) in
  if ((48 <=? n) && (n <=? 57))%Z then Some (n - 48)%Z else None.

(** Value of the longest prefix of decimal digits; [acc] is [None] until a
    digit has been read. *)
Fixpoint digitPrefix (s : string) (acc : option Z) : option Z :=
  match s with
  | String c r =>
      match digitValue c with
      | Some d =>
          digitPrefix r (Some (10 * match acc with Some a => a | None => 0 end + d)%Z)
      | None => acc
      end
  | EmptyString => acc
  end.

(** [parseInt(s, 10)] *)
Definition parseInt (s : string) : num :=
  let t := trimStart s in
  let '(sign, body) :=
    match t with
    | String "-" r => ((-1)%Z, r)
    | String "+" r => (1%Z, r)
    | _ => (1%Z, t)
    end in
  match digitPrefix body None with
  | Some n => ofZ (sign * n)
  | None => NaN
  end.

(** [a || b] on a value that is a string or [null]: [null] and the empty
    string are falsy. *)
Definition orElse (a : option string) (b : string) : string :=
  match a with
  | Some (String c r) => String c r
  | _ => b
  end.

Definition decimal (z : Z) : string := NilZero.string_of_int (Z.to_int z).

Fixpoint repeat0 (n : nat) : string :=
  match n with
  | O => EmptyString
  | S k => String "0" (repeat0 k)
  end.

(** [s.padStart(n, '0')] *)
Definition padStart (n : nat) (s : string) : string :=
  repeat0 (n - String.length s) ++ s.

End Str.

(** ** The persistent store ([localStorage]) *)

Definition Storage : Type := string -> option string.

Definition getItem (st : Storage) (key : string) : option string := st key.

Definition setItem (key value : string) (st : Storage) : Storage :=
  fun k => if String.eqb k key then Some value else st k.

Definition emptyStorage : Storage := fun _ => None.

(** ** What the host supplies

    [Math.random()] returns a number in [[0, 1)]; a draw carries that bound.
    The host's pseudo-random sequence is a function of the call count, and
    the model counts the calls.  [Math.sin] and [Math.PI] are host values, and
    so is the rendering of a number that is not an integer below [10^21]
    (there the digits depend on the binary64 rounding). *)

Definition inUnit (q : Q) : bool := Qle_bool 0 q && Qltb q 1.

Record Draw : Type := mkDraw {
  draw_val : Q;
  draw_inUnit : inUnit draw_val = true
}.

Definition drawNum (d : Draw) : num := Fin (draw_val d).

Class Host : Type := {
  Math_random : nat -> Draw;
  Math_sin : num -> num;
  Math_PI : num;
  Number_toString_other : Q -> string
}.

Section Rendering.
Context {host : Host}.
Local Open Scope string_scope.

(** [String(a)] *)
Definition Number_toString (a : num) : string :=
  match a with
  | NaN => "NaN"
  | PInf => "Infinity"
  | NInf => "-Infinity"
  | Fin q =>
      let r := Qred q in
      if (Pos.eqb (Qden r) 1 && (Z.abs (Qnum r) <? 10 ^ 21)%Z)%bool
      then Str.decimal (Qnum r)
      else Number_toString_other q
  end.

End Rendering.

(** ** Constants of the game *)

Local Open Scope js_scope.

(** Sprite sheet *)
Definition FRAME_W : num := ofZ 226.
Definition FRAME_H : num := ofZ 261.
Definition COLS : num := ofZ 6.
Definition RUN_FRAMES : list num := map ofZ [0; 1; 2; 3; 4; 5]%Z.
Definition JUMP_FRAME : num := ofZ 9.
Definition DEAD_FRAME : num := ofZ 11.

(** On-screen display size *)
Definition CHAR_H : num := ofZ 96.
Definition CHAR_W : num := Math_round (CHAR_H * FRAME_W / FRAME_H).

(** Physics / speed *)
Definition GRAVITY : num := dec 62 100.
Definition JUMP_FORCE : num := ofZ (-15).
Definition INIT_SPEED : num := ofZ 5.
Definition MAX_SPEED : num := ofZ 22.
Definition SCORE_RATE : num := dec 9 1000.
Definition SPEED_RATE : num := dec 14 1000.

(** Obstacle spacing *)
Definition MIN_GAP_PX : num := ofZ 420.
Definition MAX_GAP_PX : num := ofZ 950.

(** Animation *)
Definition ANIM_FPS : num := ofZ 10.

(** Ground *)
Definition GROUND_RATIO : num := dec 76 100.

(** The tunable physics object ([physicsRef.current]). *)
Record Physics : Type := mkPhysics {
  gravity : num;
  jumpForce : num;
  initSpeed : num;
  maxSpeed : num;
  speedRate : num;
  minGap : num;
  maxGap : num
}.

Definition PHYSICS_DEFAULTS : Physics :=
  {| gravity := GRAVITY;
     jumpForce := JUMP_FORCE;
     initSpeed := INIT_SPEED;
     maxSpeed := MAX_SPEED;
     speedRate := SPEED_RATE;
     minGap := MIN_GAP_PX;
     maxGap := MAX_GAP_PX |}.

(** The ranges of the settings sliders, one per physics key. *)
Record Slider : Type := mkSlider {
  slider_key : Physics -> num;
  slider_min : num;
  slider_max : num
}.

Definition SLIDERS : list Slider :=
  [ mkSlider gravity (dec 1 10) (ofZ 2);
    mkSlider jumpForce (ofZ (-30)) (ofZ (-2));
    mkSlider initSpeed (ofZ 1) (ofZ 20);
    mkSlider maxSpeed (ofZ 5) (ofZ 50);
    mkSlider speedRate (dec 1 1000) (dec 5 100);
    mkSlider minGap (ofZ 100) (ofZ 800);
    mkSlider maxGap (ofZ 400) (ofZ 1600) ].

(** A physics object every key of which lies in its slider's range. *)
Definition inSliderRange (p : Physics) : bool :=
  forallb (fun s => (slider_min s <=? slider_key s p) && (slider_key s p <=? slider_max s))
          SLIDERS.

(** The sliders of the groups SPEED and OBSTACLES, those after the two of
    the group MOVEMENT: the keys the speed update and the spawn block read. *)
Definition SPAWN_SLIDERS : list Slider := skipn 2 SLIDERS.

(** A physics object whose speed and gap keys lie in their sliders' ranges;
    gravity and jump force are left free. *)
Definition inSpawnRange (p : Physics) : bool :=
  forallb (fun s => (slider_min s <=? slider_key s p) && (slider_key s p <=? slider_max s))
          SPAWN_SLIDERS.

(** ** Obstacle bitmaps *)

Record ObstacleDef : Type := mkDef {
  scale : num;
  rows : list (list nat)
}.

Definition CACTUS_DEFS : list ObstacleDef :=
  [ (* Type 0: single medium *)
    mkDef (ofZ 7)
      [ [0;0;1;1;0;0;0];
        [0;0;1;1;0;0;0];
        [0;1;1;1;0;0;0];
        [1;1;1;1;1;1;0];
        [1;1;1;1;0;0;0];
        [0;0;1;1;0;0;0];
        [0;0;1;1;0;0;0];
        [0;0;1;1;0;0;0];
        [0;0;1;1;0;0;0];
        [0;0;1;1;0;0;0];
        [0;0;1;1;0;0;0] ]%nat;
    (* Type 1: tall double-arm *)
    mkDef (ofZ 7)
      [ [0;0;1;1;0;0;0];
        [0;0;1;1;0;0;0];
        [0;0;1;1;0;0;0];
        [0;1;1;1;0;0;0];
        [1;1;1;1;1;1;0];
        [0;0;1;1;0;0;0];
        [0;0;1;1;1;1;0];
        [0;0;1;1;1;1;0];
        [0;0;1;1;0;0;0];
        [0;0;1;1;0;0;0];
        [0;0;1;1;0;0;0];
        [0;0;1;1;0;0;0] ]%nat;
    (* Type 2: short and wide cluster *)
    mkDef (ofZ 7)
      [ [0;1;1;0;0;1;1;0];
        [0;1;1;0;0;1;1;0];
        [1;1;1;1;1;1;1;0];
        [1;1;1;1;0;1;1;0];
        [0;1;1;0;0;1;1;0];
        [0;1;1;0;0;1;1;0];
        [0;1;1;0;0;1;1;0];
        [0;1;1;0;0;1;1;0];
        [0;1;1;0;0;1;1;0] ]%nat ].

(** [arr[i]] for a number [i]: [undefined] unless [i] is an index. *)
Definition index {A : Type} (arr : list A) (i : num) : option A :=
  match i with
  | Fin q =>
      if (Qeq_bool q (inject_Z (Qfloor q)) && (0 <=? Qfloor q)%Z)%bool
      then nth_error arr (Z.to_nat (Qfloor q))
      else None
  | _ => None
  end.

Definition lengthOf {A : Type} (arr : list A) : num :=
  ofZ (Z.of_nat (List.length arr)).

(** [getCactusSize(type)]; [None] is the [TypeError] of reading a property
    of [undefined]. *)
Definition getCactusSize (type : num) : option (num * num) :=
  match index CACTUS_DEFS type with
  | Some d =>
      match rows d with
      | row0 :: _ => Some (lengthOf row0 * scale d, lengthOf (rows d) * scale d)
      | [] => None
      end
  | None => None
  end.

(** ** The game state *)

Inductive Phase : Type := intro | playing | gameover.

Definition Phase_eqb (a b : Phase) : bool :=
  match a, b with
  | intro, intro | playing, playing | gameover, gameover => true
  | _, _ => false
  end.

Module Char.
Record T : Type := mk {
  x : num;
  y : num;
  vy : num;
  grounded : bool;
  frame : num;
  frameTick : num;
  bounce : num
}.
Definition with_y (v : num) (c : T) : T :=
  mk (x c) v (vy c) (grounded c) (frame c) (frameTick c) (bounce c).
Definition with_vy (v : num) (c : T) : T :=
  mk (x c) (y c) v (grounded c) (frame c) (frameTick c) (bounce c).
Definition with_grounded (v : bool) (c : T) : T :=
  mk (x c) (y c) (vy c) v (frame c) (frameTick c) (bounce c).
Definition with_frame (v : num) (c : T) : T :=
  mk (x c) (y c) (vy c) (grounded c) v (frameTick c) (bounce c).
Definition with_frameTick (v : num) (c : T) : T :=
  mk (x c) (y c) (vy c) (grounded c) (frame c) v (bounce c).
Definition with_bounce (v : num) (c : T) : T :=
  mk (x c) (y c) (vy c) (grounded c) (frame c) (frameTick c) v.
End Char.

Module Obs.
Record T : Type := mk {
  x : num;
  type : num;
  w : num;
  h : num
}.
Definition with_x (v : num) (o : T) : T := mk v (type o) (w o) (h o).
End Obs.

Module Star.
Record T : Type := mk {
  x : num;
  y : num;
  r : num;
  a : num;
  tw : num;
  tp : num
}.
End Star.

(** Buildings are laid out from integer arguments, and every field is an
    integer sum of them and of floors of draws. *)
Module Building.
Record Window : Type := mkWindow {
  f : Z;
  c : Z;
  lit : bool
}.
Record T : Type := mk {
  x : Z;
  bw : Z;
  bh : Z;
  floors : Z;
  cols : Z;
  floorH : Z;
  colW : Z;
  windows : list Window
}.
Record Layer : Type := mkLayer {
  buildings : list T;
  totalW : Z
}.
End Building.

Module G.
Record T : Type := mk {
  w : num;
  h : num;
  gndY : num;
  phase : Phase;
  score : num;
  hiScore : num;
  speed : num;
  t : num;
  char : Char.T;
  obs : list Obs.T;
  nextGap : num;
  gndOff : num;
  farOff : num;
  nearOff : num;
  stars : list Star.T;
  far : Building.Layer;
  near : Building.Layer;
  lastDisplayScore : num
}.
Definition with_w (v : num) (g : T) : T :=
  mk v (h g) (gndY g) (phase g) (score g) (hiScore g) (speed g) (t g) (char g)
     (obs g) (nextGap g) (gndOff g) (farOff g) (nearOff g) (stars g) (far g)
     (near g) (lastDisplayScore g).
Definition with_h (v : num) (g : T) : T :=
  mk (w g) v (gndY g) (phase g) (score g) (hiScore g) (speed g) (t g) (char g)
     (obs g) (nextGap g) (gndOff g) (farOff g) (nearOff g) (stars g) (far g)
     (near g) (lastDisplayScore g).
Definition with_gndY (v : num) (g : T) : T :=
  mk (w g) (h g) v (phase g) (score g) (hiScore g) (speed g) (t g) (char g)
     (obs g) (nextGap g) (gndOff g) (farOff g) (nearOff g) (stars g) (far g)
     (near g) (lastDisplayScore g).
Definition with_phase (v : Phase) (g : T) : T :=
  mk (w g) (h g) (gndY g) v (score g) (hiScore g) (speed g) (t g) (char g)
     (obs g) (nextGap g) (gndOff g) (farOff g) (nearOff g) (stars g) (far g)
     (near g) (lastDisplayScore g).
Definition with_score (v : num) (g : T) : T :=
  mk (w g) (h g) (gndY g) (phase g) v (hiScore g) (speed g) (t g) (char g)
     (obs g) (nextGap g) (gndOff g) (farOff g) (nearOff g) (stars g) (far g)
     (near g) (lastDisplayScore g).
Definition with_hiScore (v : num) (g : T) : T :=
  mk (w g) (h g) (gndY g) (phase g) (score g) v (speed g) (t g) (char g)
     (obs g) (nextGap g) (gndOff g) (farOff g) (nearOff g) (stars g) (far g)
     (near g) (lastDisplayScore g).
Definition with_speed (v : num) (g : T) : T :=
  mk (w g) (h g) (gndY g) (phase g) (score g) (hiScore g) v (t g) (char g)
     (obs g) (nextGap g) (gndOff g) (farOff g) (nearOff g) (stars g) (far g)
     (near g) (lastDisplayScore g).
Definition with_t (v : num) (g : T) : T :=
  mk (w g) (h g) (gndY g) (phase g) (score g) (hiScore g) (speed g) v (char g)
     (obs g) (nextGap g) (gndOff g) (farOff g) (nearOff g) (stars g) (far g)
     (near g) (lastDisplayScore g).
Definition with_char (v : Char.T) (g : T) : T :=
  mk (w g) (h g) (gndY g) (phase g) (score g) (hiScore g) (speed g) (t g) v
     (obs g) (nextGap g) (gndOff g) (farOff g) (nearOff g) (stars g) (far g)
     (near g) (lastDisplayScore g).
Definition with_obs (v : list Obs.T) (g : T) : T :=
  mk (w g) (h g) (gndY g) (phase g) (score g) (hiScore g) (speed g) (t g) (char g)
     v (nextGap g) (gndOff g) (farOff g) (nearOff g) (stars g) (far g)
     (near g) (lastDisplayScore g).
Definition with_nextGap (v : num) (g : T) : T :=
  mk (w g) (h g) (gndY g) (phase g) (score g) (hiScore g) (speed g) (t g) (char g)
     (obs g) v (gndOff g) (farOff g) (nearOff g) (stars g) (far g)
     (near g) (lastDisplayScore g).
Definition with_gndOff (v : num) (g : T) : T :=
  mk (w g) (h g) (gndY g) (phase g) (score g) (hiScore g) (speed g) (t g) (char g)
     (obs g) (nextGap g) v (farOff g) (nearOff g) (stars g) (far g)
     (near g) (lastDisplayScore g).
Definition with_farOff (v : num) (g : T) : T :=
  mk (w g) (h g) (gndY g) (phase g) (score g) (hiScore g) (speed g) (t g) (char g)
     (obs g) (nextGap g) (gndOff g) v (nearOff g) (stars g) (far g)
     (near g) (lastDisplayScore g).
Definition with_nearOff (v : num) (g : T) : T :=
  mk (w g) (h g) (gndY g) (phase g) (score g) (hiScore g) (speed g) (t g) (char g)
     (obs g) (nextGap g) (gndOff g) (farOff g) v (stars g) (far g)
     (near g) (lastDisplayScore g).
Definition with_stars (v : list Star.T) (g : T) : T :=
  mk (w g) (h g) (gndY g) (phase g) (score g) (hiScore g) (speed g) (t g) (char g)
     (obs g) (nextGap g) (gndOff g) (farOff g) (nearOff g) v (far g)
     (near g) (lastDisplayScore g).
Definition with_lastDisplayScore (v : num) (g : T) : T :=
  mk (w g) (h g) (gndY g) (phase g) (score g) (hiScore g) (speed g) (t g) (char g)
     (obs g) (nextGap g) (gndOff g) (farOff g) (nearOff g) (stars g) (far g)
     (near g) v.
End G.

(** ** The world around the state

    What the handlers reach besides the state object: the canvas size, the
    reference [gRef.current] (null before the first [makeState]), the
    persistent store, the phase mirrored into the component ([setPhase]),
    the text of the two HUD elements (a null reference is [None]), the
    [lastTs] of the loop closure, and the number of [Math.random] calls made
    so far. *)

Record World : Type := mkWorld {
  canvas_width : Z;
  canvas_height : Z;
  gRef : option G.T;
  localStorage : Storage;
  uiPhase : Phase;
  hiEl : option string;
  scoreEl : option string;
  lastTs : num;
  randomCalls : nat
}.

Definition with_canvas (cw ch : Z) (wd : World) : World :=
  mkWorld cw ch (gRef wd) (localStorage wd) (uiPhase wd) (hiEl wd) (scoreEl wd)
          (lastTs wd) (randomCalls wd).
Definition with_gRef (v : option G.T) (wd : World) : World :=
  mkWorld (canvas_width wd) (canvas_height wd) v (localStorage wd) (uiPhase wd)
          (hiEl wd) (scoreEl wd) (lastTs wd) (randomCalls wd).
Definition with_localStorage (v : Storage) (wd : World) : World :=
  mkWorld (canvas_width wd) (canvas_height wd) (gRef wd) v (uiPhase wd)
          (hiEl wd) (scoreEl wd) (lastTs wd) (randomCalls wd).
Definition with_uiPhase (v : Phase) (wd : World) : World :=
  mkWorld (canvas_width wd) (canvas_height wd) (gRef wd) (localStorage wd) v
          (hiEl wd) (scoreEl wd) (lastTs wd) (randomCalls wd).
Definition with_hiEl (v : option string) (wd : World) : World :=
  mkWorld (canvas_width wd) (canvas_height wd) (gRef wd) (localStorage wd)
          (uiPhase wd) v (scoreEl wd) (lastTs wd) (randomCalls wd).
Definition with_scoreEl (v : option string) (wd : World) : World :=
  mkWorld (canvas_width wd) (canvas_height wd) (gRef wd) (localStorage wd)
          (uiPhase wd) (hiEl wd) v (lastTs wd) (randomCalls wd).
Definition with_lastTs (v : num) (wd : World) : World :=
  mkWorld (canvas_width wd) (canvas_height wd) (gRef wd) (localStorage wd)
          (uiPhase wd) (hiEl wd) (scoreEl wd) v (randomCalls wd).
Definition with_randomCalls (v : nat) (wd : World) : World :=
  mkWorld (canvas_width wd) (canvas_height wd) (gRef wd) (localStorage wd)
          (uiPhase wd) (hiEl wd) (scoreEl wd) (lastTs wd) v.

(** [el.textContent = s] through a reference that may be null. *)
Definition setText (s : string) (el : option string) : option string :=
  match el with
  | Some _ => Some s
  | None => None
  end.

(** ** Code that draws random numbers

    A computation that calls [Math.random] maps the number of calls made so
    far to its result and the new count. *)

Definition Rand (A : Type) : Type := nat -> A * nat.

Definition ret {A : Type} (v : A) : Rand A := fun n => (v, n).

Definition bind {A B : Type} (m : Rand A) (k : A -> Rand B) : Rand B :=
  fun n => let '(v, n') := m n in k v n'.

Notation "x <- m ;; k" := (bind m (fun x => k))
  (at level 61, m at next level, right associativity).

Section Game.
Context {host : Host}.

(** [Math.random()] *)
Definition random : Rand num := fun n => (drawNum (Math_random n), S n).

(** *** Star field *)

Definition genStar (w groundY : num) : Rand Star.T :=
  rx <- random ;;
  ry <- random ;;
  rr <- random ;;
  ra <- random ;;
  rtw <- random ;;
  rtp <- random ;;
  ret (Star.mk (rx * w)
               (ry * groundY * dec 88 100)
               (if rr <? dec 2 10 then dec 14 10 else dec 8 10)
               (dec 45 100 + ra * dec 55 100)
               (dec 25 100 + rtw * dec 11 10)
               (rtp * Math_PI * ofZ 2)).

(** [Array.from({ length }, fn)] *)
Fixpoint arrayFrom {A : Type} (length : nat) (fn : Rand A) : Rand (list A) :=
  match length with
  | O => ret []
  | S k => v <- fn ;; vs <- arrayFrom k fn ;; ret (v :: vs)
  end.

Definition genStars (w groundY : num) : Rand (list Star.T) :=
  arrayFrom 180 (genStar w groundY).

(** *** Skyline *)

(** [Math.floor(Math.random() * n)] as an integer; a draw is finite, so
    the last case is never taken. *)
Definition floorTimes (r : num) (n : Z) : Z :=
  match r with
  | Fin q => Qfloor (q * inject_Z n)
  | _ => 0%Z
  end.

(** The inner loop over the columns of one floor. *)
Fixpoint genWindowsCols (f c : Z) (n : nat) (windows : list Building.Window)
  : Rand (list Building.Window) :=
  match n with
  | O => ret windows
  | S k =>
      r1 <- random ;;
      if r1 >? dec 3 10
      then r2 <- random ;;
           genWindowsCols f (c + 1) k
             (windows ++ [Building.mkWindow f c (r2 >? dec 25 100)])
      else genWindowsCols f (c + 1) k windows
  end.

(** The outer loop over the floors. *)
Fixpoint genWindowsFloors (f : Z) (n : nat) (cols : Z) (windows : list Building.Window)
  : Rand (list Building.Window) :=
  match n with
  | O => ret windows
  | S k =>
      ws <- genWindowsCols f 0 (Z.to_nat cols) windows ;;
      genWindowsFloors (f + 1) k cols ws
  end.

Fixpoint genBuildingsLoop (n : nat) (minW maxW minH maxH : Z)
         (buildings : list Building.T) (x : Z) : Rand Building.Layer :=
  match n with
  | O => ret (Building.mkLayer buildings x)
  | S k =>
      rw <- random ;;
      rh <- random ;;
      let bw := (minW + floorTimes rw (maxW - minW + 1))%Z in
      let bh := (minH + floorTimes rh (maxH - minH + 1))%Z in
      let floorH := 14%Z in
      let colW := 12%Z in
      let floors := (bh / floorH)%Z in
      let cols := (bw / colW)%Z in
      windows <- genWindowsFloors 0 (Z.to_nat floors) cols [] ;;
      rx <- random ;;
      genBuildingsLoop k minW maxW minH maxH
        (buildings ++ [Building.mk x bw bh floors cols floorH colW windows])
        (x + (bw + 3 + floorTimes rx 10))%Z
  end.

Definition genBuildings (count minW maxW minH maxH : Z) : Rand Building.Layer :=
  genBuildingsLoop (Z.to_nat count) minW maxW minH maxH [] 0%Z.

End Game.

(** ** The handlers of the game component *)

Section Handlers.
Context {host : Host}.

(** The text of the high-score element. *)
Definition hiText (hi : num) : string :=
  ("HI " ++ Str.padStart 5 (Number_toString hi))%string.

(** [makeState()] *)
Definition makeState (physics : Physics) (wd : World) : Rand G.T :=
  let w := ofZ (canvas_width wd) in
  let h := ofZ (canvas_height wd) in
  let gndY := Math_floor (h * GROUND_RATIO) in
  let hiScore :=
    Str.parseInt (Str.orElse (getItem (localStorage wd) "da_hi"%string) "0"%string) in
  stars <- genStars w gndY ;;
  far <- genBuildings 50 30 65 45 120 ;;
  near <- genBuildings 35 55 110 80 210 ;;
  ret (G.mk w h gndY
            intro
            (ofZ 0)
            hiScore
            (initSpeed physics)
            (ofZ 0)
            (Char.mk (ofZ 110) (gndY - CHAR_H) (ofZ 0) true (ofZ 0) (ofZ 0) (ofZ 0))
            []
            (ofZ 1400)
            (ofZ 0) (ofZ 0) (ofZ 0)
            stars far near
            (ofZ (-1))).

(** [resize()]; the two arguments are [window.innerWidth] and
    [window.innerHeight] as the handler reads them. *)
Definition resize (innerWidth innerHeight : Z) (wd : World) : World :=
  let wd := with_canvas innerWidth innerHeight wd in
  match gRef wd with
  | Some g =>
      let g := G.with_w (ofZ (canvas_width wd)) g in
      let g := G.with_h (ofZ (canvas_height wd)) g in
      let g := G.with_gndY (Math_floor (ofZ (canvas_height wd) * GROUND_RATIO)) g in
      let '(stars, n) := genStars (G.w g) (G.gndY g) (randomCalls wd) in
      with_randomCalls n (with_gRef (Some (G.with_stars stars g)) wd)
  | None => wd
  end.

(** The world before the mount effect has run: a canvas of the default size,
    no state yet, and the HUD as the markup has it. *)
Definition initialWorld (store : Storage) : World :=
  mkWorld 300 150 None store intro (Some "HI 00000"%string) (Some "00000"%string) (ofZ 0) 0.

(** The start of the mount effect: [resize(); gRef.current = makeState();]
    and the first text of the high-score element. *)
Definition mount (physics : Physics) (innerWidth innerHeight : Z) (wd : World) : World :=
  let wd := resize innerWidth innerHeight wd in
  let '(g, n) := makeState physics wd (randomCalls wd) in
  let wd := with_randomCalls n (with_gRef (Some g) wd) in
  with_hiEl (setText (hiText (G.hiScore g)) (hiEl wd)) wd.

(** [doAction()] *)
Definition doAction (physics : Physics) (wd : World) : World :=
  match gRef wd with
  | None => wd
  | Some g =>
      match G.phase g with
      | intro =>
          with_uiPhase playing (with_gRef (Some (G.with_phase playing g)) wd)
      | playing =>
          if Char.grounded (G.char g)
          then
            let ch := Char.with_vy (jumpForce physics) (G.char g) in
            let ch := Char.with_grounded false ch in
            with_gRef (Some (G.with_char ch g)) wd
          else wd
      | gameover =>
          let hi := G.hiScore g in
          let '(g', n) := makeState physics wd (randomCalls wd) in
          let g' := G.with_hiScore hi g' in
          let g' := G.with_phase playing g' in
          let wd := with_randomCalls n (with_gRef (Some g') wd) in
          let wd := with_scoreEl (setText "00000"%string (scoreEl wd)) wd in
          let wd := with_hiEl (setText (hiText hi) (hiEl wd)) wd in
          with_uiPhase playing wd
      end
  end.

(** *** One frame: the blocks of [loop], in source order *)

(** Advance run animation. *)
Definition loop_animation (physics : Physics) (dt : num) (g : G.T) : G.T :=
  let animFps :=
    if Phase_eqb (G.phase g) playing
    then Math_min (ofZ 16) (ANIM_FPS * (G.speed g / initSpeed physics))
    else ANIM_FPS in
  let ch := Char.with_frameTick (Char.frameTick (G.char g) + dt) (G.char g) in
  let ch :=
    if Char.frameTick ch >? ofZ 1000 / animFps
    then
      let ch :=
        if negb (Phase_eqb (G.phase g) gameover)
        then Char.with_frame ((Char.frame ch + ofZ 1) %% lengthOf RUN_FRAMES) ch
        else ch in
      Char.with_frameTick (Char.frameTick ch - ofZ 1000 / animFps) ch
    else ch in
  G.with_char ch g.

(** Clock, score, speed and the three scroll offsets. *)
Definition loop_advance (physics : Physics) (dt : num) (g : G.T) : G.T :=
  let g := G.with_t (G.t g + dt) g in
  let g := G.with_score (G.score g + G.speed g * dt * SCORE_RATE * dec 1 10) g in
  let g := G.with_speed
             (Math_min (maxSpeed physics)
                       (initSpeed physics + G.score g * speedRate physics)) g in
  let g := G.with_gndOff ((G.gndOff g + G.speed g) %% ofZ 55) g in
  let g := G.with_farOff (G.farOff g + G.speed g * dec 12 100) g in
  G.with_nearOff (G.nearOff g + G.speed g * dec 38 100) g.

(** Physics. *)
Definition loop_physics (physics : Physics) (g : G.T) : G.T :=
  let ch := G.char g in
  let ch := Char.with_vy (Char.vy ch + gravity physics) ch in
  let ch := Char.with_y (Char.y ch + Char.vy ch) ch in
  let floor := G.gndY g - CHAR_H in
  let ch :=
    if Char.y ch >=? floor
    then
      let ch := Char.with_y floor ch in
      let ch := Char.with_vy (ofZ 0) ch in
      Char.with_grounded true ch
    else ch in
  let ch :=
    Char.with_bounce
      (if Char.grounded ch
       then Math_sin (G.t g * dec 12 1000) * dec 25 10
       else ofZ 0) ch in
  G.with_char ch g.

(** Spawn obstacles.  [inr] carries the state at the point where
    [getCactusSize] throws, which ends the frame there. *)
Definition loop_spawn (physics : Physics) (dt : num) (g : G.T) : Rand (G.T + G.T) :=
  let g := G.with_nextGap (G.nextGap g - dt) g in
  if G.nextGap g <=? ofZ 0
  then
    r1 <- random ;;
    let type := Math_floor (r1 * lengthOf CACTUS_DEFS) in
    match getCactusSize type with
    | None => ret (inr g)
    | Some (w, h) =>
        let g := G.with_obs (G.obs g ++ [Obs.mk (G.w g + ofZ 60) type w h]) g in
        r2 <- random ;;
        let px := minGap physics + r2 * (maxGap physics - minGap physics) in
        ret (inl (G.with_nextGap ((px / G.speed g) * (ofZ 1000 / ofZ 60)) g))
    end
  else ret (inl g).

(** Move every obstacle left by the speed, then drop the ones that left. *)
Definition loop_scroll (g : G.T) : G.T :=
  let g := G.with_obs (map (fun o => Obs.with_x (Obs.x o - G.speed g) o) (G.obs g)) g in
  G.with_obs (filter (fun o => Obs.x o + Obs.w o >? ofZ (-60)) (G.obs g)) g.

(** The condition of the [if] inside the collision loop. *)
Definition hit (g : G.T) (o : Obs.T) : bool :=
  let ch := G.char g in
  let cLeft := Char.x ch + ofZ 12 in
  let cRight := Char.x ch + CHAR_W - ofZ 12 in
  let cTop := Char.y ch + ofZ 8 in
  let cBottom := Char.y ch + CHAR_H - ofZ 4 in
  let oTop := G.gndY g - Obs.h o in
  (cRight >? Obs.x o + ofZ 4) &&
  (cLeft <? Obs.x o + Obs.w o - ofZ 4) &&
  (cBottom >? oTop + ofZ 4) &&
  (cTop <? G.gndY g).

(** What the body of that [if] does before its [break]. *)
Definition gameOver (g : G.T) (wd : World) : G.T * World :=
  let g := G.with_phase gameover g in
  let newHi := Math_max (G.hiScore g) (Math_floor (G.score g)) in
  let g := G.with_hiScore newHi g in
  let wd := with_localStorage
              (setItem "da_hi"%string (Number_toString newHi) (localStorage wd)) wd in
  let wd := with_hiEl (setText (hiText newHi) (hiEl wd)) wd in
  let wd := with_uiPhase gameover wd in
  (g, wd).

(** Collision: [for (const o of g.obs) { if (...) { ...; break; } }] *)
Fixpoint loop_collision (os : list Obs.T) (g : G.T) (wd : World) : G.T * World :=
  match os with
  | [] => (g, wd)
  | o :: rest =>
      if hit g o then gameOver g wd else loop_collision rest g wd
  end.

(** DOM score update. *)
Definition loop_display (g : G.T) (wd : World) : G.T * World :=
  let dispScore := Math_floor (G.score g) in
  if negb (eqb dispScore (G.lastDisplayScore g))
  then (G.with_lastDisplayScore dispScore g,
        with_scoreEl (setText (Str.padStart 5 (Number_toString dispScore)) (scoreEl wd)) wd)
  else (g, wd).

(** The [if (playing) { ... }] block. *)
Definition loop_playing (physics : Physics) (dt : num) (g : G.T) (wd : World)
  : G.T * World :=
  let g := loop_advance physics dt g in
  let g := loop_physics physics g in
  let '(res, n) := loop_spawn physics dt g (randomCalls wd) in
  let wd := with_randomCalls n wd in
  match res with
  | inr g => (g, wd)
  | inl g =>
      let g := loop_scroll g in
      let '(g, wd) := loop_collision (G.obs g) g wd in
      loop_display g wd
  end.

(** [loop(ts)], the UPDATE half.  With no state yet the first read of
    [g.phase] throws, after [lastTs] was assigned. *)
Definition loop (physics : Physics) (ts : num) (wd : World) : World :=
  let dt := Math_min (ts - lastTs wd) (ofZ 50) in
  let wd := with_lastTs ts wd in
  match gRef wd with
  | None => wd
  | Some g =>
      let isPlaying := Phase_eqb (G.phase g) playing in
      let g := loop_animation physics dt g in
      if isPlaying
      then
        let '(g, wd) := loop_playing physics dt g wd in
        with_gRef (Some g) wd
      else with_gRef (Some g) wd
  end.

End Handlers.

(** * The vocabulary of the statements *)

(** The fields that only the first two blocks of the playing branch write
    (clock, score, speed, offsets, character) and the ones no block writes. *)
Definition sameMotion (g g' : G.T) : Prop :=
  G.char g' = G.char g /\ G.gndY g' = G.gndY g /\ G.score g' = G.score g /\
  G.speed g' = G.speed g /\ G.t g' = G.t g /\ G.w g' = G.w g /\ G.h g' = G.h g /\
  G.gndOff g' = G.gndOff g /\ G.farOff g' = G.farOff g /\
  G.nearOff g' = G.nearOff g /\ G.stars g' = G.stars g /\
  G.far g' = G.far g /\ G.near g' = G.near g.

(** The finiteness the integration relies on: position, velocity and ground
    line are finite numbers. *)
Definition finiteChar (g : G.T) : bool :=
  isFinite (Char.y (G.char g)) && isFinite (Char.vy (G.char g)) &&
  isFinite (G.gndY g).

(** The overlap test in the words of the specification: the two hit-boxes,
    the margin, and the four inequalities. *)
Module HitBox.





End HitBox.

(** The stored high score as a fresh state reads it. *)
Definition storedHiScore (store : Storage) : num :=
  Str.parseInt (Str.orElse (getItem store "da_hi") "0").

(** What can happen to a mounted game: an animation frame, an action press
    (key, click or touch), a resize of the window. *)
Inductive Event : Type :=
| Frame (ts : num)
| Action
| Resize (innerWidth innerHeight : Z).

Section Events.
Context {host : Host}.

Definition handle (physics : Physics) (e : Event) (wd : World) : World :=
  match e with
  | Frame ts => loop physics ts wd
  | Action => doAction physics wd
  | Resize innerWidth innerHeight => resize innerWidth innerHeight wd
  end.

(** A run of frames at the given timestamps. *)
Fixpoint run (physics : Physics) (tss : list num) (wd : World) : World :=
  match tss with
  | [] => wd
  | ts :: rest => run physics rest (loop physics ts wd)
  end.

End Events.

Definition finiteEvent (e : Event) : bool :=
  match e with
  | Frame ts => isFinite ts
  | _ => true
  end.

(** The score side of a state is made of numbers: score, speed and the last
    timestamp are finite and the high score is not [NaN]. *)
Definition finiteScore (wd : World) (g : G.T) : bool :=
  isFinite (G.score g) && isFinite (G.speed g) && isFinite (lastTs wd) &&
  negb (isNaN (G.hiScore g)).

(** A physics object made of finite numbers (the gaps apart). *)
Definition finitePhysics (physics : Physics) : bool :=
  isFinite (gravity physics) && isFinite (jumpForce physics) &&
  isFinite (initSpeed physics) && isFinite (maxSpeed physics) &&
  isFinite (speedRate physics).

(** A physics object the speed can grow under: finite speeds and rate, a
    rate that is not negative, and [0 <= initSpeed <= maxSpeed]. *)
Definition growingPhysics (physics : Physics) : bool :=
  isFinite (initSpeed physics) && isFinite (maxSpeed physics) &&
  isFinite (speedRate physics) && (ofZ 0 <=? speedRate physics) &&
  (ofZ 0 <=? initSpeed physics) && (initSpeed physics <=? maxSpeed physics).

(** A state whose speed lies on or below the curve of its score: the score
    is finite and [0 <= speed <= min(maxSpeed, initSpeed + score * speedRate)]. *)
Definition onSpeedCurve (physics : Physics) (g : G.T) : bool :=
  isFinite (G.score g) && (ofZ 0 <=? G.speed g) &&
  (G.speed g <=? maxSpeed physics) &&
  (G.speed g <=? initSpeed physics + G.score g * speedRate physics).

(** Time does not run backwards: the timestamp of the frame is at least the
    previous one, and both are finite. *)
Definition forwardTime (ts : num) (wd : World) : bool :=
  isFinite ts && isFinite (lastTs wd) && (lastTs wd <=? ts).

(** A state the spawn block can work from: score, speed and countdown are
    finite, and score and speed are not negative. *)
Definition spawnReady (g : G.T) : bool :=
  isFinite (G.score g) && (ofZ 0 <=? G.score g) &&
  isFinite (G.speed g) && (ofZ 0 <=? G.speed g) &&
  isFinite (G.nextGap g).

(** An event that does not take time back. *)
Definition forwardEvent (e : Event) (wd : World) : bool :=
  match e with
  | Frame ts => forwardTime ts wd
  | _ => true
  end.

(** ** Concrete inputs *)

(** A host to run the model with: every draw is one half, and the values
    the model does not compute are fixed stand-ins.  No statement depends
    on the choice. *)
Definition sampleHost : Host :=
  {| Math_random := fun _ => mkDraw (1 # 2) eq_refl;
     Math_sin := fun _ => Fin 0;
     Math_PI := Fin (355 # 113);
     Number_toString_other := fun _ => "?"%string |}.

(** A frame every 50 ms: the timestamps 50, 100, ..., 50 n. *)
Definition every50 (n : nat) : list num :=
  map (fun k => ofZ (50 * Z.of_nat k)) (seq 1 n).

(** The page after the mount in an 800 x 600 window with an empty store,
    and after the first action press. *)
Definition freshWorld : World :=
  @mount sampleHost PHYSICS_DEFAULTS 800 600 (initialWorld emptyStorage).

Definition playingWorld : World := @doAction sampleHost PHYSICS_DEFAULTS freshWorld.

Definition playingState : G.T :=
  G.with_phase playing
    (fst (@makeState sampleHost PHYSICS_DEFAULTS
            (with_canvas 800 600 (initialWorld emptyStorage)) 0%nat)).

(** The same with one obstacle that has scrolled up to the character. *)
Definition collidingState : G.T :=
  G.with_obs [Obs.mk (ofZ 150) (ofZ 0) (ofZ 49) (ofZ 77)] playingState.

Definition collidingWorld : World := with_gRef (Some collidingState) playingWorld.

Definition gameoverWorld : World :=
  @loop sampleHost PHYSICS_DEFAULTS (ofZ 16) collidingWorld.

Definition gameoverState : G.T :=
  match gRef gameoverWorld with
  | Some g => g
  | None => collidingState
  end.

(** Slider values with the initial speed above the maximum speed, set while
    the game-over screen is up; the retry then starts a run under them. *)
Definition fastStart : Physics :=
  mkPhysics GRAVITY JUMP_FORCE (ofZ 20) (ofZ 5) SPEED_RATE MIN_GAP_PX MAX_GAP_PX.

Definition fastStartWorld : World := @doAction sampleHost fastStart gameoverWorld.

(** The initial-speed slider pulled down to 1 while the intro screen is up,
    after the state was made with the default of 5. *)
Definition slowStart : Physics :=
  mkPhysics GRAVITY JUMP_FORCE (ofZ 1) MAX_SPEED SPEED_RATE MIN_GAP_PX MAX_GAP_PX.

Definition slowStartWorld : World := @doAction sampleHost slowStart freshWorld.

(** The maximum-speed slider pulled down to 5 in the middle of a run. *)
Definition tunedDown : Physics :=
  mkPhysics GRAVITY JUMP_FORCE INIT_SPEED (ofZ 5) SPEED_RATE MIN_GAP_PX MAX_GAP_PX.

(** A physics object with a maximum speed of zero, outside the sliders. *)
Definition stalled : Physics :=
  mkPhysics GRAVITY JUMP_FORCE INIT_SPEED (ofZ 0) SPEED_RATE MIN_GAP_PX MAX_GAP_PX.

(** The weakest jump the slider allows, and a frame every 16 ms. *)
Definition hop : Physics :=
  mkPhysics GRAVITY (ofZ (-2)) INIT_SPEED MAX_SPEED SPEED_RATE MIN_GAP_PX MAX_GAP_PX.

Definition every16 (n : nat) : list num :=
  map (fun k => ofZ (16 * Z.of_nat k)) (seq 1 n).

(** A run under the defaults up to the frame before the countdown of 1400
    runs out: 27 frames of 50 ms.  The next frame, at 1400 ms, spawns. *)
Definition spawnWorld : World :=
  @run sampleHost PHYSICS_DEFAULTS (every50 27) playingWorld.

Definition spawnState : G.T :=
  match gRef spawnWorld with
  | Some g => g
  | None => playingState
  end.

(** A store whose entry does not parse, and the page mounted on it. *)
Definition brokenStore : Storage := setItem "da_hi" "abc" emptyStorage.

Definition brokenWorld : World :=
  @doAction sampleHost PHYSICS_DEFAULTS
    (@mount sampleHost PHYSICS_DEFAULTS 800 600 (initialWorld brokenStore)).

(** The obstacle of [collidingState] put into the state of a world. *)
Definition withObstacle (wd : World) : World :=
  with_gRef
    (option_map (G.with_obs [Obs.mk (ofZ 150) (ofZ 0) (ofZ 49) (ofZ 77)]) (gRef wd))
    wd.

(** * More of the component: definitions *)

From Stdlib Require DecimalPos DecimalZ.

(** A string that does not go on with a decimal digit. *)
Definition stopsDigits (rest : string) : Prop :=
  match rest with
  | String c _ => Str.digitValue c = None
  | EmptyString => True
  end.

(** A number that is an integer below [10^21] in magnitude, in lowest terms:
    the numbers [String] renders in plain decimal digits. *)
Definition safeInteger (a : num) : bool :=
  match a with
  | Fin q => (Pos.eqb (Qden q) 1 && (Z.abs (Qnum q) <? 10 ^ 21)%Z)%bool
  | _ => false
  end.

(** The phases an event can lead to from a phase, as the handlers have it:
    a frame ends a run, an action press starts one, nothing leads back to
    the intro. *)
Definition nextPhases (e : Event) (p : Phase) : list Phase :=
  match e, p with
  | Frame _, playing => [playing; gameover]
  | Action, intro => [playing]
  | Action, gameover => [playing]
  | _, _ => [p]
  end.

(** An obstacle whose size is the size of its type in the catalogue. *)
Definition fromCatalogue (o : Obs.T) : Prop :=
  getCactusSize (Obs.type o) = Some (Obs.w o, Obs.h o).

(** The three sizes of the catalogue (width, height). *)
Definition catalogueSizes : list (num * num) :=
  [(ofZ 49, ofZ 77); (ofZ 49, ofZ 84); (ofZ 56, ofZ 63)].

(** The test of the cull: the right edge is still right of [-60]. *)
Definition onStage (o : Obs.T) : bool := Obs.x o + Obs.w o >? ofZ (-60).

(** A ground offset inside one tile of the grid, [0 <= gndOff < 55]. *)
Definition inTile (g : G.T) : bool :=
  (ofZ 0 <=? G.gndOff g) && (G.gndOff g <? ofZ 55).

(** A character standing on the floor: grounded, at [gndY - CHAR_H], with no
    vertical velocity. *)
Definition standing (g : G.T) : Prop :=
  Char.grounded (G.char g) = true /\
  Char.y (G.char g) = G.gndY g - CHAR_H /\
  Char.vy (G.char g) = ofZ 0.


(** ** The sprite of the character *)

(** The frame of the sheet the render picks: [DEAD_FRAME] once the game is
    over, the frame of the run cycle on the ground, [JUMP_FRAME] in the air.
    [None] is the [undefined] of an array read past the end. *)
Definition frameIdx (g : G.T) : option num :=
  if Phase_eqb (G.phase g) gameover then Some DEAD_FRAME
  else if Char.grounded (G.char g) then index RUN_FRAMES (Char.frame (G.char g))
  else Some JUMP_FRAME.

(** The source rectangle [drawSprite] hands to [drawImage]: left, top, width
    and height on the sheet. *)
Definition drawSprite_source (frameIdx : num) : num * num * num * num :=
  let col := frameIdx %% COLS in
  let row := Math_floor (frameIdx / COLS) in
  (col * FRAME_W, row * FRAME_H, FRAME_W, FRAME_H).

(** A number that is an index of the array. *)
Definition validIndex {A : Type} (arr : list A) (i : num) : Prop :=
  exists k : nat, (k < List.length arr)%nat /\ i = ofZ (Z.of_nat k).

(** A source rectangle inside the first [rows] rows of the sheet. *)
Definition inSheet (rows : Z) (src : num * num * num * num) : Prop :=
  let '(sx, sy, sw, sh) := src in
  ofZ 0 <= sx /\ sx + sw <= COLS * FRAME_W /\
  ofZ 0 <= sy /\ sy + sh <= ofZ rows * FRAME_H.

Section History.
Context {host : Host}.

(** A history of events, handled one after the other. *)
Definition handleAll (physics : Physics) (es : list Event) (wd : World) : World :=
  fold_left (fun wd e => handle physics e wd) es wd.

End History.

(** ** Background removal *)

(** The loop of [processSprite] over the bytes of the image data, one pixel
    of four bytes (red, green, blue, alpha) at a time: a pixel where green
    dominates gets alpha zero.  Image data comes in whole pixels; on a rest
    of fewer than four bytes the loop body would read [undefined], every
    comparison with it is false, and nothing is written. *)
Fixpoint processSprite_loop (d : list Z) : list Z :=
  match d with
  | r :: g :: b :: a :: rest =>
      r :: g :: b
        :: (if ((g >? 100) && (g >? r + 40) && (g >? b + 40))%Z then 0%Z else a)
        :: processSprite_loop rest
  | _ => d
  end.

(** ** The backdrop *)

(** A star inside the sky of a canvas [w] wide with the ground at
    [groundY], with one of the two radii and its alpha and twinkle rate in
    the ranges the generator draws from. *)
Definition starInSky (w groundY : num) (s : Star.T) : Prop :=
  ofZ 0 <= Star.x s /\ Star.x s <= w /\
  ofZ 0 <= Star.y s /\ Star.y s <= groundY * dec 88 100 /\
  (Star.r s = dec 14 10 \/ Star.r s = dec 8 10) /\
  dec 45 100 <= Star.a s /\ Star.a s <= ofZ 1 /\
  dec 25 100 <= Star.tw s /\ Star.tw s <= dec 135 100.

(** The rectangle [drawLayer] paints for a lit window, as offsets from the
    top left corner of its building: left, top, width, height. *)
Definition drawLayer_window (b : Building.T) (win : Building.Window) : Z * Z * Z * Z :=
  ((Building.c win * Building.colW b + 3)%Z,
   (Building.f win * Building.floorH b + 3)%Z, 5%Z, 7%Z).

(** A rectangle of offsets inside a building. *)
Definition insideBuilding (b : Building.T) (box : Z * Z * Z * Z) : Prop :=
  let '(wx, wy, ww, wh) := box in
  (0 <= wx /\ wx + ww <= Building.bw b /\ 0 <= wy /\ wy + wh <= Building.bh b)%Z.

(** Buildings laid out from left to right, from [x0] up to [total]: each
    one starts where the one before ended plus a gap of 3 to 12, and the
    last gap runs up to [total]. *)
Fixpoint laidOut (x0 : Z) (bs : list Building.T) (total : Z) : Prop :=
  match bs with
  | [] => total = x0
  | b :: rest =>
      Building.x b = x0 /\
      exists gap : Z, (3 <= gap <= 12)%Z /\
        laidOut (x0 + Building.bw b + gap) rest total
  end.

(** The size of a building, within the bounds it was generated from. *)
Definition sizedWithin (minW maxW minH maxH : Z) (b : Building.T) : Prop :=
  (minW <= Building.bw b <= maxW /\ minH <= Building.bh b <= maxH)%Z.

(** ** The score element *)

Section Hud.
Context {host : Host}.

(** The text the frame writes into the score element. *)
Definition scoreText (a : num) : string := Str.padStart 5 (Number_toString a).

(** The score element is there and agrees with the state: the last score
    displayed is an integer and the element holds its text, or that integer
    is the [-1] of a state that has displayed nothing yet. *)
Definition hudInSync (wd : World) (g : G.T) : Prop :=
  exists (z : Z) (txt : string),
    G.lastDisplayScore g = ofZ z /\
    scoreEl wd = Some txt /\
    (z <> (-1)%Z -> txt = scoreText (ofZ z)).

End Hud.

(** ** Drawing an obstacle *)

(** [arr.forEach((a, i) => ...)], collecting what the callback draws. *)
Fixpoint forEachi {A B : Type} (fn : A -> nat -> list B) (i : nat) (arr : list A)
  : list B :=
  match arr with
  | [] => []
  | a :: rest => fn a i ++ forEachi fn (S i) rest
  end.

(** A call of [fillRect] with the fill style set before it. *)
Record Fill : Type := mkFill {
  fillStyle : string;
  fill_x : num;
  fill_y : num;
  fill_w : num;
  fill_h : num
}.

(** The truth value of [row[ci]]: a read past the end is [undefined]. *)
Definition cellAt (row : list nat) (ci : nat) : bool :=
  negb (Nat.eqb (nth ci row 0%nat) 0).

(** [drawCactus(ctx, x, groundY, type)]: the rectangles it fills, in order;
    [None] is the [TypeError] of destructuring [undefined]. *)
Definition drawCactus (x groundY type : num) : option (list Fill) :=
  match index CACTUS_DEFS type with
  | None => None
  | Some d =>
      let totalH := lengthOf (rows d) * scale d in
      let startY := groundY - totalH in
      Some (forEachi (fun row ri =>
              forEachi (fun filled ci =>
                if Nat.eqb filled 0 then []
                else
                  let bx := x + ofZ (Z.of_nat ci) * scale d in
                  let by' := startY + ofZ (Z.of_nat ri) * scale d in
                  let leftEdge := Nat.eqb ci 0 || negb (cellAt row (ci - 1)) in
                  let rightEdge :=
                    Nat.eqb ci (List.length row - 1) || negb (cellAt row (ci + 1)) in
                  let topEdge :=
                    Nat.eqb ri 0 || negb (cellAt (nth (ri - 1) (rows d) []) ci) in
                  [mkFill "#267a3e" bx by' (scale d) (scale d)] ++
                  (if leftEdge then [mkFill "#3db85e" bx by' (ofZ 2) (scale d)] else []) ++
                  (if rightEdge
                   then [mkFill "#174d27" (bx + scale d - ofZ 2) by' (ofZ 2) (scale d)]
                   else []) ++
                  (if topEdge then [mkFill "#4dce72" bx by' (scale d) (ofZ 2)] else []))
                0%nat row)
              0%nat (rows d))
  end.

(** A filled rectangle inside the box of an obstacle at [x] on the ground
    line [groundY], [w] wide and [h] high. *)
Definition inBox (x groundY w h : num) (f : Fill) : Prop :=
  x <= fill_x f /\ fill_x f + fill_w f <= x + w /\
  groundY - h <= fill_y f /\ fill_y f + fill_h f <= groundY.

(** A definition of the catalogue the drawing fits: no row is longer than
    the first, and a cell is at least as large as the 2 px of an edge. *)
Definition fitsBox (d : ObstacleDef) : bool :=
  match rows d with
  | [] => false
  | row0 :: _ =>
      forallb (fun row => (List.length row <=? List.length row0)%nat) (rows d) &&
      isFinite (scale d) && (ofZ 2 <=? scale d)
  end.

(** ** The music loop

    [scheduleMusic] hands the notes of one pass through the tune to the
    audio context and sets a timer for the next pass.  The model returns
    what it schedules.  The context's clock is read twice in the source;
    the model takes one reading, as the clock stands still within a task. *)

Definition MUSIC_STEP : num := ofZ 60 / ofZ 140 / ofZ 2.

Definition MUSIC_MELODY : list num :=
  map ofZ
    [ 523; 659; 784; 659; 523; 659; 587;   0;
      494; 587; 740; 587; 494; 587; 523;   0;
      523; 659; 784; 659; 523; 659; 880; 784;
      698; 659; 587; 523;   0;   0;   0;   0 ]%Z.

Definition MUSIC_BASS : list num :=
  map ofZ
    [ 131;   0; 165;   0; 196;   0; 165;   0;
      123;   0; 147;   0; 185;   0; 147;   0;
      131;   0; 165;   0; 196;   0; 220;   0;
      175;   0; 131;   0; 196;   0; 131;   0 ]%Z.

(** One oscillator: its frequency, wave form and volume, when it starts,
    when its gain has ramped down, and when it stops. *)
Record Note : Type := mkNote {
  note_freq : num;
  note_type : string;
  note_vol : num;
  note_start : num;
  note_rampEnd : num;
  note_stop : num
}.

(** [scheduleNote(ctx, freq, type, vol, t, dur)] *)
Definition scheduleNote (freq : num) (type : string) (vol t dur : num) : Note :=
  mkNote freq type vol t (t + dur * dec 8 10) (t + dur).

(** The truth value of a number: zero and [NaN] are false. *)
Definition truthy (a : num) : bool :=
  match a with
  | Fin q => negb (Qeq_bool q 0)
  | NaN => false
  | _ => true
  end.

(** [loopStart ?? ctx.currentTime + 0.05] *)
Definition loopStartOr (currentTime : num) (loopStart : option num) : num :=
  match loopStart with
  | Some t => t
  | None => currentTime + dec 5 100
  end.

Record Scheduled : Type := mkScheduled {
  notes : list Note;
  timer_delay : num;
  next_loopStart : num
}.

(** [scheduleMusic(ctx, timerRef, loopStart)]: the notes, the delay of the
    timer in ms, and the [loopStart] its callback passes on. *)
Definition scheduleMusic (currentTime : num) (loopStart : option num) : Scheduled :=
  let dur := lengthOf MUSIC_MELODY * MUSIC_STEP in
  let t := loopStartOr currentTime loopStart in
  let melody :=
    forEachi (fun f i =>
                if truthy f
                then [scheduleNote f "square" (dec 6 100)
                                   (t + ofZ (Z.of_nat i) * MUSIC_STEP) MUSIC_STEP]
                else [])
             0%nat MUSIC_MELODY in
  let bass :=
    forEachi (fun f i =>
                if truthy f
                then [scheduleNote f "triangle" (dec 5 100)
                                   (t + ofZ (Z.of_nat i) * MUSIC_STEP)
                                   (MUSIC_STEP * dec 19 10)]
                else [])
             0%nat MUSIC_BASS in
  let ms := (t + dur - dec 4 10 - currentTime) * ofZ 1000 in
  mkScheduled (melody ++ bass) (Math_max (ofZ 0) ms) (t + dur).

(** A note that sounds within the pass from [t] to [stop]: it starts at or
    after [t], ramps down after it started and before it stops, and stops
    at or before [stop]. *)
Definition withinPass (t stop : num) (n : Note) : Prop :=
  t <= note_start n /\ note_start n < note_rampEnd n /\
  note_rampEnd n < note_stop n /\ note_stop n <= stop.

(** ** More concrete inputs *)

(** The first building of a one-building skyline under the sample host, and
    its first window. *)
Definition sampleBuilding : Building.T :=
  hd (Building.mk 0 0 0 0 0 0 0 [])
     (Building.buildings (fst (@genBuildings sampleHost 1 30 65 45 120 0%nat))).

Definition sampleWindow : Building.Window :=
  hd (Building.mkWindow 0 0 false) (Building.windows sampleBuilding).
(** * Properties *)

(** ** Numbers *)

Lemma Qltb_iff (a b : Q) : Qltb a b = true <-> (a < b)%Q.
Proof.
  unfold Qltb. rewrite negb_true_iff. split.
  - intro H. apply Qnot_le_lt. intro Hle.
    apply Qle_bool_iff in Hle. congruence.
  - intro H. destruct (Qle_bool b a) eqn:E; [|reflexivity].
    apply Qle_bool_iff in E. exfalso. apply (Qlt_not_le _ _ H E).
Qed.

Lemma Qltb_false_iff (a b : Q) : Qltb a b = false <-> (b <= a)%Q.
Proof.
  unfold Qltb. rewrite negb_false_iff. apply Qle_bool_iff.
Qed.

Lemma Qle_bool_false_iff (a b : Q) : Qle_bool a b = false <-> (b < a)%Q.
Proof.
  rewrite <- Qltb_iff. unfold Qltb. rewrite negb_true_iff. reflexivity.
Qed.

(** Turns boolean comparisons of rationals into propositions and removes
    [Qred], so that [lra] applies. *)
Ltac q_norm :=
  repeat match goal with
  | H : Qle_bool _ _ = true |- _ => apply Qle_bool_iff in H
  | H : Qle_bool _ _ = false |- _ => apply Qle_bool_false_iff in H
  | H : Qltb _ _ = true |- _ => apply Qltb_iff in H
  | H : Qltb _ _ = false |- _ => apply Qltb_false_iff in H
  | H : Qeq_bool _ _ = true |- _ => apply Qeq_bool_iff in H
  | H : Qeq_bool _ _ = false |- _ => apply Qeq_bool_neq in H
  | |- Qle_bool _ _ = true => apply Qle_bool_iff
  | |- Qle_bool _ _ = false => apply Qle_bool_false_iff
  | |- Qltb _ _ = true => apply Qltb_iff
  | |- Qltb _ _ = false => apply Qltb_false_iff
  end;
  repeat match goal with
  | H : context [Qred ?q] |- _ => rewrite (Qred_correct q) in H
  | |- context [Qred ?q] => rewrite (Qred_correct q)
  end.

(** Facts on comparisons, minima and maxima: split every number and every
    comparison the goal branches on, then finish in the rationals. *)
Ltac num_unfold :=
  cbv beta iota delta
      [add sub neg mul div signedInf flip Math_min Math_max Math_floor
       leb ltb geb gtb JS.le JS.lt isFinite isNaN] in *.

Ltac num_auto :=
  intros;
  repeat match goal with
  | a : num |- _ => destruct a
  end;
  num_unfold; try discriminate; try reflexivity;
  repeat (match goal with
          | |- context [if ?c then _ else _] => destruct c eqn:?
          end; num_unfold);
  try discriminate; try reflexivity;
  q_norm; try lra.

Lemma leb_refl (a : num) : isNaN a = false -> (a <=? a) = true.
Proof. num_auto. Qed.

Lemma leb_false_ltb (a b : num) :
  isNaN a = false -> isNaN b = false -> (a <=? b) = false -> (b <? a) = true.
Proof. num_auto. Qed.

Lemma ltb_leb (a b : num) : (a <? b) = true -> (a <=? b) = true.
Proof. num_auto. Qed.

Lemma leb_trans (a b c : num) :
  (a <=? b) = true -> (b <=? c) = true -> (a <=? c) = true.
Proof. num_auto. Qed.

Lemma isFinite_notNaN (a : num) : isFinite a = true -> isNaN a = false.
Proof. num_auto. Qed.

Lemma isFinite_add (a b : num) :
  isFinite a = true -> isFinite b = true -> isFinite (a + b) = true.
Proof. num_auto. Qed.

Lemma isFinite_sub (a b : num) :
  isFinite a = true -> isFinite b = true -> isFinite (a - b) = true.
Proof. num_auto. Qed.

Lemma isFinite_mul (a b : num) :
  isFinite a = true -> isFinite b = true -> isFinite (a * b) = true.
Proof. num_auto. Qed.

Lemma isFinite_Math_min (a b : num) :
  isFinite a = true -> isFinite b = true -> isFinite (Math_min a b) = true.
Proof. num_auto. Qed.

Lemma isFinite_Math_floor (a : num) :
  isFinite a = true -> isFinite (Math_floor a) = true.
Proof. num_auto. Qed.

Lemma Math_max_ge_l (a b : num) :
  isNaN a = false -> isNaN b = false -> (a <=? Math_max a b) = true.
Proof. unfold Math_max. num_auto. Qed.

Lemma Math_max_notNaN (a b : num) :
  isNaN a = false -> isNaN b = false -> isNaN (Math_max a b) = false.
Proof. unfold Math_max. num_auto. Qed.

Lemma Math_min_le_l (a b : num) :
  isNaN a = false -> isNaN b = false -> (Math_min a b <=? a) = true.
Proof. unfold Math_min. num_auto. Qed.

Lemma Math_min_le_r (a b : num) :
  isNaN a = false -> isNaN b = false -> (Math_min a b <=? b) = true.
Proof. unfold Math_min. num_auto. Qed.

(** From here on the arithmetic stays folded under [simpl]. *)
Arguments add : simpl never.
Arguments sub : simpl never.
Arguments neg : simpl never.
Arguments mul : simpl never.
Arguments div : simpl never.
Arguments rem : simpl never.
Arguments Math_min : simpl never.
Arguments Math_max : simpl never.
Arguments Math_floor : simpl never.
Arguments Math_round : simpl never.
Arguments leb : simpl never.
Arguments ltb : simpl never.
Arguments geb : simpl never.
Arguments gtb : simpl never.
Arguments eqb : simpl never.
Arguments ofZ : simpl never.
Arguments dec : simpl never.
Arguments Number_toString : simpl never.
Arguments hiText : simpl never.
Arguments setItem : simpl never.
Arguments getCactusSize : simpl never.
Arguments lengthOf : simpl never.
Arguments CHAR_H : simpl never.
Arguments CHAR_W : simpl never.
Arguments GROUND_RATIO : simpl never.
Arguments SCORE_RATE : simpl never.
Arguments genStars : simpl never.
Arguments genBuildings : simpl never.
Arguments makeState : simpl never.

(** ** What each block of a frame leaves alone *)

Section Frames.
Context {host : Host}.

Lemma sameMotion_refl (g : G.T) : sameMotion g g.
Proof. unfold sameMotion. repeat split. Qed.

Lemma sameMotion_trans (g1 g2 g3 : G.T) :
  sameMotion g1 g2 -> sameMotion g2 g3 -> sameMotion g1 g3.
Proof.
  unfold sameMotion. intros H1 H2.
  decompose [and] H1. decompose [and] H2.
  repeat split; congruence.
Qed.

Lemma loop_spawn_motion (physics : Physics) (dt : num) (g : G.T) (n : nat) :
  match fst (loop_spawn physics dt g n) with
  | inl g' => sameMotion g g' /\ G.phase g' = G.phase g /\ G.hiScore g' = G.hiScore g
  | inr g' => sameMotion g g' /\ G.phase g' = G.phase g /\ G.hiScore g' = G.hiScore g
  end.
Proof.
  unfold loop_spawn, bind, random, ret, sameMotion. simpl.
  destruct (_ <=? _); simpl.
  - destruct (getCactusSize _) as [[w h]|]; simpl; repeat split.
  - repeat split.
Qed.

Lemma loop_scroll_motion (g : G.T) :
  sameMotion g (loop_scroll g) /\ G.phase (loop_scroll g) = G.phase g /\
  G.hiScore (loop_scroll g) = G.hiScore g /\
  G.nextGap (loop_scroll g) = G.nextGap g.
Proof.
  unfold loop_scroll, sameMotion. simpl. repeat split.
Qed.

Lemma gameOver_motion (g : G.T) (wd : World) :
  sameMotion g (fst (gameOver g wd)) /\
  G.obs (fst (gameOver g wd)) = G.obs g /\
  G.nextGap (fst (gameOver g wd)) = G.nextGap g.
Proof. unfold gameOver, sameMotion. simpl. repeat split. Qed.

Lemma loop_collision_cases (os : list Obs.T) (g : G.T) (wd : World) :
  (existsb (hit g) os = false /\ loop_collision os g wd = (g, wd)) \/
  (existsb (hit g) os = true /\ loop_collision os g wd = gameOver g wd).
Proof.
  induction os as [|o rest IH]; simpl.
  - left. split; reflexivity.
  - destruct (hit g o); simpl.
    + right. split; reflexivity.
    + exact IH.
Qed.

Lemma loop_collision_motion (os : list Obs.T) (g : G.T) (wd : World) :
  sameMotion g (fst (loop_collision os g wd)) /\
  G.obs (fst (loop_collision os g wd)) = G.obs g /\
  G.nextGap (fst (loop_collision os g wd)) = G.nextGap g.
Proof.
  destruct (loop_collision_cases os g wd) as [[_ E]|[_ E]]; rewrite E.
  - simpl. split; [apply sameMotion_refl | split; reflexivity].
  - apply gameOver_motion.
Qed.

Lemma loop_display_motion (g : G.T) (wd : World) :
  sameMotion g (fst (loop_display g wd)) /\
  G.obs (fst (loop_display g wd)) = G.obs g /\
  G.nextGap (fst (loop_display g wd)) = G.nextGap g /\
  G.phase (fst (loop_display g wd)) = G.phase g /\
  G.hiScore (fst (loop_display g wd)) = G.hiScore g /\
  localStorage (snd (loop_display g wd)) = localStorage wd.
Proof.
  unfold loop_display, sameMotion. destruct (negb _); simpl; repeat split.
Qed.

(** After the first two blocks, the rest of the playing branch leaves the
    motion fields as they are. *)
Lemma loop_playing_motion (physics : Physics) (dt : num) (g : G.T) (wd : World) :
  sameMotion (loop_physics physics (loop_advance physics dt g))
             (fst (loop_playing physics dt g wd)).
Proof.
  unfold loop_playing.
  set (g1 := loop_physics physics (loop_advance physics dt g)).
  pose proof (loop_spawn_motion physics dt g1 (randomCalls wd)) as Hs.
  destruct (loop_spawn physics dt g1 (randomCalls wd)) as [res n]. simpl in Hs.
  destruct res as [g2|g2].
  - destruct Hs as [Hs _].
    pose proof (loop_scroll_motion g2) as [Hsc _].
    set (g3 := loop_scroll g2) in *.
    pose proof (loop_collision_motion (G.obs g3) g3 (with_randomCalls n wd)) as [Hc _].
    destruct (loop_collision (G.obs g3) g3 (with_randomCalls n wd)) as [g4 wd4].
    simpl in Hc.
    pose proof (loop_display_motion g4 wd4) as [Hd _].
    eapply sameMotion_trans; [exact Hs|].
    eapply sameMotion_trans; [exact Hsc|].
    eapply sameMotion_trans; [exact Hc|exact Hd].
  - simpl. apply Hs.
Qed.

(** A frame always leaves a state behind when there was one. *)
Lemma loop_gRef (physics : Physics) (ts : num) (wd : World) (g : G.T) :
  gRef wd = Some g ->
  gRef (loop physics ts wd) =
    Some (if Phase_eqb (G.phase g) playing
          then fst (loop_playing physics (Math_min (ts - lastTs wd) (ofZ 50))
                      (loop_animation physics (Math_min (ts - lastTs wd) (ofZ 50)) g)
                      (with_lastTs ts wd))
          else loop_animation physics (Math_min (ts - lastTs wd) (ofZ 50)) g).
Proof.
  intro Hg. unfold loop. simpl. rewrite Hg.
  destruct (Phase_eqb (G.phase g) playing).
  - destruct (loop_playing _ _ _ _) as [g' wd']. reflexivity.
  - reflexivity.
Qed.

End Frames.

(** ** The physics integration (C1) *)

Section Integration.
Context {host : Host}.

Lemma loop_animation_char (physics : Physics) (dt : num) (g : G.T) :
  let g' := loop_animation physics dt g in
  Char.x (G.char g') = Char.x (G.char g) /\
  Char.y (G.char g') = Char.y (G.char g) /\
  Char.vy (G.char g') = Char.vy (G.char g) /\
  Char.grounded (G.char g') = Char.grounded (G.char g) /\
  G.gndY g' = G.gndY g /\ G.score g' = G.score g /\ G.speed g' = G.speed g /\
  G.hiScore g' = G.hiScore g /\ G.phase g' = G.phase g /\ G.obs g' = G.obs g /\
  G.nextGap g' = G.nextGap g /\ G.w g' = G.w g.
Proof.
  unfold loop_animation. simpl.
  destruct (_ >? _); [destruct (negb _)|]; simpl; repeat split.
Qed.

Lemma loop_advance_keeps (physics : Physics) (dt : num) (g : G.T) :
  let g' := loop_advance physics dt g in
  G.char g' = G.char g /\ G.gndY g' = G.gndY g /\ G.hiScore g' = G.hiScore g /\
  G.phase g' = G.phase g /\ G.obs g' = G.obs g /\ G.nextGap g' = G.nextGap g /\
  G.w g' = G.w g.
Proof. unfold loop_advance. simpl. repeat split. Qed.

(** What the physics block does to the character, from the values it reads. *)
Lemma loop_physics_spec (physics : Physics) (g : G.T) :
  let y1 := Char.y (G.char g) + (Char.vy (G.char g) + gravity physics) in
  let floor := G.gndY g - CHAR_H in
  let ch' := G.char (loop_physics physics g) in
  G.gndY (loop_physics physics g) = G.gndY g /\
  ((y1 >=? floor) = true ->
     Char.y ch' = floor /\ Char.vy ch' = ofZ 0 /\ Char.grounded ch' = true) /\
  ((y1 >=? floor) = false ->
     Char.y ch' = y1 /\ Char.vy ch' = Char.vy (G.char g) + gravity physics /\
     Char.grounded ch' = Char.grounded (G.char g)).
Proof.
  unfold loop_physics. simpl.
  destruct (_ >=? _) eqn:E; simpl; repeat split; intros; try discriminate;
    reflexivity.
Qed.

(** C1. For every frame in the playing phase, whatever the timestamp (so for
    every dt), the character ends the frame with [y <= floorY], where
    [floorY = gndY - CHAR_H]; and whenever the clamp fires (the integrated
    [y] reaches [floorY]) the character ends the frame on the floor with
    [vy = 0] and [grounded = true].  Position, velocity, ground line and
    gravity are finite numbers. *)
Theorem C1_floor_clamp (physics : Physics) (ts : num) (wd : World) (g : G.T) :
  gRef wd = Some g ->
  G.phase g = playing ->
  finiteChar g = true ->
  isFinite (gravity physics) = true ->
  exists g',
    gRef (loop physics ts wd) = Some g' /\
    Char.y (G.char g') <= G.gndY g' - CHAR_H /\
    ((Char.y (G.char g) + (Char.vy (G.char g) + gravity physics)
        >=? G.gndY g - CHAR_H) = true ->
     Char.y (G.char g') = G.gndY g' - CHAR_H /\
     Char.vy (G.char g') = ofZ 0 /\
     Char.grounded (G.char g') = true).
Proof.
  intros Hg Hph Hfin Hgrav.
  rewrite (loop_gRef physics ts wd Hg), Hph. simpl Phase_eqb. cbv iota.
  set (dt := Math_min (ts - lastTs wd) (ofZ 50)).
  eexists. split; [reflexivity|].
  pose proof (loop_playing_motion physics dt (loop_animation physics dt g)
                (with_lastTs ts wd)) as Hm.
  destruct Hm as (Hchar & HgndY & _).
  rewrite Hchar, HgndY.
  pose proof (loop_animation_char physics dt g) as Ha. cbv zeta in Ha.
  destruct Ha as (_ & Hy & Hvy & Hgr & Hgy & _).
  pose proof (loop_advance_keeps physics dt (loop_animation physics dt g)) as Hk.
  cbv zeta in Hk. destruct Hk as (Hkc & Hkg & _).
  pose proof (loop_physics_spec physics
                (loop_advance physics dt (loop_animation physics dt g))) as Hp.
  cbv zeta in Hp. rewrite Hkc, Hkg, Hy, Hvy, Hgr, Hgy in Hp.
  destruct Hp as (Hp0 & Hp1 & Hp2). rewrite Hp0.
  unfold finiteChar in Hfin.
  apply andb_true_iff in Hfin. destruct Hfin as [Hfin Hfg].
  apply andb_true_iff in Hfin. destruct Hfin as [Hfy Hfv].
  assert (Hfloor : isFinite (G.gndY g - CHAR_H) = true)
    by (apply isFinite_sub; [assumption|reflexivity]).
  assert (Hy1 : isFinite (Char.y (G.char g) + (Char.vy (G.char g) + gravity physics)) = true)
    by (repeat apply isFinite_add; assumption).
  split.
  - destruct (_ >=? _) eqn:E.
    + destruct (Hp1 eq_refl) as (Ey & _). rewrite Ey.
      apply leb_refl, isFinite_notNaN, Hfloor.
    + destruct (Hp2 eq_refl) as (Ey & _). rewrite Ey.
      apply ltb_leb, leb_false_ltb; try apply isFinite_notNaN; assumption.
  - intro E. exact (Hp1 E).
Qed.

End Integration.

(** ** Collision (C2, C9) *)


Section Collision.
Context {host : Host}.


Lemma hit_ext (g g' : G.T) (o : Obs.T) :
  G.char g' = G.char g -> G.gndY g' = G.gndY g -> hit g' o = hit g o.
Proof. intros Hc Hy. unfold hit. rewrite Hc, Hy. reflexivity. Qed.

Lemma existsb_hit_ext (g g' : G.T) (os : list Obs.T) :
  G.char g' = G.char g -> G.gndY g' = G.gndY g ->
  existsb (hit g') os = existsb (hit g) os.
Proof.
  intros Hc Hy. induction os as [|o os IH]; simpl; [reflexivity|].
  rewrite (@hit_ext g g' o Hc Hy), IH. reflexivity.
Qed.

(** The index drawn for a new obstacle is 0, 1 or 2. *)
Lemma drawn_type_range (d : Draw) :
  exists z : Z,
    Math_floor (drawNum d * lengthOf CACTUS_DEFS) = ofZ z /\ (0 <= z <= 2)%Z.
Proof.
  destruct d as [v Hv]. unfold drawNum. simpl draw_val.
  unfold inUnit in Hv. apply andb_true_iff in Hv. destruct Hv as [H0 H1].
  q_norm.
  exists (Qfloor (v * 3)). split.
  - unfold lengthOf, ofZ, mul, Math_floor. simpl List.length.
    rewrite (Qfloor_comp _ _ (Qred_correct _)). reflexivity.
  - split.
    + change 0%Z with (Qfloor 0). apply Qfloor_resp_le. lra.
    + assert (H : (Qfloor (v * 3) < 3)%Z).
      { rewrite Zlt_Qlt.
        apply Qle_lt_trans with (v * 3)%Q; [apply Qfloor_le|].
        change (inject_Z 3) with 3%Q. lra. }
      lia.
Qed.

(** So [getCactusSize] finds a definition for every drawn index, and the
    spawn block never throws. *)
Lemma getCactusSize_drawn (d : Draw) :
  exists sz, getCactusSize (Math_floor (drawNum d * lengthOf CACTUS_DEFS)) = Some sz.
Proof.
  destruct (drawn_type_range d) as (z & -> & Hz).
  assert (Hc : z = 0%Z \/ z = 1%Z \/ z = 2%Z) by lia.
  destruct Hc as [->|[->| ->]]; eexists; vm_compute; reflexivity.
Qed.

Lemma loop_spawn_returns (physics : Physics) (dt : num) (g : G.T) (n : nat) :
  exists g', fst (loop_spawn physics dt g n) = inl g'.
Proof.
  unfold loop_spawn, bind, random, ret. simpl.
  destruct (_ <=? _); simpl.
  - destruct (getCactusSize_drawn (Math_random n)) as ([w h] & ->). simpl.
    eexists. reflexivity.
  - eexists. reflexivity.
Qed.

Lemma loop_physics_keeps (physics : Physics) (g : G.T) :
  let g' := loop_physics physics g in
  G.hiScore g' = G.hiScore g /\ G.score g' = G.score g /\
  G.speed g' = G.speed g /\ G.phase g' = G.phase g /\ G.obs g' = G.obs g /\
  G.nextGap g' = G.nextGap g /\ G.w g' = G.w g.
Proof. unfold loop_physics. simpl. repeat split. Qed.

(** The playing branch, block by block: the state [g3] that reaches the
    collision loop, and the result of that loop followed by the score
    display. *)
Lemma loop_playing_unfold (physics : Physics) (dt : num) (g : G.T) (wd : World) :
  exists g3 n,
    sameMotion (loop_physics physics (loop_advance physics dt g)) g3 /\
    G.hiScore g3 = G.hiScore g /\ G.phase g3 = G.phase g /\
    loop_playing physics dt g wd =
      (let '(g4, wd4) := loop_collision (G.obs g3) g3 (with_randomCalls n wd) in
       loop_display g4 wd4).
Proof.
  unfold loop_playing.
  set (g1 := loop_physics physics (loop_advance physics dt g)).
  pose proof (loop_spawn_motion physics dt g1 (randomCalls wd)) as Hs.
  destruct (loop_spawn_returns physics dt g1 (randomCalls wd)) as (g2 & E2).
  destruct (loop_spawn physics dt g1 (randomCalls wd)) as [res n].
  simpl in E2, Hs. subst res. destruct Hs as (Hm & Hph & Hhi).
  pose proof (loop_scroll_motion g2) as (Hm2 & Hph2 & Hhi2 & _).
  exists (loop_scroll g2), n. split; [|split; [|split; [|reflexivity]]].
  - apply (@sameMotion_trans g1 g2 (loop_scroll g2) Hm Hm2).
  - rewrite Hhi2, Hhi. unfold g1, loop_physics, loop_advance. reflexivity.
  - rewrite Hph2, Hph. unfold g1, loop_physics, loop_advance. reflexivity.
Qed.

(** C2. In a frame of the playing phase, whenever some obstacle of the list
    overlaps the character's hit-box (the test the collision loop makes, on
    the positions this frame has produced), the frame ends with the phase
    [gameover], with [hiScore = max(hiScore before, floor(score))], and with
    exactly that value written under the key of the persistent store. *)
Theorem C2_collision_commits (physics : Physics) (ts : num) (wd : World) (g : G.T) :
  gRef wd = Some g ->
  G.phase g = playing ->
  exists g',
    gRef (loop physics ts wd) = Some g' /\
    (existsb (hit g') (G.obs g') = true ->
     G.phase g' = gameover /\
     G.hiScore g' = Math_max (G.hiScore g) (Math_floor (G.score g')) /\
     localStorage (loop physics ts wd) =
       setItem "da_hi" (Number_toString (G.hiScore g')) (localStorage wd) /\
     getItem (localStorage (loop physics ts wd)) "da_hi" =
       Some (Number_toString (G.hiScore g'))).
Proof.
  intros Hg Hph.
  unfold loop. simpl. rewrite Hg, Hph. simpl.
  set (dt := Math_min (ts - lastTs wd) (ofZ 50)).
  set (g0 := loop_animation physics dt g).
  destruct (loop_playing_unfold physics dt g0 (with_lastTs ts wd))
    as (g3 & n & Hm & Hhi & _ & E).
  rewrite E. clear E.
  set (wd3 := with_randomCalls n (with_lastTs ts wd)).
  pose proof (loop_collision_cases (G.obs g3) g3 wd3) as Hc.
  pose proof (loop_collision_motion (G.obs g3) g3 wd3) as (Hm4 & Ho4 & _).
  destruct (loop_collision (G.obs g3) g3 wd3) as [g4 wd4]. simpl in Hm4, Ho4.
  pose proof (loop_display_motion g4 wd4) as (Hm5 & Ho5 & _ & Hph5 & Hhi5 & Hst5).
  destruct (loop_display g4 wd4) as [g5 wd5]. simpl in *.
  exists g5. split; [reflexivity|].
  intro Hex.
  assert (Hchar : G.char g5 = G.char g3)
    by (destruct Hm5 as (-> & _); destruct Hm4 as (-> & _); reflexivity).
  assert (HgndY : G.gndY g5 = G.gndY g3)
    by (destruct Hm5 as (_ & -> & _); destruct Hm4 as (_ & -> & _); reflexivity).
  assert (Hscore : G.score g5 = G.score g3)
    by (destruct Hm5 as (_ & _ & -> & _); destruct Hm4 as (_ & _ & -> & _);
        reflexivity).
  rewrite Ho5, Ho4, (@existsb_hit_ext g3 g5 (G.obs g3) Hchar HgndY) in Hex.
  destruct Hc as [[Hno _]|[_ Hgo]]; [congruence|].
  unfold gameOver in Hgo. injection Hgo as E4 Ew4. subst g4 wd4.
  simpl in Hhi5, Hst5, Hph5.
  assert (Hhi0 : G.hiScore g3 = G.hiScore g).
  { rewrite Hhi. unfold g0.
    pose proof (loop_animation_char physics dt g) as Ha. cbv zeta in Ha.
    destruct Ha as (_ & _ & _ & _ & _ & _ & _ & Hah & _). exact Hah. }
  assert (Hhi' : G.hiScore g5 = Math_max (G.hiScore g) (Math_floor (G.score g5))).
  { rewrite Hhi5, Hscore, Hhi0. reflexivity. }
  assert (Hstore : localStorage wd5 =
            setItem "da_hi" (Number_toString (G.hiScore g5)) (localStorage wd)).
  { rewrite Hst5, Hhi', Hscore, Hhi0. reflexivity. }
  split; [exact Hph5|].
  split; [exact Hhi'|].
  split; [exact Hstore|].
  rewrite Hstore. unfold getItem, setItem. rewrite String.eqb_refl. reflexivity.
Qed.


End Collision.

(** ** State construction, the action and the resize handler
       (C5, C6, C8, C10) *)

Section Construction.
Context {host : Host}.

Lemma arrayFrom_length {A : Type} (k : nat) (fn : Rand A) (n : nat) :
  List.length (fst (arrayFrom k fn n)) = k.
Proof.
  revert n. induction k as [|k IH]; intro n; simpl; [reflexivity|].
  unfold bind. destruct (fn n) as [v n1].
  specialize (IH n1). destruct (arrayFrom k fn n1) as [vs n2].
  simpl in *. rewrite IH. reflexivity.
Qed.

Lemma genStars_length (w groundY : num) (n : nat) :
  List.length (fst (genStars w groundY n)) = 180%nat.
Proof. apply arrayFrom_length. Qed.

(** The fields of a freshly made state. *)
Lemma makeState_fields (physics : Physics) (wd : World) (n : nat) :
  let g := fst (makeState physics wd n) in
  G.phase g = intro /\
  G.score g = ofZ 0 /\
  G.hiScore g =
    Str.parseInt (Str.orElse (getItem (localStorage wd) "da_hi") "0") /\
  G.speed g = initSpeed physics /\
  G.gndY g = Math_floor (ofZ (canvas_height wd) * GROUND_RATIO) /\
  G.char g =
    Char.mk (ofZ 110)
            (Math_floor (ofZ (canvas_height wd) * GROUND_RATIO) - CHAR_H)
            (ofZ 0) true (ofZ 0) (ofZ 0) (ofZ 0) /\
  G.obs g = [] /\
  G.nextGap g = ofZ 1400 /\
  List.length (G.stars g) = 180%nat.
Proof.
  unfold makeState, bind, ret.
  pose proof (genStars_length (ofZ (canvas_width wd))
                (Math_floor (ofZ (canvas_height wd) * GROUND_RATIO)) n) as Hl.
  destruct (genStars _ _ n) as [stars n1].
  destruct (genBuildings 50 30 65 45 120 n1) as [far n2].
  destruct (genBuildings 35 55 110 80 210 n2) as [near n3].
  simpl in *. repeat split. exact Hl.
Qed.

Lemma inSliderRange_spec (physics : Physics) :
  inSliderRange physics = true ->
  (dec 1 10 <= gravity physics /\ gravity physics <= ofZ 2) /\
  (ofZ (-30) <= jumpForce physics /\ jumpForce physics <= ofZ (-2)) /\
  (ofZ 1 <= initSpeed physics /\ initSpeed physics <= ofZ 20) /\
  (ofZ 5 <= maxSpeed physics /\ maxSpeed physics <= ofZ 50) /\
  (dec 1 1000 <= speedRate physics /\ speedRate physics <= dec 5 100) /\
  (ofZ 100 <= minGap physics /\ minGap physics <= ofZ 800) /\
  (ofZ 400 <= maxGap physics /\ maxGap physics <= ofZ 1600).
Proof.
  unfold inSliderRange, SLIDERS, JS.le. simpl forallb. simpl slider_key.
  simpl slider_min. simpl slider_max.
  rewrite !andb_true_iff. tauto.
Qed.

Lemma slider_jumpForce_negative (physics : Physics) :
  inSliderRange physics = true -> jumpForce physics < ofZ 0.
Proof.
  intro H. apply inSliderRange_spec in H.
  destruct H as (_ & (_ & Hj) & _). revert Hj.
  unfold ofZ, inject_Z. destruct (jumpForce physics); num_auto.
Qed.

(** C5. In the playing phase an action press on a grounded character sets
    the vertical velocity to the jump force and clears [grounded]; the jump
    force is negative, both as the constant [JUMP_FORCE] and for every value
    the settings slider allows.  An action press while airborne leaves the
    whole world, and with it the whole game state, as it was: no second jump
    and nothing queued. *)
Theorem C5_jump (physics : Physics) (wd : World) (g : G.T) :
  gRef wd = Some g ->
  G.phase g = playing ->
  (Char.grounded (G.char g) = true ->
   exists g',
     gRef (doAction physics wd) = Some g' /\
     Char.vy (G.char g') = jumpForce physics /\
     Char.grounded (G.char g') = false /\
     G.phase g' = playing) /\
  (Char.grounded (G.char g) = false -> doAction physics wd = wd) /\
  jumpForce PHYSICS_DEFAULTS < ofZ 0 /\
  (inSliderRange physics = true -> jumpForce physics < ofZ 0).
Proof.
  intros Hg Hph. unfold doAction. rewrite Hg, Hph.
  split; [|split; [|split]].
  - intros ->. eexists. simpl. split; [reflexivity|].
    repeat split. exact Hph.
  - intros ->. reflexivity.
  - reflexivity.
  - apply slider_jumpForce_negative.
Qed.

(** C6. From the game-over phase an action press rebuilds the state:
    afterwards the score is 0, the speed is [initSpeed], the phase is
    [playing], and [hiScore] is what it was just before the press. *)
Theorem C6_retry (physics : Physics) (wd : World) (g : G.T) :
  gRef wd = Some g ->
  G.phase g = gameover ->
  exists g',
    gRef (doAction physics wd) = Some g' /\
    G.score g' = ofZ 0 /\
    G.speed g' = initSpeed physics /\
    G.phase g' = playing /\
    G.hiScore g' = G.hiScore g.
Proof.
  intros Hg Hph. unfold doAction. rewrite Hg, Hph.
  pose proof (makeState_fields physics wd (randomCalls wd)) as Hf.
  cbv zeta in Hf.
  destruct (makeState physics wd (randomCalls wd)) as [g1 n]. simpl in Hf.
  destruct Hf as (_ & Hs & _ & Hv & _).
  eexists. simpl. split; [reflexivity|].
  simpl. repeat split; assumption.
Qed.

Lemma makeState_hiScore (physics : Physics) (wd : World) (n : nat) :
  G.hiScore (fst (makeState physics wd n)) = storedHiScore (localStorage wd).
Proof.
  pose proof (makeState_fields physics wd n) as Hf. cbv zeta in Hf.
  destruct Hf as (_ & _ & Hh & _). exact Hh.
Qed.

(** A missing entry and an empty entry both read as 0. *)
Lemma missing_hiScore_is_zero (physics : Physics) (wd : World) (n : nat) :
  getItem (localStorage wd) "da_hi" = None \/
  getItem (localStorage wd) "da_hi" = Some EmptyString ->
  G.hiScore (fst (makeState physics wd n)) = ofZ 0.
Proof.
  intro H. rewrite makeState_hiScore. unfold storedHiScore.
  destruct H as [-> | ->]; reflexivity.
Qed.

(** C8 (the code departs from it). With the entry ["abc"] in the store,
    which has no leading digits, the fresh state's [hiScore] is [NaN], not
    0: the fallback [|| '0'] covers only a missing or empty entry, and
    [parseInt] of a string without digits is [NaN]. *)
Theorem C8_unparseable_is_NaN (physics : Physics) (n : nat) :
  getItem (localStorage (initialWorld brokenStore)) "da_hi" = Some "abc"%string /\
  G.hiScore (fst (makeState physics (initialWorld brokenStore) n)) = NaN /\
  G.hiScore (fst (makeState physics (initialWorld brokenStore) n)) <> ofZ 0.
Proof.
  split; [reflexivity|].
  rewrite makeState_hiScore. split; [reflexivity|].
  vm_compute. discriminate.
Qed.

(** C10. Two calls of the resize handler with the same window size give the
    same [gndY], equal to [floor(height * GROUND_RATIO)], and a star field of
    the same size, 180 stars, both times; neither call changes the score or
    the phase. *)
Theorem C10_resize_twice (innerWidth innerHeight : Z) (wd : World) (g : G.T) :
  gRef wd = Some g ->
  exists g1 g2,
    gRef (resize innerWidth innerHeight wd) = Some g1 /\
    gRef (resize innerWidth innerHeight (resize innerWidth innerHeight wd)) = Some g2 /\
    G.gndY g1 = Math_floor (ofZ innerHeight * GROUND_RATIO) /\
    G.gndY g2 = G.gndY g1 /\
    List.length (G.stars g1) = 180%nat /\
    List.length (G.stars g2) = 180%nat /\
    G.score g1 = G.score g /\ G.score g2 = G.score g /\
    G.phase g1 = G.phase g /\ G.phase g2 = G.phase g /\
    uiPhase (resize innerWidth innerHeight (resize innerWidth innerHeight wd)) =
      uiPhase wd.
Proof.
  intro Hg.
  assert (Hone : forall wd0 g0, gRef wd0 = Some g0 ->
            exists g1,
              gRef (resize innerWidth innerHeight wd0) = Some g1 /\
              G.gndY g1 = Math_floor (ofZ innerHeight * GROUND_RATIO) /\
              List.length (G.stars g1) = 180%nat /\
              G.score g1 = G.score g0 /\ G.phase g1 = G.phase g0 /\
              uiPhase (resize innerWidth innerHeight wd0) = uiPhase wd0).
  { intros wd0 g0 H0. unfold resize.
    change (gRef (with_canvas innerWidth innerHeight wd0)) with (gRef wd0).
    rewrite H0.
    match goal with
    | |- context [genStars ?a ?b ?c] =>
        pose proof (genStars_length a b c) as Hl;
        destruct (genStars a b c) as [stars n1]
    end.
    simpl in *. eexists. split; [reflexivity|]. simpl. repeat split. exact Hl. }
  destruct (Hone wd g Hg) as (g1 & E1 & Hy1 & Hl1 & Hs1 & Hp1 & Hu1).
  destruct (Hone _ g1 E1) as (g2 & E2 & Hy2 & Hl2 & Hs2 & Hp2 & Hu2).
  exists g1, g2. repeat split; try assumption; congruence.
Qed.

End Construction.

(** ** The high score over the life of the page (C3) *)

Section Lifetime.
Context {host : Host}.

Lemma loop_advance_score (physics : Physics) (dt : num) (g : G.T) :
  G.score (loop_advance physics dt g) =
    G.score g + G.speed g * dt * SCORE_RATE * dec 1 10 /\
  G.speed (loop_advance physics dt g) =
    Math_min (maxSpeed physics)
             (initSpeed physics +
              (G.score g + G.speed g * dt * SCORE_RATE * dec 1 10) * speedRate physics).
Proof. unfold loop_advance. simpl. split; reflexivity. Qed.

(** The score and the speed a playing frame ends with, from the values at
    its start. *)
Lemma loop_playing_score (physics : Physics) (dt : num) (g : G.T) (wd : World) :
  let g' := fst (loop_playing physics dt (loop_animation physics dt g) wd) in
  G.score g' = G.score g + G.speed g * dt * SCORE_RATE * dec 1 10 /\
  G.speed g' =
    Math_min (maxSpeed physics) (initSpeed physics + G.score g' * speedRate physics).
Proof.
  cbv zeta.
  pose proof (loop_playing_motion physics dt (loop_animation physics dt g) wd) as Hm.
  destruct Hm as (_ & _ & Hs & Hv & _).
  pose proof (loop_physics_keeps physics
                (loop_advance physics dt (loop_animation physics dt g))) as Hk.
  cbv zeta in Hk. destruct Hk as (_ & Hks & Hkv & _).
  pose proof (loop_advance_score physics dt (loop_animation physics dt g)) as (Has & Hav).
  pose proof (loop_animation_char physics dt g) as Ha. cbv zeta in Ha.
  destruct Ha as (_ & _ & _ & _ & _ & Hsc & Hsp & _).
  rewrite Hs, Hv, Hks, Hkv, Has, Hav, Hsc, Hsp. split; reflexivity.
Qed.

Lemma isFinite_dt (ts last : num) :
  isFinite ts = true -> isFinite last = true ->
  isFinite (Math_min (ts - last) (ofZ 50)) = true.
Proof.
  intros. apply isFinite_Math_min; [apply isFinite_sub; assumption|reflexivity].
Qed.

(** The high score a playing frame ends with is the old one, or the maximum
    the game-over commit takes. *)
Lemma loop_playing_hiScore (physics : Physics) (dt : num) (g : G.T) (wd : World) :
  let g' := fst (loop_playing physics dt (loop_animation physics dt g) wd) in
  G.hiScore g' = G.hiScore g \/
  G.hiScore g' = Math_max (G.hiScore g) (Math_floor (G.score g')).
Proof.
  cbv zeta.
  pose proof (loop_animation_char physics dt g) as Ha. cbv zeta in Ha.
  destruct Ha as (_ & _ & _ & _ & _ & _ & _ & Hah & _).
  destruct (loop_playing_unfold physics dt (loop_animation physics dt g) wd)
    as (g3 & n & Hm & Hhi & _ & E).
  rewrite E. clear E.
  set (wd3 := with_randomCalls n wd).
  pose proof (loop_collision_cases (G.obs g3) g3 wd3) as Hc.
  destruct (loop_collision (G.obs g3) g3 wd3) as [g4 wd4].
  pose proof (loop_display_motion g4 wd4) as (Hm5 & _ & _ & _ & Hhi5 & _).
  destruct Hm5 as (_ & _ & Hs5 & _).
  rewrite Hhi5, Hs5.
  destruct Hc as [[_ E]|[_ E]].
  - injection E as E1 E2. subst g4. left. rewrite Hhi, Hah. reflexivity.
  - unfold gameOver in E. injection E as E1 E2. subst g4. right.
    change (Math_max (G.hiScore g3) (Math_floor (G.score g3)) =
            Math_max (G.hiScore g) (Math_floor (G.score g3))).
    rewrite Hhi, Hah. reflexivity.
Qed.

(** C3. Every operation on a mounted game (a frame, a jump or any other
    action press, the game-over commit inside a frame, the rebuild on retry,
    a resize) leaves a state whose [hiScore] is at least the one before,
    whatever the phase and the outcome of the run.  The numbers involved are
    numbers: score, speed and timestamps finite, the high score not [NaN]. *)
Theorem C3_hiScore_monotone (physics : Physics) (e : Event) (wd : World) (g : G.T) :
  gRef wd = Some g ->
  finiteScore wd g = true ->
  finiteEvent e = true ->
  exists g',
    gRef (handle physics e wd) = Some g' /\
    G.hiScore g <= G.hiScore g'.
Proof.
  intros Hg Hfin He.
  unfold finiteScore in Hfin. rewrite !andb_true_iff in Hfin.
  destruct Hfin as (((Hs & Hv) & Hl) & Hh). apply negb_true_iff in Hh.
  destruct e as [ts| |iw ih]; unfold handle.
  - rewrite (loop_gRef physics ts wd Hg).
    set (dt := Math_min (ts - lastTs wd) (ofZ 50)).
    eexists. split; [reflexivity|].
    pose proof (loop_animation_char physics dt g) as Ha. cbv zeta in Ha.
    destruct Ha as (_ & _ & _ & _ & _ & _ & _ & Hah & _).
    destruct (G.phase g); unfold Phase_eqb;
      try (rewrite Hah; apply leb_refl, Hh).
    pose proof (loop_playing_hiScore physics dt g (with_lastTs ts wd)) as Hcase.
    pose proof (loop_playing_score physics dt g (with_lastTs ts wd)) as Hsc.
    cbv zeta in Hcase, Hsc. destruct Hsc as (Hsc & _).
    destruct Hcase as [-> | ->]; [apply leb_refl, Hh|].
    apply Math_max_ge_l; [exact Hh|].
    apply isFinite_notNaN, isFinite_Math_floor.
    rewrite Hsc. unfold finiteEvent in He.
    apply isFinite_add; [assumption|].
    apply isFinite_mul; [|reflexivity].
    apply isFinite_mul; [|reflexivity].
    apply isFinite_mul; [assumption|].
    apply isFinite_dt; assumption.
  - unfold doAction. rewrite Hg.
    destruct (G.phase g).
    + eexists. split; [reflexivity|]. apply leb_refl, Hh.
    + destruct (Char.grounded (G.char g)).
      * eexists. split; [reflexivity|]. apply leb_refl, Hh.
      * exists g. split; [exact Hg|]. apply leb_refl, Hh.
    + destruct (makeState physics wd (randomCalls wd)) as [g1 n].
      eexists. split; [reflexivity|]. apply leb_refl, Hh.
  - unfold resize.
    change (gRef (with_canvas iw ih wd)) with (gRef wd). rewrite Hg.
    match goal with
    | |- context [genStars ?a ?b ?c] => destruct (genStars a b c) as [stars n1]
    end.
    eexists. split; [reflexivity|]. apply leb_refl, Hh.
Qed.

(** *** Finiteness is kept

    The finiteness the theorems on frames assume holds from the mount on,
    for a finite physics object, finite timestamps and a stored high score
    that parses. *)

Lemma loop_playing_lastTs (physics : Physics) (dt : num) (g : G.T) (wd : World) :
  lastTs (snd (loop_playing physics dt g wd)) = lastTs wd.
Proof.
  unfold loop_playing.
  generalize (loop_physics physics (loop_advance physics dt g)). intro g1.
  destruct (loop_spawn physics dt g1 (randomCalls wd)) as [res n].
  destruct res as [g2|g2]; [|reflexivity].
  generalize (loop_scroll g2). intro g3.
  destruct (loop_collision_cases (G.obs g3) g3 (with_randomCalls n wd))
    as [[_ E]|[_ E]]; rewrite E; unfold gameOver, loop_display;
    destruct (negb _); reflexivity.
Qed.

Lemma loop_lastTs (physics : Physics) (ts : num) (wd : World) :
  lastTs (loop physics ts wd) = ts.
Proof.
  unfold loop.
  change (gRef (with_lastTs ts wd)) with (gRef wd).
  destruct (gRef wd) as [g|]; [|reflexivity].
  destruct (Phase_eqb (G.phase g) playing); [|reflexivity].
  pose proof (loop_playing_lastTs physics (Math_min (ts - lastTs wd) (ofZ 50))
                (loop_animation physics (Math_min (ts - lastTs wd) (ofZ 50)) g)
                (with_lastTs ts wd)) as H.
  destruct (loop_playing _ _ _ _) as [g' wd']. exact H.
Qed.

Lemma finite_handle (physics : Physics) (e : Event) (wd : World) (g : G.T) :
  gRef wd = Some g ->
  finitePhysics physics = true ->
  finiteEvent e = true ->
  finiteChar g = true ->
  finiteScore wd g = true ->
  exists g',
    gRef (handle physics e wd) = Some g' /\
    finiteChar g' = true /\
    finiteScore (handle physics e wd) g' = true.
Proof.
  intros Hg Hphys He Hchar Hscore.
  unfold finitePhysics in Hphys. rewrite !andb_true_iff in Hphys.
  destruct Hphys as ((((Hfg & Hfj) & Hfi) & Hfm) & Hfr).
  unfold finiteChar in Hchar. rewrite !andb_true_iff in Hchar.
  destruct Hchar as ((Hfy & Hfvy) & Hfgy).
  unfold finiteScore in Hscore. rewrite !andb_true_iff in Hscore.
  destruct Hscore as (((Hfs & Hfv) & Hfl) & Hh). apply negb_true_iff in Hh.
  destruct e as [ts| |iw ih]; unfold handle.
  - unfold finiteScore. rewrite (loop_lastTs physics ts wd).
    rewrite (loop_gRef physics ts wd Hg).
    set (dt := Math_min (ts - lastTs wd) (ofZ 50)).
    assert (Hdt : isFinite dt = true) by (apply isFinite_dt; assumption).
    eexists. split; [reflexivity|].
    pose proof (loop_animation_char physics dt g) as Ha. cbv zeta in Ha.
    destruct Ha as (_ & Hay & Havy & _ & Hagy & Has & Hav & Hah & _).
    unfold finiteEvent in He. unfold finiteChar.
    destruct (G.phase g); unfold Phase_eqb; cbv iota;
      try (rewrite Hay, Havy, Hagy, Has, Hav, Hah, Hfy, Hfvy, Hfgy, Hfs, Hfv, He, Hh;
           split; reflexivity).
    pose proof (loop_playing_hiScore physics dt g (with_lastTs ts wd)) as Hcase.
    pose proof (loop_playing_score physics dt g (with_lastTs ts wd)) as Hsc.
    pose proof (loop_playing_motion physics dt (loop_animation physics dt g)
                  (with_lastTs ts wd)) as (Hmc & Hmg & _).
    pose proof (loop_physics_spec physics
                  (loop_advance physics dt (loop_animation physics dt g))) as Hp.
    pose proof (loop_advance_keeps physics dt (loop_animation physics dt g)) as Hk.
    cbv zeta in Hcase, Hsc, Hp, Hk. destruct Hsc as (Hs' & Hv').
    destruct Hk as (Hkc & Hkg & _).
    rewrite Hkc, Hkg, Hay, Havy, Hagy in Hp. destruct Hp as (Hp0 & Hp1 & Hp2).
    set (g' := fst (loop_playing physics dt (loop_animation physics dt g)
                      (with_lastTs ts wd))) in *.
    assert (Hs1 : isFinite (G.score g') = true).
    { rewrite Hs'. apply isFinite_add; [assumption|].
      apply isFinite_mul; [|reflexivity]. apply isFinite_mul; [|reflexivity].
      apply isFinite_mul; assumption. }
    assert (Hv1 : isFinite (G.speed g') = true).
    { rewrite Hv'. apply isFinite_Math_min; [assumption|].
      apply isFinite_add; [assumption|]. apply isFinite_mul; assumption. }
    assert (Hh1 : isNaN (G.hiScore g') = false).
    { destruct Hcase as [-> | ->]; [exact Hh|].
      apply Math_max_notNaN; [exact Hh|].
      apply isFinite_notNaN, isFinite_Math_floor, Hs1. }
    assert (Hfloor : isFinite (G.gndY g - CHAR_H) = true)
      by (apply isFinite_sub; [assumption|reflexivity]).
    assert (Hy1 : isFinite (Char.y (G.char g) +
                            (Char.vy (G.char g) + gravity physics)) = true)
      by (repeat apply isFinite_add; assumption).
    rewrite Hmc, Hmg, Hp0, Hs1, Hv1, Hh1, He, Hfgy.
    destruct (_ >=? _) eqn:E.
    + destruct (Hp1 eq_refl) as (-> & -> & _). rewrite Hfloor.
      split; reflexivity.
    + destruct (Hp2 eq_refl) as (-> & -> & _). rewrite Hy1.
      rewrite (@isFinite_add _ _ Hfvy Hfg). split; reflexivity.
  - unfold doAction. rewrite Hg. unfold finiteScore, finiteChar.
    destruct (G.phase g).
    + eexists. split; [reflexivity|]. simpl.
      rewrite Hfy, Hfvy, Hfgy, Hfs, Hfv, Hfl, Hh. split; reflexivity.
    + destruct (Char.grounded (G.char g)).
      * eexists. split; [reflexivity|]. simpl.
        rewrite Hfy, Hfj, Hfgy, Hfs, Hfv, Hfl, Hh. split; reflexivity.
      * exists g. split; [exact Hg|].
        rewrite Hfy, Hfvy, Hfgy, Hfs, Hfv, Hfl, Hh. split; reflexivity.
    + pose proof (makeState_fields physics wd (randomCalls wd)) as Hf.
      cbv zeta in Hf.
      destruct (makeState physics wd (randomCalls wd)) as [g1 n].
      unfold fst in Hf. destruct Hf as (_ & Hs1 & _ & Hv1 & Hg1 & Hc1 & _).
      eexists. split; [reflexivity|]. simpl.
      rewrite Hc1, Hg1, Hs1, Hv1, Hfi, Hfl, Hh. split; reflexivity.
  - unfold resize, finiteScore, finiteChar.
    change (gRef (with_canvas iw ih wd)) with (gRef wd). rewrite Hg.
    match goal with
    | |- context [genStars ?a ?b ?c] => destruct (genStars a b c) as [stars n1]
    end.
    eexists. split; [reflexivity|]. simpl.
    rewrite Hfy, Hfvy, Hfs, Hfv, Hfl, Hh. split; reflexivity.
Qed.

Lemma finite_mount (physics : Physics) (innerWidth innerHeight : Z) (store : Storage) :
  isFinite (initSpeed physics) = true ->
  isNaN (storedHiScore store) = false ->
  exists g,
    gRef (mount physics innerWidth innerHeight (initialWorld store)) = Some g /\
    finiteChar g = true /\
    finiteScore (mount physics innerWidth innerHeight (initialWorld store)) g = true.
Proof.
  intros Hfi Hh. unfold mount.
  set (wd := resize innerWidth innerHeight (initialWorld store)).
  pose proof (makeState_fields physics wd (randomCalls wd)) as Hf.
  cbv zeta in Hf.
  destruct (makeState physics wd (randomCalls wd)) as [g n].
  unfold fst in Hf. destruct Hf as (_ & Hs & Hhi & Hv & Hg & Hc & _).
  exists g. split; [reflexivity|].
  unfold finiteChar, finiteScore. simpl.
  rewrite Hc, Hg, Hs, Hv, Hhi, Hfi. simpl.
  change (getItem (localStorage wd) "da_hi") with (getItem store "da_hi").
  fold (storedHiScore store). rewrite Hh. split; reflexivity.
Qed.

End Lifetime.

(** ** Speed and the spawn countdown (C4, C7) *)

Section Speed.
Context {host : Host}.

Lemma speed_step_Q (i m r s v d : Q) :
  (0 <= r)%Q -> (0 <= d)%Q -> (0 <= v)%Q -> (v <= m)%Q -> (v <= i + s * r)%Q ->
  let s' := Fin s + Fin v * Fin d * SCORE_RATE * dec 1 10 in
  let v' := Math_min (Fin m) (Fin i + s' * Fin r) in
  Fin v <= v' /\ v' <= Fin m /\ isFinite s' = true /\ Fin s <= s' /\
  v' <= Fin i + s' * Fin r /\ ofZ 0 <= v'.
Proof.
  intros Hr Hd Hv Hvm Hvc. cbv zeta.
  assert (Hvd : (0 <= v * d)%Q) by (apply Qmult_le_0_compat; assumption).
  assert (Hp : (0 <= v * d * (9 # 1000) * (1 # 10))%Q) by nra.
  assert (Hpr : (0 <= v * d * (9 # 1000) * (1 # 10) * r)%Q)
    by (apply Qmult_le_0_compat; assumption).
  unfold SCORE_RATE, dec, ofZ, inject_Z.
  num_unfold.
  destruct (Qle_bool _ _) eqn:E; num_unfold; q_norm;
    repeat split; q_norm; lra.
Qed.

Lemma dt_nonneg (ts last : num) :
  isFinite ts = true -> isFinite last = true -> (last <=? ts) = true ->
  exists d, Math_min (ts - last) (ofZ 50) = Fin d /\ (0 <= d)%Q.
Proof.
  intros Ht Hl Hle.
  destruct ts as [a| | |], last as [b| | |]; try discriminate.
  unfold leb in Hle. apply Qle_bool_iff in Hle.
  unfold ofZ, inject_Z. num_unfold.
  destruct (Qle_bool _ _) eqn:E; eexists; (split; [reflexivity|]); q_norm; lra.
Qed.

(** The speed over one playing frame, under a physics object it can grow
    under, from a state on the speed curve. *)
Lemma playing_frame_speed (physics : Physics) (ts : num) (wd : World) (g : G.T) :
  gRef wd = Some g ->
  G.phase g = playing ->
  growingPhysics physics = true ->
  onSpeedCurve physics g = true ->
  forwardTime ts wd = true ->
  exists g',
    gRef (loop physics ts wd) = Some g' /\
    G.speed g <= G.speed g' /\
    G.speed g' <= maxSpeed physics /\
    G.speed g' =
      Math_min (maxSpeed physics) (initSpeed physics + G.score g' * speedRate physics) /\
    onSpeedCurve physics g' = true.
Proof.
  intros Hg Hph Hphys Hcurve Htime.
  rewrite (loop_gRef physics ts wd Hg), Hph. unfold Phase_eqb.
  set (dt := Math_min (ts - lastTs wd) (ofZ 50)).
  eexists. split; [reflexivity|].
  pose proof (loop_playing_score physics dt g (with_lastTs ts wd)) as Hsc.
  cbv zeta in Hsc. destruct Hsc as (Hs' & Hv').
  set (g' := fst (loop_playing physics dt (loop_animation physics dt g)
                    (with_lastTs ts wd))) in *.
  unfold growingPhysics in Hphys. rewrite !andb_true_iff in Hphys.
  destruct Hphys as (((((Hfi & Hfm) & Hfr) & Hr0) & Hi0) & Him).
  unfold onSpeedCurve in Hcurve. rewrite !andb_true_iff in Hcurve.
  destruct Hcurve as (((Hfs & Hv0) & Hvm) & Hvc).
  unfold forwardTime in Htime. rewrite !andb_true_iff in Htime.
  destruct Htime as ((Hft & Hfl) & Hle).
  destruct (dt_nonneg ts (lastTs wd) Hft Hfl Hle) as (d & Ed & Hd).
  fold dt in Ed. rewrite Ed in Hs'. unfold onSpeedCurve.
  destruct (initSpeed physics) as [i| | |]; try discriminate.
  destruct (maxSpeed physics) as [m| | |]; try discriminate.
  destruct (speedRate physics) as [r| | |]; try discriminate.
  destruct (G.score g) as [s| | |]; try discriminate.
  destruct (G.speed g) as [v| | |]; try discriminate.
  unfold ofZ, inject_Z in Hr0, Hv0. unfold leb in Hr0, Hv0, Hvm.
  assert (Hvc' : (v <= i + s * r)%Q).
  { revert Hvc. num_unfold. intro Hvc. q_norm. exact Hvc. }
  q_norm.
  destruct (@speed_step_Q i m r s v d Hr0 Hd Hv0 Hvm Hvc')
    as (H1 & H2 & H3 & H4 & H5 & H6).
  rewrite <- Hs' in H1, H2, H3, H4, H5, H6.
  rewrite <- Hv' in H1, H2, H5, H6.
  split; [exact H1|]. split; [exact H2|]. split; [exact Hv'|].
  unfold JS.le in H2, H5, H6.
  rewrite H3, H2, H5, H6. reflexivity.
Qed.

(** C4 (as the code has it). With a physics object held at values under
    which the speed can grow (finite, [speedRate >= 0],
    [0 <= initSpeed <= maxSpeed]) and a timestamp that does not go back, a
    frame of the playing phase from a state on the speed curve ends with a
    speed that is at least the speed before, at most [maxSpeed], and equal
    to [min(maxSpeed, initSpeed + score * speedRate)] for the new score; and
    the new state is on the speed curve again. *)
Theorem C4_speed_curve (physics : Physics) (ts : num) (wd : World) (g : G.T) :
  gRef wd = Some g ->
  G.phase g = playing ->
  growingPhysics physics = true ->
  onSpeedCurve physics g = true ->
  forwardTime ts wd = true ->
  exists g',
    gRef (loop physics ts wd) = Some g' /\
    G.speed g <= G.speed g' /\
    G.speed g' <= maxSpeed physics /\
    G.speed g' =
      Math_min (maxSpeed physics) (initSpeed physics + G.score g' * speedRate physics) /\
    onSpeedCurve physics g' = true.
Proof.
  intros Hg Hph Hphys Hcurve Htime.
  exact (@playing_frame_speed physics ts wd g Hg Hph Hphys Hcurve Htime).
Qed.

(** A freshly made state is on the speed curve of the physics object it was
    made with. *)
Lemma makeState_onSpeedCurve (physics : Physics) (wd : World) (n : nat) :
  growingPhysics physics = true ->
  onSpeedCurve physics (fst (makeState physics wd n)) = true.
Proof.
  intro Hphys.
  pose proof (makeState_fields physics wd n) as Hf. cbv zeta in Hf.
  destruct Hf as (_ & Hs & _ & Hv & _).
  unfold onSpeedCurve. rewrite Hs, Hv.
  unfold growingPhysics in Hphys. rewrite !andb_true_iff in Hphys.
  destruct Hphys as (((((Hfi & Hfm) & Hfr) & Hr0) & Hi0) & Him).
  rewrite Hi0, Him.
  destruct (initSpeed physics) as [i| | |]; try discriminate.
  destruct (speedRate physics) as [r| | |]; try discriminate.
  unfold ofZ, inject_Z. num_unfold. q_norm. simpl. q_norm. lra.
Qed.

Lemma speed_floor_Q (i m r s v d : Q) :
  (1 <= i)%Q -> (5 <= m)%Q -> (0 <= r)%Q -> (0 <= s)%Q -> (0 <= v)%Q -> (0 <= d)%Q ->
  let s' := Fin s + Fin v * Fin d * SCORE_RATE * dec 1 10 in
  let v' := Math_min (Fin m) (Fin i + s' * Fin r) in
  exists qs qv,
    s' = Fin qs /\ v' = Fin qv /\ (0 <= qs)%Q /\ (1 <= qv)%Q.
Proof.
  intros Hi Hm Hr Hs Hv Hd. cbv zeta.
  assert (Hvd : (0 <= v * d)%Q) by (apply Qmult_le_0_compat; assumption).
  assert (Hp : (0 <= s + v * d * (9 # 1000) * (1 # 10))%Q) by nra.
  assert (Hpr : (0 <= (s + v * d * (9 # 1000) * (1 # 10)) * r)%Q)
    by (apply Qmult_le_0_compat; assumption).
  unfold SCORE_RATE, dec. num_unfold.
  destruct (Qle_bool _ _) eqn:E; do 2 eexists;
    (split; [reflexivity|]); (split; [reflexivity|]); q_norm; split; lra.
Qed.

Lemma gap_positive_Q (lo hi r v : Q) :
  (0 < lo)%Q -> (0 < hi)%Q -> (0 <= r)%Q -> (r < 1)%Q -> (0 < v)%Q ->
  let gap := (Fin lo + Fin r * (Fin hi - Fin lo)) / Fin v * (ofZ 1000 / ofZ 60) in
  isFinite gap = true /\ ofZ 0 < gap.
Proof.
  intros Hlo Hhi Hr0 Hr1 Hv. cbv zeta.
  assert (Hpx : (0 < lo + r * (hi + - lo))%Q) by nra.
  assert (Hq : (0 < (lo + r * (hi + - lo)) / v)%Q).
  { apply Qlt_shift_div_l; [assumption|lra]. }
  assert (Ev : Qeq_bool v 0 = false).
  { destruct (Qeq_bool v 0) eqn:E; [|reflexivity]. q_norm. lra. }
  change (ofZ 1000 / ofZ 60) with (Fin (50 # 3)).
  unfold ofZ, inject_Z. num_unfold. rewrite Ev. num_unfold.
  split; [reflexivity|]. q_norm.
  set (x := ((lo + r * (hi + - lo)) / v)%Q) in *. lra.
Qed.

(** The countdown and the obstacle list a playing frame ends with.  Either
    the countdown has not run out and is only decremented, or one obstacle is
    appended and the countdown is redrawn from the gap range and the speed. *)
Lemma loop_playing_gap (physics : Physics) (dt : num) (g : G.T) (wd : World) :
  let g1 := loop_physics physics (loop_advance physics dt g) in
  let g' := fst (loop_playing physics dt g wd) in
  let gap := G.nextGap g1 - dt in
  ((gap <=? ofZ 0) = false /\ G.nextGap g' = gap /\
   (List.length (G.obs g') <= List.length (G.obs g1))%nat) \/
  ((gap <=? ofZ 0) = true /\
   G.nextGap g' =
     (minGap physics +
      drawNum (Math_random (S (randomCalls wd))) * (maxGap physics - minGap physics))
     / G.speed g1 * (ofZ 1000 / ofZ 60) /\
   (List.length (G.obs g') <= S (List.length (G.obs g1)))%nat).
Proof.
  cbv zeta. unfold loop_playing.
  generalize (loop_physics physics (loop_advance physics dt g)). intro g1.
  assert (Hrest : forall g2 n,
            let g' := fst (let '(g4, wd4) :=
                             loop_collision (G.obs (loop_scroll g2)) (loop_scroll g2)
                                            (with_randomCalls n wd) in
                           loop_display g4 wd4) in
            G.nextGap g' = G.nextGap g2 /\
            (List.length (G.obs g') <= List.length (G.obs g2))%nat).
  { intros g2 n. cbv zeta.
    pose proof (loop_scroll_motion g2) as (_ & _ & _ & Hn3).
    set (g3 := loop_scroll g2) in *.
    pose proof (loop_collision_motion (G.obs g3) g3 (with_randomCalls n wd))
      as (_ & Ho4 & Hn4).
    destruct (loop_collision (G.obs g3) g3 (with_randomCalls n wd)) as [g4 wd4].
    unfold fst in Ho4, Hn4.
    pose proof (loop_display_motion g4 wd4) as (_ & Ho5 & Hn5 & _).
    split; [congruence|].
    rewrite Ho5, Ho4. unfold g3, loop_scroll. simpl.
    eapply Nat.le_trans; [apply filter_length_le|].
    rewrite length_map. apply Nat.le_refl. }
  unfold loop_spawn, bind, random, ret.
  change (G.nextGap (G.with_nextGap (G.nextGap g1 - dt) g1))
    with (G.nextGap g1 - dt).
  destruct (G.nextGap g1 - dt <=? ofZ 0) eqn:E.
  - right. split; [reflexivity|].
    destruct (getCactusSize_drawn (Math_random (randomCalls wd))) as ([w h] & ->).
    cbv beta iota zeta.
    match goal with
    | |- context [loop_scroll ?g2] =>
        destruct (Hrest g2 (S (S (randomCalls wd)))) as (Hn & Ho)
    end.
    cbv beta iota zeta in Hn, Ho.
    cbn [G.nextGap G.with_nextGap G.with_obs G.speed G.obs G.w] in Hn, Ho |- *.
    rewrite last_length in Ho.
    split; [exact Hn|exact Ho].
  - left. split; [reflexivity|].
    cbv beta iota zeta.
    destruct (Hrest (G.with_nextGap (G.nextGap g1 - dt) g1) (randomCalls wd))
      as (Hn & Ho).
    cbv beta iota zeta in Hn, Ho.
    cbn [G.nextGap G.with_nextGap G.with_obs G.speed G.obs G.w] in Hn, Ho |- *.
    split; [exact Hn|exact Ho].
Qed.

Lemma inSpawnRange_spec (physics : Physics) :
  inSpawnRange physics = true ->
  (ofZ 1 <= initSpeed physics /\ initSpeed physics <= ofZ 20) /\
  (ofZ 5 <= maxSpeed physics /\ maxSpeed physics <= ofZ 50) /\
  (dec 1 1000 <= speedRate physics /\ speedRate physics <= dec 5 100) /\
  (ofZ 100 <= minGap physics /\ minGap physics <= ofZ 800) /\
  (ofZ 400 <= maxGap physics /\ maxGap physics <= ofZ 1600).
Proof.
  unfold inSpawnRange, SPAWN_SLIDERS, SLIDERS, JS.le. simpl skipn.
  simpl forallb. simpl slider_key. simpl slider_min. simpl slider_max.
  rewrite !andb_true_iff. tauto.
Qed.

(** Values within all the slider ranges are within those of the speed and
    gap sliders. *)
Lemma inSliderRange_inSpawnRange (physics : Physics) :
  inSliderRange physics = true -> inSpawnRange physics = true.
Proof.
  unfold inSliderRange, inSpawnRange, SPAWN_SLIDERS, SLIDERS. simpl skipn.
  simpl forallb. rewrite !andb_true_iff. tauto.
Qed.

(** C7 (as the code has it). The spawn block has no clamp of its own; the
    ranges of the settings sliders keep it away from the degenerate values.
    For every physics object whose speed and gap keys lie within their
    slider ranges (which allow [minGap > maxGap], but no speed below 1;
    gravity and jump force are not read here and are left free), a frame of
    the playing phase from a state with finite, non-negative score and speed
    and a finite countdown, at a timestamp that does not go back, ends with
    a speed of at least 1, so the division is by a non-zero number, with a
    countdown that is finite and positive, and with at most one obstacle
    more than before. *)
Theorem C7_spawn_countdown (physics : Physics) (ts : num) (wd : World) (g : G.T) :
  gRef wd = Some g ->
  G.phase g = playing ->
  inSpawnRange physics = true ->
  spawnReady g = true ->
  forwardTime ts wd = true ->
  exists g',
    gRef (loop physics ts wd) = Some g' /\
    ofZ 1 <= G.speed g' /\
    isFinite (G.nextGap g') = true /\
    ofZ 0 < G.nextGap g' /\
    (List.length (G.obs g') <= S (List.length (G.obs g)))%nat /\
    spawnReady g' = true.
Proof.
  intros Hg Hph Hrange Hready Htime.
  rewrite (loop_gRef physics ts wd Hg), Hph. unfold Phase_eqb.
  set (dt := Math_min (ts - lastTs wd) (ofZ 50)).
  eexists. split; [reflexivity|].
  pose proof (loop_playing_score physics dt g (with_lastTs ts wd)) as Hsc.
  pose proof (loop_playing_gap physics dt (loop_animation physics dt g)
                (with_lastTs ts wd)) as Hgap.
  cbv zeta in Hsc, Hgap. destruct Hsc as (Hs' & Hv').
  pose proof (loop_playing_motion physics dt (loop_animation physics dt g)
                (with_lastTs ts wd)) as (_ & _ & _ & Hv1 & _).
  set (g' := fst (loop_playing physics dt (loop_animation physics dt g)
                    (with_lastTs ts wd))) in *.
  set (g1 := loop_physics physics
               (loop_advance physics dt (loop_animation physics dt g))) in *.
  assert (Hn1 : G.nextGap g1 = G.nextGap g).
  { unfold g1.
    pose proof (loop_physics_keeps physics
                  (loop_advance physics dt (loop_animation physics dt g))) as Hk.
    pose proof (loop_advance_keeps physics dt (loop_animation physics dt g)) as Ha.
    pose proof (loop_animation_char physics dt g) as Hc.
    cbv zeta in Hk, Ha, Hc.
    destruct Hk as (_ & _ & _ & _ & _ & -> & _).
    destruct Ha as (_ & _ & _ & _ & _ & -> & _).
    destruct Hc as (_ & _ & _ & _ & _ & _ & _ & _ & _ & _ & -> & _). reflexivity. }
  assert (Ho1 : G.obs g1 = G.obs g).
  { unfold g1.
    pose proof (loop_physics_keeps physics
                  (loop_advance physics dt (loop_animation physics dt g))) as Hk.
    pose proof (loop_advance_keeps physics dt (loop_animation physics dt g)) as Ha.
    pose proof (loop_animation_char physics dt g) as Hc.
    cbv zeta in Hk, Ha, Hc.
    destruct Hk as (_ & _ & _ & _ & -> & _).
    destruct Ha as (_ & _ & _ & _ & -> & _).
    destruct Hc as (_ & _ & _ & _ & _ & _ & _ & _ & _ & -> & _). reflexivity. }
  rewrite Hn1, Ho1, <- Hv1 in Hgap. clear Hn1 Ho1 Hv1. clearbody g' g1.
  apply inSpawnRange_spec in Hrange.
  destruct Hrange as ((Hi1 & Hi2) & (Hm5 & Hm50) & (Hr1 & Hr2) &
                      (Hlo1 & Hlo2) & (Hhi1 & Hhi2)).
  unfold spawnReady in Hready. rewrite !andb_true_iff in Hready.
  destruct Hready as ((((Hfs & Hs0) & Hfv) & Hv0) & Hfn).
  unfold forwardTime in Htime. rewrite !andb_true_iff in Htime.
  destruct Htime as ((Hft & Hfl) & Hle).
  destruct (dt_nonneg ts (lastTs wd) Hft Hfl Hle) as (d & Ed & Hd).
  fold dt in Ed. rewrite Ed in *. clear Ed. clearbody dt.
  unfold spawnReady.
  destruct (initSpeed physics) as [i| | |]; try discriminate.
  destruct (maxSpeed physics) as [m| | |]; try discriminate.
  destruct (speedRate physics) as [r| | |]; try discriminate.
  destruct (minGap physics) as [lo| | |]; try discriminate.
  destruct (maxGap physics) as [hi| | |]; try discriminate.
  destruct (G.score g) as [s| | |]; try discriminate.
  destruct (G.speed g) as [v| | |]; try discriminate.
  destruct (G.nextGap g) as [k| | |]; try discriminate.
  unfold JS.le, ofZ, inject_Z, dec, leb in Hi1, Hm5, Hr1, Hlo1, Hhi1, Hs0, Hv0.
  q_norm.
  assert (Hr0 : (0 <= r)%Q) by lra.
  destruct (@speed_floor_Q i m r s v d Hi1 Hm5 Hr0 Hs0 Hv0 Hd)
    as (qs & qv & Eqs & Eqv & Hqs & Hqv).
  rewrite <- Hs' in Eqs. rewrite <- Hs', <- Hv' in Eqv.
  rewrite Eqs, Eqv in *.
  assert (Hspeed : ofZ 1 <= Fin qv).
  { unfold JS.le, ofZ, inject_Z, leb. q_norm. lra. }
  assert (Hgap' : isFinite (G.nextGap g') = true /\ ofZ 0 < G.nextGap g').
  { destruct Hgap as [(E & -> & _)|(_ & -> & _)].
    - revert E. unfold ofZ, inject_Z, JS.lt. num_unfold. intro E.
      split; [reflexivity|]. q_norm. lra.
    - destruct (Math_random (S (randomCalls (with_lastTs ts wd)))) as [rv Hrv].
      unfold drawNum. simpl draw_val.
      unfold inUnit in Hrv. apply andb_true_iff in Hrv. destruct Hrv as [Hr00 Hr01].
      q_norm.
      apply gap_positive_Q; lra. }
  destruct Hgap' as (Hgf & Hgp).
  split; [exact Hspeed|]. split; [exact Hgf|]. split; [exact Hgp|].
  split.
  - destruct Hgap as [(_ & _ & Hl)|(_ & _ & Hl)]; [|exact Hl].
    apply Nat.le_trans with (1 := Hl). apply Nat.le_succ_diag_r.
  - rewrite Hgf. unfold ofZ, inject_Z, leb, isFinite.
    rewrite !andb_true_iff. repeat split; try reflexivity; q_norm; lra.
Qed.

(** The speed curve over the life of the page, with the physics object held
    fixed: every event keeps the state on the curve. *)
Lemma onSpeedCurve_ext (physics : Physics) (g g' : G.T) :
  G.score g' = G.score g -> G.speed g' = G.speed g ->
  onSpeedCurve physics g' = onSpeedCurve physics g.
Proof. intros Hs Hv. unfold onSpeedCurve. rewrite Hs, Hv. reflexivity. Qed.

Lemma onSpeedCurve_handle (physics : Physics) (e : Event) (wd : World) (g : G.T) :
  gRef wd = Some g ->
  growingPhysics physics = true ->
  onSpeedCurve physics g = true ->
  forwardEvent e wd = true ->
  exists g',
    gRef (handle physics e wd) = Some g' /\ onSpeedCurve physics g' = true.
Proof.
  intros Hg Hphys Hcurve He.
  destruct e as [ts| |iw ih]; unfold handle.
  - destruct (G.phase g) eqn:Hph.
    + rewrite (loop_gRef physics ts wd Hg), Hph. unfold Phase_eqb.
      eexists. split; [reflexivity|]. rewrite <- Hcurve.
      pose proof (loop_animation_char physics (Math_min (ts - lastTs wd) (ofZ 50)) g)
        as Ha. cbv zeta in Ha.
      destruct Ha as (_ & _ & _ & _ & _ & Hs & Hv & _).
      apply onSpeedCurve_ext; assumption.
    + destruct (@playing_frame_speed physics ts wd g Hg Hph Hphys Hcurve He)
        as (g' & E & _ & _ & _ & Hc).
      exists g'. split; assumption.
    + rewrite (loop_gRef physics ts wd Hg), Hph. unfold Phase_eqb.
      eexists. split; [reflexivity|]. rewrite <- Hcurve.
      pose proof (loop_animation_char physics (Math_min (ts - lastTs wd) (ofZ 50)) g)
        as Ha. cbv zeta in Ha.
      destruct Ha as (_ & _ & _ & _ & _ & Hs & Hv & _).
      apply onSpeedCurve_ext; assumption.
  - unfold doAction. rewrite Hg.
    destruct (G.phase g).
    + eexists. split; [reflexivity|]. exact Hcurve.
    + destruct (Char.grounded (G.char g)).
      * eexists. split; [reflexivity|]. exact Hcurve.
      * exists g. split; assumption.
    + pose proof (makeState_onSpeedCurve physics wd (randomCalls wd) Hphys) as Hm.
      destruct (makeState physics wd (randomCalls wd)) as [g1 n].
      eexists. split; [reflexivity|]. exact Hm.
  - unfold resize.
    change (gRef (with_canvas iw ih wd)) with (gRef wd). rewrite Hg.
    match goal with
    | |- context [genStars ?a ?b ?c] => destruct (genStars a b c) as [stars n1]
    end.
    eexists. split; [reflexivity|]. exact Hcurve.
Qed.

End Speed.

(** * More of the component *)

Unset Implicit Arguments.

(** ** Reading back what was written: [String] and [parseInt] *)

Section Decimal.
Context {host : Host}.

Import DecimalPos.Unsigned.

Lemma digitPrefix_stops (rest : string) (acc : option Z) :
  stopsDigits rest -> Str.digitPrefix rest acc = acc.
Proof.
  destruct rest as [|c r]; simpl; [reflexivity|]. intros ->. reflexivity.
Qed.

Lemma digitPrefix_digit (c : ascii) (k : Z) (s : string) (acc : Z) :
  Str.digitValue c = Some k ->
  Str.digitPrefix (String c s) (Some acc) = Str.digitPrefix s (Some (10 * acc + k)%Z).
Proof. intro H. cbn [Str.digitPrefix]. rewrite H. reflexivity. Qed.

Lemma of_lu_rev_step (d digit : Decimal.uint) :
  Z.of_N (of_lu (Decimal.revapp d digit)) =
    (Z.of_N (of_lu (Decimal.rev d)) + Z.of_N (of_lu digit) * 10 ^ Z.of_N (usize d))%Z.
Proof.
  rewrite of_lu_revapp, N2Z.inj_add, N2Z.inj_mul, N2Z.inj_pow. reflexivity.
Qed.

Lemma digitPrefix_uint (d : Decimal.uint) (rest : string) (acc : Z) :
  stopsDigits rest ->
  Str.digitPrefix (NilEmpty.string_of_uint d ++ rest) (Some acc) =
    Some (acc * 10 ^ Z.of_N (usize d) + Z.of_N (of_lu (Decimal.rev d)))%Z.
Proof.
  intro Hrest. revert acc.
  induction d; intro acc;
    [ cbn [NilEmpty.string_of_uint append usize];
      rewrite (@digitPrefix_stops rest _ Hrest); f_equal;
      change (Z.of_N (of_lu (Decimal.rev Decimal.Nil))) with 0%Z;
      change (Z.of_N 0) with 0%Z; rewrite Z.pow_0_r; ring | .. ];
    cbn [NilEmpty.string_of_uint append usize];
    (erewrite digitPrefix_digit by reflexivity);
    rewrite IHd; f_equal;
    unfold Decimal.rev at 2; cbn [Decimal.revapp];
    rewrite of_lu_rev_step, N2Z.inj_succ;
    rewrite Z.pow_succ_r by apply N2Z.is_nonneg;
    match goal with
    | |- context [of_lu (?D Decimal.Nil)] =>
        let v := eval compute in (Z.of_N (of_lu (D Decimal.Nil))) in
        change (Z.of_N (of_lu (D Decimal.Nil))) with v
    end;
    match goal with
    | |- context [Z.of_nat (nat_of_ascii ?c)] =>
        let v := eval compute in (Z.of_nat (nat_of_ascii c)) in
        change (Z.of_nat (nat_of_ascii c)) with v
    end;
    ring.
Qed.

(** The digits of a numeral, read from the start of a string. *)
Lemma parse_uint (d : Decimal.uint) (rest : string) :
  d <> Decimal.Nil ->
  stopsDigits rest ->
  Str.parseInt (NilEmpty.string_of_uint d ++ rest) = ofZ (Z.of_N (Pos.of_uint d)) /\
  Str.parseInt (String "-" (NilEmpty.string_of_uint d ++ rest)) =
    ofZ (- Z.of_N (Pos.of_uint d)).
Proof.
  intros Hd Hrest.
  assert (Hval : forall acc,
             Str.digitPrefix (NilEmpty.string_of_uint d ++ rest) (Some acc) =
             Some (acc * 10 ^ Z.of_N (usize d) + Z.of_N (Pos.of_uint d))%Z).
  { intro acc. rewrite (@digitPrefix_uint d rest acc Hrest), of_uint_alt.
    reflexivity. }
  assert (Hnone : Str.digitPrefix (NilEmpty.string_of_uint d ++ rest) None =
                  Some (Z.of_N (Pos.of_uint d))).
  { rewrite <- (Z.add_0_l (Z.of_N (Pos.of_uint d))).
    rewrite <- (Z.mul_0_l (10 ^ Z.of_N (usize d))) at 1.
    rewrite <- Hval.
    destruct d; [congruence | ..]; reflexivity. }
  split.
  - unfold Str.parseInt.
    assert (Htrim : Str.trimStart (NilEmpty.string_of_uint d ++ rest) =
                    (NilEmpty.string_of_uint d ++ rest)%string)
      by (destruct d; [congruence | ..]; reflexivity).
    rewrite Htrim.
    assert (Hsign :
              match (NilEmpty.string_of_uint d ++ rest)%string with
              | String "-" r => ((-1)%Z, r)
              | String "+" r => (1%Z, r)
              | _ => (1%Z, (NilEmpty.string_of_uint d ++ rest)%string)
              end = (1%Z, (NilEmpty.string_of_uint d ++ rest)%string))
      by (destruct d; [congruence | ..]; reflexivity).
    rewrite Hsign, Hnone. rewrite Z.mul_1_l. reflexivity.
  - unfold Str.parseInt.
    change (Str.trimStart (String "-" (NilEmpty.string_of_uint d ++ rest)))
      with (String "-" (NilEmpty.string_of_uint d ++ rest)).
    cbv iota beta. rewrite Hnone. apply f_equal. ring.
Qed.

(** Decimal digits followed by something that is not a digit. *)
Lemma parseInt_decimal_then (z : Z) (rest : string) :
  stopsDigits rest ->
  Str.parseInt (Str.decimal z ++ rest) = ofZ z.
Proof.
  intro Hrest. unfold Str.decimal.
  destruct z as [|p|p]; cbn [Z.to_int NilZero.string_of_int].
  - change (NilZero.string_of_uint (Decimal.D0 Decimal.Nil))
      with (NilEmpty.string_of_uint (Decimal.D0 Decimal.Nil)).
    apply (@parse_uint (Decimal.D0 Decimal.Nil) rest); [discriminate|exact Hrest].
  - pose proof (to_uint_nonnil p) as Hn.
    replace (NilZero.string_of_uint (Pos.to_uint p))
      with (NilEmpty.string_of_uint (Pos.to_uint p))
      by (unfold NilZero.string_of_uint; destruct (Pos.to_uint p); congruence).
    destruct (@parse_uint (Pos.to_uint p) rest Hn Hrest) as (H & _).
    rewrite H, of_to. reflexivity.
  - pose proof (to_uint_nonnil p) as Hn.
    replace (NilZero.string_of_uint (Pos.to_uint p))
      with (NilEmpty.string_of_uint (Pos.to_uint p))
      by (unfold NilZero.string_of_uint; destruct (Pos.to_uint p); congruence).
    destruct (@parse_uint (Pos.to_uint p) rest Hn Hrest) as (_ & H).
    cbn [append]. rewrite H, of_to. reflexivity.
Qed.

(** The decimal text of an integer is not empty. *)
Lemma decimal_nonempty (z : Z) (rest : string) :
  exists c s, (Str.decimal z ++ rest)%string = String c s.
Proof.
  assert (H : exists c s, Str.decimal z = String c s).
  { unfold Str.decimal. destruct z as [|p|p]; cbn [Z.to_int NilZero.string_of_int].
    - do 2 eexists. reflexivity.
    - pose proof (DecimalPos.Unsigned.to_uint_nonnil p) as Hn.
      unfold NilZero.string_of_uint.
      destruct (Pos.to_uint p); try congruence; do 2 eexists; reflexivity.
    - do 2 eexists. reflexivity. }
  destruct H as (c & s & ->). do 2 eexists. reflexivity.
Qed.

Lemma Qred_inject_Z (z : Z) : Qred (inject_Z z) = inject_Z z.
Proof.
  unfold Qred, inject_Z.
  pose proof (Z.ggcd_gcd z 1) as Hg.
  pose proof (Z.ggcd_correct_divisors z 1) as Hd.
  destruct (Z.ggcd z 1) as (g, (a, b)). simpl in *.
  rewrite Z.gcd_1_r in Hg. subst g. destruct Hd as (Ha & Hb).
  assert (Ea : a = z) by lia. assert (Eb : b = 1%Z) by lia.
  rewrite Ea, Eb. reflexivity.
Qed.

Lemma Number_toString_integer (z : Z) :
  (Z.abs z < 10 ^ 21)%Z -> Number_toString (ofZ z) = Str.decimal z.
Proof.
  intro Hz. unfold Number_toString, ofZ.
  rewrite Qred_inject_Z.
  cbn [Qden Qnum inject_Z]. rewrite Pos.eqb_refl.
  apply Z.ltb_lt in Hz. rewrite Hz. reflexivity.
Qed.

(** The decimal text of an integer on its own. *)
Lemma parseInt_decimal_alone (z : Z) : Str.parseInt (Str.decimal z) = ofZ z.
Proof.
  assert (E : (Str.decimal z ++ "")%string = Str.decimal z)
    by (induction (Str.decimal z) as [|c s IH]; simpl; congruence).
  rewrite <- E. apply parseInt_decimal_then. exact I.
Qed.

(** X2. What the game writes as a high score it reads back: for every
    integer below [10^21] in magnitude, [parseInt(String(n), 10)] is [n]. *)
Theorem parseInt_Number_toString (z : Z) :
  (Z.abs z < 10 ^ 21)%Z ->
  Str.parseInt (Number_toString (ofZ z)) = ofZ z.
Proof.
  intro Hz. rewrite (Number_toString_integer z Hz).
  apply parseInt_decimal_alone.
Qed.

End Decimal.

(** ** The life cycle of a run *)

Section Lifecycle.
Context {host : Host}.

(** What a frame of the playing phase does outside the motion of the run:
    either nothing (no obstacle hit), or the game-over commit. *)
Lemma loop_playing_world (physics : Physics) (ts : num) (wd : World) (g : G.T) :
  gRef wd = Some g ->
  G.phase g = playing ->
  exists g',
    gRef (loop physics ts wd) = Some g' /\
    ((G.phase g' = playing /\ G.hiScore g' = G.hiScore g /\
      localStorage (loop physics ts wd) = localStorage wd /\
      uiPhase (loop physics ts wd) = uiPhase wd /\
      hiEl (loop physics ts wd) = hiEl wd) \/
     (G.phase g' = gameover /\
      G.hiScore g' = Math_max (G.hiScore g) (Math_floor (G.score g')) /\
      localStorage (loop physics ts wd) =
        setItem "da_hi" (Number_toString (G.hiScore g')) (localStorage wd) /\
      uiPhase (loop physics ts wd) = gameover /\
      hiEl (loop physics ts wd) = setText (hiText (G.hiScore g')) (hiEl wd))).
Proof.
  intros Hg Hph.
  unfold loop. change (gRef (with_lastTs ts wd)) with (gRef wd).
  rewrite Hg, Hph. unfold Phase_eqb.
  set (dt := Math_min (ts - lastTs wd) (ofZ 50)).
  assert (Hah : G.hiScore (loop_animation physics dt g) = G.hiScore g /\
                G.phase (loop_animation physics dt g) = G.phase g).
  { pose proof (loop_animation_char physics dt g) as Ha. cbv zeta in Ha.
    destruct Ha as (_ & _ & _ & _ & _ & _ & _ & Hh & Hp & _). split; assumption. }
  destruct Hah as (Hah & Hap).
  destruct (loop_playing_unfold physics dt (loop_animation physics dt g)
              (with_lastTs ts wd)) as (g3 & n & Hm & Hhi & Hp3 & E).
  rewrite E. clear E. rewrite Hah in Hhi. rewrite Hap, Hph in Hp3.
  generalize dependent (loop_animation physics dt g). intros g0 _ _ _.
  set (wd3 := with_randomCalls n (with_lastTs ts wd)).
  pose proof (loop_collision_cases (G.obs g3) g3 wd3) as Hc.
  destruct (loop_collision (G.obs g3) g3 wd3) as [g4 wd4].
  pose proof (loop_display_motion g4 wd4) as (Hm5 & _ & _ & Hph5 & Hhi5 & Hst5).
  assert (Hw5 : uiPhase (snd (loop_display g4 wd4)) = uiPhase wd4 /\
                hiEl (snd (loop_display g4 wd4)) = hiEl wd4)
    by (unfold loop_display; destruct (negb _); split; reflexivity).
  destruct Hw5 as (Hu5 & He5).
  destruct Hm5 as (_ & _ & Hs5 & _).
  destruct (loop_display g4 wd4) as [g5 wd5]. unfold fst, snd in *.
  exists g5. split; [reflexivity|].
  change (localStorage (with_gRef (Some g5) wd5)) with (localStorage wd5).
  change (uiPhase (with_gRef (Some g5) wd5)) with (uiPhase wd5).
  change (hiEl (with_gRef (Some g5) wd5)) with (hiEl wd5).
  rewrite Hph5, Hhi5, Hst5, Hu5, He5, Hs5.
  destruct Hc as [[_ E]|[_ E]].
  - injection E as E1 E2. subst g4 wd4. left.
    rewrite Hp3, Hhi. repeat split.
  - unfold gameOver in E. injection E as E1 E2. subst g4 wd4. right.
    cbn [G.phase G.with_phase G.with_hiScore G.hiScore G.score localStorage
         with_uiPhase with_hiEl with_localStorage uiPhase hiEl].
    rewrite Hhi. repeat split.
Qed.

(** A frame outside the playing phase. *)
Lemma loop_idle (physics : Physics) (ts : num) (wd : World) (g : G.T) :
  gRef wd = Some g ->
  G.phase g <> playing ->
  loop physics ts wd =
    with_gRef (Some (loop_animation physics (Math_min (ts - lastTs wd) (ofZ 50)) g))
              (with_lastTs ts wd).
Proof.
  intros Hg Hph. unfold loop.
  change (gRef (with_lastTs ts wd)) with (gRef wd). rewrite Hg.
  destruct (G.phase g); try reflexivity. congruence.
Qed.

(** X3. The phase machine: a frame can only turn [playing] into
    [gameover], an action press turns [intro] and [gameover] into [playing]
    and leaves [playing], a resize changes no phase; no event leads back to
    [intro]. *)
Theorem phase_machine (physics : Physics) (e : Event) (wd : World) (g : G.T) :
  gRef wd = Some g ->
  exists g',
    gRef (handle physics e wd) = Some g' /\
    In (G.phase g') (nextPhases e (G.phase g)) /\
    (G.phase g' = intro -> G.phase g = intro).
Proof.
  intro Hg.
  assert (Hkey : exists g', gRef (handle physics e wd) = Some g' /\
                            In (G.phase g') (nextPhases e (G.phase g))).
  { destruct e as [ts| |iw ih]; unfold handle.
    - destruct (G.phase g) eqn:Hph.
      + rewrite (loop_idle physics ts wd g Hg) by congruence.
        eexists. split; [reflexivity|].
        pose proof (loop_animation_char physics (Math_min (ts - lastTs wd) (ofZ 50)) g)
          as Ha. cbv zeta in Ha.
        destruct Ha as (_ & _ & _ & _ & _ & _ & _ & _ & Hp & _).
        rewrite Hp, Hph. left. reflexivity.
      + destruct (loop_playing_world physics ts wd g Hg Hph)
          as (g' & E & [(Hp & _)|(Hp & _)]);
          exists g'; (split; [exact E|]); rewrite Hp; simpl; tauto.
      + rewrite (loop_idle physics ts wd g Hg) by congruence.
        eexists. split; [reflexivity|].
        pose proof (loop_animation_char physics (Math_min (ts - lastTs wd) (ofZ 50)) g)
          as Ha. cbv zeta in Ha.
        destruct Ha as (_ & _ & _ & _ & _ & _ & _ & _ & Hp & _).
        rewrite Hp, Hph. left. reflexivity.
    - unfold doAction. rewrite Hg.
      destruct (G.phase g) eqn:Hph.
      + eexists. split; [reflexivity|]. left. reflexivity.
      + destruct (Char.grounded (G.char g)).
        * eexists. split; [reflexivity|]. left. exact (eq_sym Hph).
        * exists g. split; [exact Hg|]. left. exact (eq_sym Hph).
      + destruct (makeState physics wd (randomCalls wd)) as [g1 n].
        eexists. split; [reflexivity|]. left. reflexivity.
    - unfold resize.
      change (gRef (with_canvas iw ih wd)) with (gRef wd). rewrite Hg.
      match goal with
      | |- context [genStars ?a ?b ?c] => destruct (genStars a b c) as [stars n1]
      end.
      eexists. split; [reflexivity|]. left. reflexivity. }
  destruct Hkey as (g' & E & Hin). exists g'. split; [exact E|]. split; [exact Hin|].
  intro Hi. rewrite Hi in Hin.
  destruct e, (G.phase g); simpl in Hin;
    repeat (destruct Hin as [Hin|Hin]; try discriminate); try reflexivity;
    try contradiction.
Qed.

(** X4. The phase shown by the overlays follows the phase of the state:
    if the two agree before an event they agree after it, and they agree
    after the mount. *)
Theorem uiPhase_mirrors_phase (physics : Physics) (e : Event) (wd : World) (g : G.T) :
  gRef wd = Some g ->
  uiPhase wd = G.phase g ->
  exists g',
    gRef (handle physics e wd) = Some g' /\
    uiPhase (handle physics e wd) = G.phase g'.
Proof.
  intros Hg Hui.
  destruct e as [ts| |iw ih]; unfold handle.
  - destruct (G.phase g) eqn:Hph.
    + rewrite (loop_idle physics ts wd g Hg) by congruence.
      eexists. split; [reflexivity|].
      pose proof (loop_animation_char physics (Math_min (ts - lastTs wd) (ofZ 50)) g)
        as Ha. cbv zeta in Ha.
      destruct Ha as (_ & _ & _ & _ & _ & _ & _ & _ & Hp & _).
      rewrite Hp, Hph. exact Hui.
    + destruct (loop_playing_world physics ts wd g Hg Hph)
        as (g' & E & [(Hp & _ & _ & Hu & _)|(Hp & _ & _ & Hu & _)]);
        exists g'; (split; [exact E|]); rewrite Hp, Hu; congruence.
    + rewrite (loop_idle physics ts wd g Hg) by congruence.
      eexists. split; [reflexivity|].
      pose proof (loop_animation_char physics (Math_min (ts - lastTs wd) (ofZ 50)) g)
        as Ha. cbv zeta in Ha.
      destruct Ha as (_ & _ & _ & _ & _ & _ & _ & _ & Hp & _).
      rewrite Hp, Hph. exact Hui.
  - unfold doAction. rewrite Hg.
    destruct (G.phase g) eqn:Hph.
    + eexists. split; reflexivity.
    + destruct (Char.grounded (G.char g)).
      * eexists. split; [reflexivity|]. cbn. congruence.
      * exists g. split; [exact Hg|]. congruence.
    + destruct (makeState physics wd (randomCalls wd)) as [g1 n].
      eexists. split; reflexivity.
  - unfold resize.
    change (gRef (with_canvas iw ih wd)) with (gRef wd). rewrite Hg.
    match goal with
    | |- context [genStars ?a ?b ?c] => destruct (genStars a b c) as [stars n1]
    end.
    eexists. split; [reflexivity|]. exact Hui.
Qed.

Lemma mount_state (physics : Physics) (iw ih : Z) (store : Storage) :
  exists g,
    gRef (mount physics iw ih (initialWorld store)) = Some g /\
    G.phase g = intro /\
    uiPhase (mount physics iw ih (initialWorld store)) = intro /\
    G.hiScore g = storedHiScore store /\
    hiEl (mount physics iw ih (initialWorld store)) = Some (hiText (G.hiScore g)) /\
    localStorage (mount physics iw ih (initialWorld store)) = store.
Proof.
  unfold mount.
  set (wd := resize iw ih (initialWorld store)).
  pose proof (makeState_fields physics wd (randomCalls wd)) as Hf.
  cbv zeta in Hf.
  destruct (makeState physics wd (randomCalls wd)) as [g n].
  unfold fst in Hf. destruct Hf as (Hp & _ & Hh & _).
  exists g. split; [reflexivity|]. split; [exact Hp|].
  split; [reflexivity|]. split; [exact Hh|]. split; reflexivity.
Qed.

(** X1. What [makeState] reads from the store.  When the entry under
    ['da_hi'] is the decimal text of an integer of at most [2^53] in
    magnitude (every such integer is a Number, exactly), followed by any
    text that does not start with a digit, the state the mount effect makes
    has that integer as its high score. *)
Theorem hiScore_from_stored_decimal
  (physics : Physics) (iw ih : Z) (store : Storage) (z : Z) (rest : string) :
  (Z.abs z <= 2 ^ 53)%Z ->
  stopsDigits rest ->
  exists g,
    gRef (mount physics iw ih
            (initialWorld (setItem "da_hi" (Str.decimal z ++ rest) store))) = Some g /\
    G.hiScore g = ofZ z.
Proof.
  intros _ Hrest.
  destruct (mount_state physics iw ih (setItem "da_hi" (Str.decimal z ++ rest) store))
    as (g & Eg & _ & _ & Hh & _).
  exists g. split; [exact Eg|]. rewrite Hh.
  unfold storedHiScore, getItem, setItem. rewrite String.eqb_refl.
  destruct (decimal_nonempty z rest) as (c & s & Es). rewrite Es.
  cbn [Str.orElse]. rewrite <- Es.
  exact (parseInt_decimal_then z rest Hrest).
Qed.

(** X5. The high-score element of the HUD always shows the high score of
    the state: it does after the mount, and every event keeps it so. *)
Theorem hiEl_shows_hiScore (physics : Physics) (e : Event) (wd : World) (g : G.T) :
  gRef wd = Some g ->
  hiEl wd = Some (hiText (G.hiScore g)) ->
  exists g',
    gRef (handle physics e wd) = Some g' /\
    hiEl (handle physics e wd) = Some (hiText (G.hiScore g')).
Proof.
  intros Hg Hel.
  destruct e as [ts| |iw ih]; unfold handle.
  - destruct (G.phase g) eqn:Hph.
    + rewrite (loop_idle physics ts wd g Hg) by congruence.
      eexists. split; [reflexivity|].
      pose proof (loop_animation_char physics (Math_min (ts - lastTs wd) (ofZ 50)) g)
        as Ha. cbv zeta in Ha.
      destruct Ha as (_ & _ & _ & _ & _ & _ & _ & Hh & _).
      rewrite Hh. exact Hel.
    + destruct (loop_playing_world physics ts wd g Hg Hph)
        as (g' & E & [(_ & Hh & _ & _ & He)|(_ & _ & _ & _ & He)]);
        exists g'; (split; [exact E|]); rewrite He.
      * rewrite Hh. exact Hel.
      * rewrite Hel. reflexivity.
    + rewrite (loop_idle physics ts wd g Hg) by congruence.
      eexists. split; [reflexivity|].
      pose proof (loop_animation_char physics (Math_min (ts - lastTs wd) (ofZ 50)) g)
        as Ha. cbv zeta in Ha.
      destruct Ha as (_ & _ & _ & _ & _ & _ & _ & Hh & _).
      rewrite Hh. exact Hel.
  - unfold doAction. rewrite Hg.
    destruct (G.phase g) eqn:Hph.
    + eexists. split; [reflexivity|]. exact Hel.
    + destruct (Char.grounded (G.char g)).
      * eexists. split; [reflexivity|]. exact Hel.
      * exists g. split; assumption.
    + destruct (makeState physics wd (randomCalls wd)) as [g1 n].
      eexists. split; [reflexivity|].
      cbn [hiEl with_uiPhase with_hiEl with_scoreEl with_randomCalls with_gRef
           G.hiScore G.with_phase G.with_hiScore].
      rewrite Hel. reflexivity.
  - unfold resize.
    change (gRef (with_canvas iw ih wd)) with (gRef wd). rewrite Hg.
    match goal with
    | |- context [genStars ?a ?b ?c] => destruct (genStars a b c) as [stars n1]
    end.
    eexists. split; [reflexivity|]. exact Hel.
Qed.

(** X6. Outside the playing phase a frame is cosmetic: it records the
    timestamp and ticks the animation of the character, and changes nothing
    else of the world; in the game-over phase the animation frame is held
    too, only its timer moves. *)
Theorem idle_frame_is_cosmetic (physics : Physics) (ts : num) (wd : World) (g : G.T) :
  gRef wd = Some g ->
  G.phase g <> playing ->
  exists frame frameTick,
    loop physics ts wd =
      with_gRef
        (Some (G.with_char
                 (Char.with_frameTick frameTick (Char.with_frame frame (G.char g))) g))
        (with_lastTs ts wd) /\
    (G.phase g = gameover -> frame = Char.frame (G.char g)).
Proof.
  intros Hg Hph. rewrite (loop_idle physics ts wd g Hg Hph).
  unfold loop_animation.
  destruct (G.char g) as [x y vy gr fr ft bo] eqn:Ech.
  cbn [Char.frameTick Char.with_frameTick Char.frame Char.with_frame
       Char.x Char.y Char.vy Char.grounded Char.bounce].
  destruct (_ >? _).
  - destruct (G.phase g) eqn:Ep; [|congruence|];
      cbn [Phase_eqb negb];
      cbn [Char.frameTick Char.with_frameTick Char.frame Char.with_frame
           Char.x Char.y Char.vy Char.grounded Char.bounce];
      do 2 eexists; (split; [reflexivity|]); intro; try discriminate; reflexivity.
  - exists fr. eexists. split; [reflexivity|]. reflexivity.
Qed.

Lemma safeInteger_ofZ (a : num) :
  safeInteger a = true -> exists z, a = ofZ z /\ (Z.abs z < 10 ^ 21)%Z.
Proof.
  destruct a as [[n d]| | |]; try discriminate. cbn [safeInteger Qden Qnum].
  intro H. apply andb_true_iff in H. destruct H as (Hd & Hn).
  apply Pos.eqb_eq in Hd. apply Z.ltb_lt in Hn. subst d.
  exists n. split; [reflexivity|exact Hn].
Qed.

(** X7. The high score survives a reload: when a frame ends a run with a
    high score that is an integer below [10^21], the page mounted afresh on
    the store that frame leaves starts with that high score (and shows it). *)
Theorem hiScore_survives_reload
  (physics physics' : Physics) (ts : num) (wd : World) (g g' : G.T) (iw ih : Z) :
  gRef wd = Some g ->
  G.phase g = playing ->
  gRef (loop physics ts wd) = Some g' ->
  G.phase g' = gameover ->
  safeInteger (G.hiScore g') = true ->
  exists g'',
    gRef (mount physics' iw ih (initialWorld (localStorage (loop physics ts wd)))) =
      Some g'' /\
    G.hiScore g'' = G.hiScore g'.
Proof.
  intros Hg Hph Hg' Hover Hint.
  destruct (loop_playing_world physics ts wd g Hg Hph) as (g1 & E & Hcase).
  rewrite Hg' in E. injection E as <-.
  destruct Hcase as [(Hp & _)|(_ & _ & Hst & _)]; [congruence|].
  destruct (mount_state physics' iw ih (localStorage (loop physics ts wd)))
    as (g'' & E'' & _ & _ & Hh & _).
  exists g''. split; [exact E''|]. rewrite Hh, Hst.
  unfold storedHiScore, getItem, setItem. rewrite String.eqb_refl.
  destruct (safeInteger_ofZ _ Hint) as (z & Ez & Hz). rewrite Ez.
  rewrite (Number_toString_integer z Hz).
  assert (Hne : exists c s, Str.decimal z = String c s).
  { unfold Str.decimal. destruct z as [|p|p]; cbn [Z.to_int NilZero.string_of_int].
    - do 2 eexists. reflexivity.
    - pose proof (DecimalPos.Unsigned.to_uint_nonnil p) as Hn.
      unfold NilZero.string_of_uint.
      destruct (Pos.to_uint p); try congruence; do 2 eexists; reflexivity.
    - do 2 eexists. reflexivity. }
  destruct Hne as (c & s & Es). rewrite Es. cbn [Str.orElse]. rewrite <- Es.
  apply parseInt_decimal_alone.
Qed.

End Lifecycle.

(** ** Obstacles, scrolling and standing *)

Section Motion.
Context {host : Host}.

(** The obstacle list a playing frame ends with: the obstacles it started
    with and at most one new one, moved left by the speed of the frame, the
    ones that left the stage dropped. *)
Lemma loop_playing_obs (physics : Physics) (dt : num) (g : G.T) (wd : World) :
  exists spawned : list Obs.T,
    (spawned = [] \/
     exists type w h,
       spawned = [Obs.mk (G.w (loop_physics physics (loop_advance physics dt g)) + ofZ 60)
                         type w h] /\
       getCactusSize type = Some (w, h)) /\
    G.obs (fst (loop_playing physics dt g wd)) =
      filter onStage
        (map (fun o => Obs.with_x
                         (Obs.x o - G.speed (loop_physics physics (loop_advance physics dt g))) o)
             (G.obs (loop_physics physics (loop_advance physics dt g)) ++ spawned)).
Proof.
  unfold loop_playing.
  generalize (loop_physics physics (loop_advance physics dt g)). intro g1.
  assert (Hrest : forall g2 n,
            G.obs (fst (let '(g4, wd4) :=
                          loop_collision (G.obs (loop_scroll g2)) (loop_scroll g2)
                                         (with_randomCalls n wd) in
                        loop_display g4 wd4)) =
            filter onStage
              (map (fun o => Obs.with_x (Obs.x o - G.speed g2) o) (G.obs g2))).
  { intros g2 n.
    pose proof (loop_collision_motion (G.obs (loop_scroll g2)) (loop_scroll g2)
                  (with_randomCalls n wd)) as (_ & Ho4 & _).
    destruct (loop_collision (G.obs (loop_scroll g2)) (loop_scroll g2)
                (with_randomCalls n wd)) as [g4 wd4].
    unfold fst in Ho4.
    pose proof (loop_display_motion g4 wd4) as (_ & Ho5 & _).
    rewrite Ho5, Ho4. reflexivity. }
  unfold loop_spawn, bind, random, ret.
  change (G.nextGap (G.with_nextGap (G.nextGap g1 - dt) g1))
    with (G.nextGap g1 - dt).
  destruct (G.nextGap g1 - dt <=? ofZ 0).
  - destruct (getCactusSize_drawn (Math_random (randomCalls wd))) as ([w h] & Hsz).
    rewrite Hsz. cbv beta iota zeta.
    eexists. split; [right; do 3 eexists; split; [reflexivity|exact Hsz]|].
    rewrite Hrest. reflexivity.
  - exists []. split; [left; reflexivity|].
    cbv beta iota zeta. rewrite Hrest, app_nil_r. reflexivity.
Qed.

(** The fields of the state that reaches the spawn block, from the state at
    the start of the frame. *)
Lemma advanced_fields (physics : Physics) (dt : num) (g : G.T) :
  let g1 := loop_physics physics (loop_advance physics dt (loop_animation physics dt g)) in
  G.obs g1 = G.obs g /\ G.w g1 = G.w g /\
  G.t g1 = G.t g + dt /\
  G.gndOff g1 = (G.gndOff g + G.speed g1) %% ofZ 55 /\
  G.farOff g1 = G.farOff g + G.speed g1 * dec 12 100 /\
  G.nearOff g1 = G.nearOff g + G.speed g1 * dec 38 100.
Proof.
  cbv zeta.
  assert (Ha : G.obs (loop_animation physics dt g) = G.obs g /\
               G.w (loop_animation physics dt g) = G.w g /\
               G.t (loop_animation physics dt g) = G.t g /\
               G.gndOff (loop_animation physics dt g) = G.gndOff g /\
               G.farOff (loop_animation physics dt g) = G.farOff g /\
               G.nearOff (loop_animation physics dt g) = G.nearOff g)
    by (unfold loop_animation; repeat split).
  destruct Ha as (Eo & Ew & Et & Eg & Ef & En).
  rewrite <- Eo, <- Ew, <- Et, <- Eg, <- Ef, <- En.
  generalize (loop_animation physics dt g). intro g0.
  assert (Hp : forall g1,
             G.obs (loop_physics physics g1) = G.obs g1 /\
             G.w (loop_physics physics g1) = G.w g1 /\
             G.t (loop_physics physics g1) = G.t g1 /\
             G.gndOff (loop_physics physics g1) = G.gndOff g1 /\
             G.farOff (loop_physics physics g1) = G.farOff g1 /\
             G.nearOff (loop_physics physics g1) = G.nearOff g1 /\
             G.speed (loop_physics physics g1) = G.speed g1)
    by (intro g1; unfold loop_physics; repeat split).
  destruct (Hp (loop_advance physics dt g0)) as (-> & -> & -> & -> & -> & -> & ->).
  unfold loop_advance. repeat split.
Qed.

Lemma catalogue_size (type w h : num) :
  getCactusSize type = Some (w, h) -> In (w, h) catalogueSizes.
Proof.
  unfold getCactusSize, index.
  destruct type as [q| | |]; try discriminate.
  destruct (_ && _)%bool; [|discriminate].
  destruct (Z.to_nat (Qfloor q)) as [|[|[|k]]]; cbn [nth_error CACTUS_DEFS];
    try (destruct k; discriminate);
    intro H; injection H as <- <-; vm_compute; tauto.
Qed.

(** The obstacle list after a playing frame. *)
Lemma playing_frame_obstacles (physics : Physics) (ts : num) (wd : World) (g : G.T) :
  gRef wd = Some g ->
  G.phase g = playing ->
  exists g',
    gRef (loop physics ts wd) = Some g' /\
    (List.length (G.obs g') <= S (List.length (G.obs g)))%nat /\
    forall o', In o' (G.obs g') ->
      onStage o' = true /\
      ((exists o, In o (G.obs g) /\ o' = Obs.with_x (Obs.x o - G.speed g') o) \/
       (Obs.x o' = G.w g + ofZ 60 - G.speed g' /\ fromCatalogue o' /\
        In (Obs.w o', Obs.h o') catalogueSizes)).
Proof.
  intros Hg Hph.
  rewrite (loop_gRef physics ts wd Hg), Hph. unfold Phase_eqb.
  set (dt := Math_min (ts - lastTs wd) (ofZ 50)).
  eexists. split; [reflexivity|].
  destruct (loop_playing_obs physics dt (loop_animation physics dt g)
              (with_lastTs ts wd)) as (spawned & Hsp & Hobs).
  pose proof (loop_playing_motion physics dt (loop_animation physics dt g)
                (with_lastTs ts wd)) as (_ & _ & _ & Hv & _).
  pose proof (advanced_fields physics dt g) as Hf. cbv zeta in Hf.
  destruct Hf as (Ho1 & Hw1 & _).
  rewrite <- Hv, Ho1 in Hobs. rewrite Hw1 in Hsp. clear Hv Ho1 Hw1.
  set (g' := fst (loop_playing physics dt (loop_animation physics dt g)
                    (with_lastTs ts wd))) in *.
  clearbody g'. rewrite Hobs. split.
  - eapply Nat.le_trans; [apply filter_length_le|].
    rewrite length_map, length_app.
    destruct Hsp as [->|(t & w & h & -> & _)]; simpl; lia.
  - intros o' Hin. apply filter_In in Hin. destruct Hin as (Hin & Hon).
    split; [exact Hon|].
    apply in_map_iff in Hin. destruct Hin as (o & <- & Hin).
    apply in_app_or in Hin. destruct Hin as [Hin|Hin].
    + left. exists o. split; [exact Hin|reflexivity].
    + right. destruct Hsp as [->|(t & w & h & -> & Hsz)]; [contradiction|].
      destruct Hin as [<-|[]].
      split; [reflexivity|]. split; [exact Hsz|].
      exact (catalogue_size t w h Hsz).
Qed.

(** X8. The obstacle pipeline over a playing frame: at most one obstacle
    is added; every obstacle left in the list is still on stage (its right
    edge right of [-60]); and each of them is an obstacle of the old list
    moved left by the speed of the frame, nothing else about it changed, or
    the one new obstacle, which entered 60 px right of the canvas with a
    size of the catalogue. *)
Theorem obstacles_after_frame (physics : Physics) (ts : num) (wd : World) (g : G.T) :
  gRef wd = Some g ->
  G.phase g = playing ->
  exists g',
    gRef (loop physics ts wd) = Some g' /\
    (List.length (G.obs g') <= S (List.length (G.obs g)))%nat /\
    forall o', In o' (G.obs g') ->
      onStage o' = true /\
      ((exists o, In o (G.obs g) /\ o' = Obs.with_x (Obs.x o - G.speed g') o) \/
       (Obs.x o' = G.w g + ofZ 60 - G.speed g' /\ fromCatalogue o' /\
        In (Obs.w o', Obs.h o') catalogueSizes)).
Proof.
  exact (playing_frame_obstacles physics ts wd g).
Qed.

(** X9. Every obstacle of the list has the size of its type in the
    catalogue, one of 49 x 77, 49 x 84 and 56 x 63: a fresh state has no
    obstacle, and every event keeps the list so. *)
Theorem obstacles_from_catalogue (physics : Physics) (e : Event) (wd : World) (g : G.T) :
  gRef wd = Some g ->
  Forall fromCatalogue (G.obs g) ->
  exists g',
    gRef (handle physics e wd) = Some g' /\
    Forall (fun o => fromCatalogue o /\ In (Obs.w o, Obs.h o) catalogueSizes)
           (G.obs g').
Proof.
  intros Hg Hall.
  assert (Hold : Forall (fun o => fromCatalogue o /\ In (Obs.w o, Obs.h o) catalogueSizes)
                        (G.obs g)).
  { apply Forall_forall. intros o Hin. rewrite Forall_forall in Hall.
    split; [exact (Hall o Hin)|].
    exact (catalogue_size _ _ _ (Hall o Hin)). }
  destruct e as [ts| |iw ih]; unfold handle.
  - destruct (G.phase g) eqn:Hph.
    + rewrite (loop_idle physics ts wd g Hg) by congruence.
      eexists. split; [reflexivity|].
      pose proof (loop_animation_char physics (Math_min (ts - lastTs wd) (ofZ 50)) g)
        as Ha. cbv zeta in Ha.
      destruct Ha as (_ & _ & _ & _ & _ & _ & _ & _ & _ & Ho & _).
      cbn [gRef with_gRef]. rewrite Ho. exact Hold.
    + destruct (playing_frame_obstacles physics ts wd g Hg Hph) as (g' & E & _ & Hobs).
      exists g'. split; [exact E|].
      apply Forall_forall. intros o' Hin.
      destruct (Hobs o' Hin) as (_ & [(o & Hino & ->)|(_ & Hc & Hs)]).
      * rewrite Forall_forall in Hold. exact (Hold o Hino).
      * split; assumption.
    + rewrite (loop_idle physics ts wd g Hg) by congruence.
      eexists. split; [reflexivity|].
      pose proof (loop_animation_char physics (Math_min (ts - lastTs wd) (ofZ 50)) g)
        as Ha. cbv zeta in Ha.
      destruct Ha as (_ & _ & _ & _ & _ & _ & _ & _ & _ & Ho & _).
      cbn [gRef with_gRef]. rewrite Ho. exact Hold.
  - unfold doAction. rewrite Hg.
    destruct (G.phase g) eqn:Hph.
    + eexists. split; [reflexivity|]. exact Hold.
    + destruct (Char.grounded (G.char g)).
      * eexists. split; [reflexivity|]. exact Hold.
      * exists g. split; assumption.
    + pose proof (makeState_fields physics wd (randomCalls wd)) as Hf.
      cbv zeta in Hf.
      destruct (makeState physics wd (randomCalls wd)) as [g1 n].
      unfold fst in Hf. destruct Hf as (_ & _ & _ & _ & _ & _ & Ho & _).
      eexists. split; [reflexivity|].
      cbn [G.obs G.with_phase G.with_hiScore]. rewrite Ho. constructor.
  - unfold resize.
    change (gRef (with_canvas iw ih wd)) with (gRef wd). rewrite Hg.
    match goal with
    | |- context [genStars ?a ?b ?c] => destruct (genStars a b c) as [stars n1]
    end.
    eexists. split; [reflexivity|]. exact Hold.
Qed.

(** The remainder of a non-negative number by a positive one lies between
    zero and the divisor. *)
Lemma rem_range (a b : Q) :
  (0 <= a)%Q -> (0 < b)%Q ->
  exists r, Fin a %% Fin b = Fin r /\ (0 <= r)%Q /\ (r < b)%Q.
Proof.
  intros Ha Hb. unfold rem.
  assert (Ev : Qeq_bool b 0 = false).
  { destruct (Qeq_bool b 0) eqn:E; [|reflexivity]. q_norm. lra. }
  rewrite Ev. eexists. split; [reflexivity|].
  assert (Hq : (0 <= a / b)%Q) by (apply Qle_shift_div_l; lra).
  assert (Ht : Qtrunc (a / b) = Qfloor (a / b)).
  { unfold Qtrunc. destruct (a / b)%Q as [n d] eqn:E. cbn [Qnum Qden Qfloor].
    apply Z.quot_div_nonneg; [|reflexivity].
    unfold Qle in Hq. cbn in Hq. lia. }
  rewrite Ht.
  pose proof (Qfloor_le (a / b)) as H1.
  pose proof (Qlt_floor (a / b)) as H2.
  rewrite inject_Z_plus in H2. change (inject_Z 1) with 1%Q in H2.
  assert (Hab : (a == (a / b) * b)%Q) by (field; lra).
  set (f := inject_Z (Qfloor (a / b))) in *.
  set (q := (a / b)%Q) in *.
  q_norm. split; nra.
Qed.

(** The three scroll offsets after a playing frame, from the offsets before
    it and the speed of the frame. *)
Lemma playing_frame_offsets (physics : Physics) (ts : num) (wd : World) (g : G.T) :
  gRef wd = Some g ->
  G.phase g = playing ->
  exists g',
    gRef (loop physics ts wd) = Some g' /\
    G.t g' = G.t g + Math_min (ts - lastTs wd) (ofZ 50) /\
    G.score g' =
      G.score g + G.speed g * Math_min (ts - lastTs wd) (ofZ 50) * SCORE_RATE * dec 1 10 /\
    G.gndOff g' = (G.gndOff g + G.speed g') %% ofZ 55 /\
    G.farOff g' = G.farOff g + G.speed g' * dec 12 100 /\
    G.nearOff g' = G.nearOff g + G.speed g' * dec 38 100.
Proof.
  intros Hg Hph.
  rewrite (loop_gRef physics ts wd Hg), Hph. unfold Phase_eqb.
  set (dt := Math_min (ts - lastTs wd) (ofZ 50)).
  eexists. split; [reflexivity|].
  pose proof (loop_playing_motion physics dt (loop_animation physics dt g)
                (with_lastTs ts wd))
    as (_ & _ & _ & Hv & Ht & _ & _ & Hgo & Hfo & Hno & _).
  pose proof (advanced_fields physics dt g) as Hf. cbv zeta in Hf.
  destruct Hf as (_ & _ & Et & Eg & Ef & En).
  rewrite <- Hv in Eg, Ef, En. rewrite <- Ht in Et.
  rewrite <- Hgo in Eg. rewrite <- Hfo in Ef. rewrite <- Hno in En.
  clear Hv Ht Hgo Hfo Hno.
  pose proof (loop_playing_score physics dt g (with_lastTs ts wd)) as Hsc.
  cbv zeta in Hsc. destruct Hsc as (Hsc & _).
  set (g' := fst (loop_playing physics dt (loop_animation physics dt g)
                    (with_lastTs ts wd))) in *.
  clearbody g'. tauto.
Qed.

(** X10. Scrolling under a physics object the speed can grow under: the
    ground offset stays inside one tile of 55 px, and the two parallax
    offsets never go back. *)
Theorem scroll_offsets (physics : Physics) (ts : num) (wd : World) (g : G.T) :
  gRef wd = Some g ->
  G.phase g = playing ->
  growingPhysics physics = true ->
  onSpeedCurve physics g = true ->
  forwardTime ts wd = true ->
  inTile g = true ->
  isFinite (G.farOff g) = true ->
  isFinite (G.nearOff g) = true ->
  exists g',
    gRef (loop physics ts wd) = Some g' /\
    inTile g' = true /\
    G.farOff g <= G.farOff g' /\
    G.nearOff g <= G.nearOff g'.
Proof.
  intros Hg Hph Hphys Hcurve Htime Htile Hfar Hnear.
  destruct (@playing_frame_speed host physics ts wd g Hg Hph Hphys Hcurve Htime)
    as (g' & E & Hle & Hmax & _ & _).
  destruct (playing_frame_offsets physics ts wd g Hg Hph)
    as (g'' & E' & _ & _ & Hgo & Hfo & Hno).
  rewrite E in E'. injection E' as <-.
  exists g'. split; [exact E|]. clear E.
  assert (Hfm : isFinite (maxSpeed physics) = true).
  { unfold growingPhysics in Hphys. rewrite !andb_true_iff in Hphys. tauto. }
  unfold onSpeedCurve in Hcurve. rewrite !andb_true_iff in Hcurve.
  destruct Hcurve as (((_ & Hv0) & _) & _).
  assert (Hv' : ofZ 0 <= G.speed g') by (exact (leb_trans _ _ _ Hv0 Hle)).
  unfold inTile in *. rewrite !andb_true_iff in Htile. destruct Htile as (Ht0 & Ht1).
  rewrite Hgo, Hfo, Hno. clear Hgo Hfo Hno.
  destruct (G.speed g') as [v'| | |]; try discriminate;
    [|destruct (maxSpeed physics); discriminate].
  clear - Hv' Ht0 Ht1 Hfar Hnear.
  destruct (G.gndOff g) as [o| | |]; try discriminate.
  destruct (G.farOff g) as [fo| | |]; try discriminate.
  destruct (G.nearOff g) as [no| | |]; try discriminate.
  unfold JS.le, ofZ, inject_Z, leb in Hv', Ht0. unfold ltb, ofZ, inject_Z in Ht1.
  q_norm.
  split; [|split].
  - destruct (rem_range (Qred (o + v')) 55) as (r & Er & Hr0 & Hr1);
      [q_norm; lra | lra |].
    unfold add, ofZ, inject_Z. rewrite !Er.
    unfold leb, ltb. apply andb_true_iff. split; q_norm; lra.
  - clear - Hv'. unfold dec, JS.le, mul, add, leb. q_norm.
    assert (0 <= v' * (12 # 100))%Q by (apply Qmult_le_0_compat; [exact Hv'|discriminate]).
    lra.
  - clear - Hv'. unfold dec, JS.le, mul, add, leb. q_norm.
    assert (0 <= v' * (38 # 100))%Q by (apply Qmult_le_0_compat; [exact Hv'|discriminate]).
    lra.
Qed.

(** X11. Under a gravity that is finite and not negative, a character that
    stands on the floor still stands there after a frame, in every phase:
    the clamp undoes the step of gravity.  (This is about frames only; a
    resize moves the ground line and leaves the character where it was.) *)
Theorem standing_stays (physics : Physics) (ts : num) (wd : World) (g : G.T) :
  gRef wd = Some g ->
  isFinite (gravity physics) = true ->
  ofZ 0 <= gravity physics ->
  isFinite (G.gndY g) = true ->
  standing g ->
  exists g', gRef (loop physics ts wd) = Some g' /\ standing g'.
Proof.
  intros Hg Hfin Hpos Hgnd (Hgr & Hy & Hvy).
  rewrite (loop_gRef physics ts wd Hg).
  set (dt := Math_min (ts - lastTs wd) (ofZ 50)).
  eexists. split; [reflexivity|].
  pose proof (loop_animation_char physics dt g) as Ha. cbv zeta in Ha.
  destruct Ha as (_ & Hay & Hav & Hag & Hagnd & _).
  destruct (Phase_eqb (G.phase g) playing).
  - pose proof (loop_playing_motion physics dt (loop_animation physics dt g)
                  (with_lastTs ts wd)) as (Hc & Hgy & _).
    pose proof (loop_advance_keeps physics dt (loop_animation physics dt g)) as Hk.
    cbv zeta in Hk. destruct Hk as (Hkc & Hkg & _).
    pose proof (loop_physics_spec physics
                  (loop_advance physics dt (loop_animation physics dt g))) as Hp.
    cbv zeta in Hp. destruct Hp as (Hpg & Hclamp & _).
    rewrite Hkc, Hkg, Hay, Hav, Hagnd, Hy, Hvy in Hclamp.
    rewrite Hkg, Hagnd in Hpg.
    unfold standing. rewrite Hc, Hgy, Hpg. clear Hc Hgy Hpg Hkc Hkg.
    generalize dependent (loop_physics physics
                            (loop_advance physics dt (loop_animation physics dt g))).
    intros g1 Hclamp.
    assert (Hge : (G.gndY g - CHAR_H + (ofZ 0 + gravity physics) >=? G.gndY g - CHAR_H) = true).
    { clear - Hfin Hpos Hgnd.
      destruct (G.gndY g) as [y| | |]; try discriminate.
      destruct (gravity physics) as [a| | |]; try discriminate.
      revert Hpos.
      cbv beta iota delta [CHAR_H ofZ inject_Z JS.le geb leb add sub neg].
      intro Hpos. q_norm. lra. }
    destruct (Hclamp Hge) as (E1 & E2 & E3). tauto.
  - unfold standing. rewrite Hag, Hay, Hav, Hagnd. tauto.
Qed.

(** X12. The clamp of the frame time: however far apart two timestamps
    are, a playing frame moves the clock forward by at most 50 ms, and the
    score grows, by at most what a frame of 50 ms adds,
    [speed * 50 * SCORE_RATE * 0.1]. *)
Theorem frame_step_bounded (physics : Physics) (ts : num) (wd : World) (g : G.T) :
  gRef wd = Some g ->
  G.phase g = playing ->
  forwardTime ts wd = true ->
  isFinite (G.t g) = true ->
  isFinite (G.score g) = true ->
  isFinite (G.speed g) = true ->
  ofZ 0 <= G.speed g ->
  exists g',
    gRef (loop physics ts wd) = Some g' /\
    G.t g <= G.t g' /\ G.t g' <= G.t g + ofZ 50 /\
    G.score g <= G.score g' /\
    G.score g' <= G.score g + G.speed g * ofZ 50 * SCORE_RATE * dec 1 10.
Proof.
  intros Hg Hph Htime Ht Hs Hv Hv0.
  destruct (playing_frame_offsets physics ts wd g Hg Hph) as (g' & E & Et & Es & _).
  exists g'. split; [exact E|].
  clear E. rewrite Et, Es. clear Et Es.
  unfold forwardTime in Htime. rewrite !andb_true_iff in Htime.
  destruct Htime as ((Hf1 & Hf2) & Hle).
  assert (Hd50 : Math_min (ts - lastTs wd) (ofZ 50) <= ofZ 50).
  { apply Math_min_le_r; [|reflexivity].
    destruct ts, (lastTs wd); try discriminate; reflexivity. }
  destruct (dt_nonneg ts (lastTs wd) Hf1 Hf2 Hle) as (d & Ed & Hd0).
  rewrite Ed in *. clear Ed Hf1 Hf2 Hle.
  destruct (G.t g) as [t0| | |]; try discriminate.
  destruct (G.score g) as [s0| | |]; try discriminate.
  destruct (G.speed g) as [v0| | |]; try discriminate.
  clear - Hd0 Hd50 Hv0.
  revert Hd50 Hv0.
  cbv beta iota delta [SCORE_RATE dec ofZ inject_Z JS.le leb add mul].
  intros Hd50 Hv0. q_norm.
  assert (0 <= v0 * d)%Q by (apply Qmult_le_0_compat; assumption).
  assert (0 <= v0 * (50 - d))%Q by (apply Qmult_le_0_compat; lra).
  repeat split; q_norm; lra.
Qed.

End Motion.

(** ** The sprite of the character *)

Section Sprite.
Context {host : Host}.

Lemma next_run_frame (f : num) :
  validIndex RUN_FRAMES f ->
  validIndex RUN_FRAMES ((f + ofZ 1) %% lengthOf RUN_FRAMES).
Proof.
  intros (k & Hk & ->). unfold RUN_FRAMES in Hk. simpl in Hk.
  destruct k as [|[|[|[|[|[|k]]]]]]; [| | | | | |lia];
    match goal with
    | |- validIndex _ (?e) => let v := eval vm_compute in e in change e with v
    end.
  - exists 1%nat. split; [unfold RUN_FRAMES; simpl; lia|reflexivity].
  - exists 2%nat. split; [unfold RUN_FRAMES; simpl; lia|reflexivity].
  - exists 3%nat. split; [unfold RUN_FRAMES; simpl; lia|reflexivity].
  - exists 4%nat. split; [unfold RUN_FRAMES; simpl; lia|reflexivity].
  - exists 5%nat. split; [unfold RUN_FRAMES; simpl; lia|reflexivity].
  - exists 0%nat. split; [unfold RUN_FRAMES; simpl; lia|reflexivity].
Qed.

Lemma loop_animation_frame (physics : Physics) (dt : num) (g : G.T) :
  Char.frame (G.char (loop_animation physics dt g)) = Char.frame (G.char g) \/
  Char.frame (G.char (loop_animation physics dt g)) =
    (Char.frame (G.char g) + ofZ 1) %% lengthOf RUN_FRAMES.
Proof.
  unfold loop_animation.
  destruct (_ >? _); [destruct (negb _)|]; [right|left|left]; reflexivity.
Qed.

Lemma loop_physics_frame (physics : Physics) (g : G.T) :
  Char.frame (G.char (loop_physics physics g)) = Char.frame (G.char g).
Proof.
  unfold loop_physics. destruct (_ >=? _); reflexivity.
Qed.

(** The frame of the run cycle stays an index of [RUN_FRAMES] under every
    event: a frame steps it round the cycle or leaves it, an action press
    and a resize do not write it, a retry starts from frame 0. *)
Lemma run_frame_step (physics : Physics) (e : Event) (wd : World) (g : G.T) :
  gRef wd = Some g ->
  validIndex RUN_FRAMES (Char.frame (G.char g)) ->
  exists g',
    gRef (handle physics e wd) = Some g' /\
    validIndex RUN_FRAMES (Char.frame (G.char g')).
Proof.
  intros Hg Hv. destruct e as [ts| |iw ih]; unfold handle.
  - rewrite (loop_gRef physics ts wd Hg).
    set (dt := Math_min (ts - lastTs wd) (ofZ 50)).
    eexists. split; [reflexivity|].
    assert (Ha : validIndex RUN_FRAMES (Char.frame (G.char (loop_animation physics dt g)))).
    { destruct (loop_animation_frame physics dt g) as [->| ->];
        [exact Hv|exact (next_run_frame _ Hv)]. }
    destruct (Phase_eqb (G.phase g) playing); [|exact Ha].
    pose proof (loop_playing_motion physics dt (loop_animation physics dt g)
                  (with_lastTs ts wd)) as (Hc & _).
    pose proof (loop_advance_keeps physics dt (loop_animation physics dt g)) as Hk.
    cbv zeta in Hk. destruct Hk as (Hkc & _).
    rewrite Hc, loop_physics_frame, Hkc. exact Ha.
  - unfold doAction. rewrite Hg.
    destruct (G.phase g).
    + eexists. split; [reflexivity|]. exact Hv.
    + destruct (Char.grounded (G.char g)).
      * eexists. split; [reflexivity|]. exact Hv.
      * exists g. split; [exact Hg|exact Hv].
    + pose proof (makeState_fields physics wd (randomCalls wd)) as Hf.
      cbv zeta in Hf. destruct Hf as (_ & _ & _ & _ & _ & Hc & _).
      destruct (makeState physics wd (randomCalls wd)) as [g0 n].
      unfold fst in Hc.
      eexists. split; [reflexivity|].
      change (validIndex RUN_FRAMES (Char.frame (G.char g0))).
      rewrite Hc. exists 0%nat. split; [unfold RUN_FRAMES; simpl; lia|reflexivity].
  - unfold resize.
    change (gRef (with_canvas iw ih wd)) with (gRef wd). rewrite Hg.
    destruct (genStars _ _ _) as [stars n].
    eexists. split; [reflexivity|]. exact Hv.
Qed.

Lemma handleAll_frame_valid (physics : Physics) (es : list Event) :
  forall (wd : World) (g : G.T),
    gRef wd = Some g ->
    validIndex RUN_FRAMES (Char.frame (G.char g)) ->
    exists g',
      gRef (handleAll physics es wd) = Some g' /\
      validIndex RUN_FRAMES (Char.frame (G.char g')).
Proof.
  induction es as [|e es IH]; intros wd g Hg Hv.
  - exists g. split; assumption.
  - destruct (run_frame_step physics e wd g Hg Hv) as (g1 & Hg1 & Hv1).
    exact (IH (handle physics e wd) g1 Hg1 Hv1).
Qed.

Lemma sprite_source_cases (idx : num) :
  In idx (RUN_FRAMES ++ [JUMP_FRAME; DEAD_FRAME]) ->
  inSheet 2 (drawSprite_source idx).
Proof.
  intro H. cbn in H.
  repeat (destruct H as [<-|H]; [vm_compute; intuition discriminate|]).
  contradiction.
Qed.

Lemma frameIdx_cases (g : G.T) :
  validIndex RUN_FRAMES (Char.frame (G.char g)) ->
  exists idx, frameIdx g = Some idx /\ In idx (RUN_FRAMES ++ [JUMP_FRAME; DEAD_FRAME]).
Proof.
  intros (k & Hk & E). unfold frameIdx. rewrite E. clear E.
  unfold RUN_FRAMES in Hk. simpl in Hk.
  destruct (Phase_eqb (G.phase g) gameover).
  { eexists. split; [reflexivity|]. cbn. tauto. }
  destruct (Char.grounded (G.char g)).
  2: { eexists. split; [reflexivity|]. cbn. tauto. }
  destruct k as [|[|[|[|[|[|k]]]]]]; [| | | | | |lia];
    (eexists; split; [vm_compute; reflexivity|cbn; tauto]).
Qed.

(** X13. From the mount effect on, whatever events follow, the render
    finds a frame to draw, and the rectangle [drawSprite] cuts out of the
    sheet lies inside its six columns and first two rows. *)
Theorem sprite_inside_sheet (physics : Physics) (iw ih : Z) (store : Storage)
        (es : list Event) :
  exists g idx,
    gRef (handleAll physics es (mount physics iw ih (initialWorld store))) = Some g /\
    frameIdx g = Some idx /\
    inSheet 2 (drawSprite_source idx).
Proof.
  assert (H0 : exists g0,
             gRef (mount physics iw ih (initialWorld store)) = Some g0 /\
             validIndex RUN_FRAMES (Char.frame (G.char g0))).
  { unfold mount.
    set (wd := resize iw ih (initialWorld store)).
    pose proof (makeState_fields physics wd (randomCalls wd)) as Hf.
    cbv zeta in Hf. destruct Hf as (_ & _ & _ & _ & _ & Hc & _).
    destruct (makeState physics wd (randomCalls wd)) as [g0 n].
    unfold fst in Hc.
    exists g0. split; [reflexivity|].
    rewrite Hc. exists 0%nat. split; [unfold RUN_FRAMES; simpl; lia|reflexivity]. }
  destruct H0 as (g0 & Hg0 & Hv0).
  destruct (handleAll_frame_valid physics es _ g0 Hg0 Hv0) as (g & Hg & Hv).
  destruct (frameIdx_cases g Hv) as (idx & Hi & Hin).
  exists g, idx. split; [exact Hg|]. split; [exact Hi|].
  exact (sprite_source_cases idx Hin).
Qed.

End Sprite.

(** ** Background removal *)

Section Keying.

Lemma pixels_ind (P : list Z -> Prop) :
  (forall d, (List.length d < 4)%nat -> P d) ->
  (forall r g b a rest, P rest -> P (r :: g :: b :: a :: rest)) ->
  forall d, P d.
Proof.
  intros Hshort Hpx.
  assert (H : forall n d, (List.length d <= n)%nat -> P d).
  { induction n as [|n IH]; intros d Hn.
    - apply Hshort. lia.
    - destruct d as [|r [|g [|b [|a rest]]]]; try (apply Hshort; simpl; lia).
      apply Hpx. apply IH. simpl in Hn. lia. }
  intro d. exact (H (List.length d) d (Nat.le_refl _)).
Qed.

Lemma processSprite_loop_short (d : list Z) :
  (List.length d < 4)%nat -> processSprite_loop d = d.
Proof.
  destruct d as [|r [|g [|b [|a rest]]]]; simpl; intro H; try reflexivity. lia.
Qed.

(** X14. Keying is idempotent: it reads the colour bytes only, and those
    it leaves as they are, so a second pass over the keyed image changes
    nothing. *)
Theorem processSprite_idempotent (d : list Z) :
  processSprite_loop (processSprite_loop d) = processSprite_loop d.
Proof.
  induction d as [d Hd|r g b a rest IH] using pixels_ind.
  - rewrite !(processSprite_loop_short d Hd). reflexivity.
  - cbn [processSprite_loop]. rewrite IH.
    destruct ((g >? 100) && (g >? r + 40) && (g >? b + 40))%Z; reflexivity.
Qed.

(** X15. Keying writes alpha bytes only, and only zeros: the image keeps
    its length, every byte is the byte of the input, or it is the fourth
    byte of a pixel whose green dominates and it is zero. *)
Theorem processSprite_alpha_only (d : list Z) :
  List.length (processSprite_loop d) = List.length d /\
  forall i : nat,
    nth_error (processSprite_loop d) i = nth_error d i \/
    ((i mod 4 = 3)%nat /\
     nth_error (processSprite_loop d) i = Some 0%Z /\
     exists r g b,
       nth_error d (i - 3) = Some r /\ nth_error d (i - 2) = Some g /\
       nth_error d (i - 1) = Some b /\
       (g > 100 /\ g > r + 40 /\ g > b + 40)%Z).
Proof.
  induction d as [d Hd|r g b a rest (IHl & IHn)] using pixels_ind.
  - rewrite (processSprite_loop_short d Hd). split; [reflexivity|]. intro i. left. reflexivity.
  - cbn [processSprite_loop]. split; [simpl; rewrite IHl; reflexivity|].
    intro i.
    destruct i as [|[|[|[|i]]]]; try (left; reflexivity).
    + destruct ((g >? 100) && (g >? r + 40) && (g >? b + 40))%Z eqn:E;
        [|left; reflexivity].
      right. split; [reflexivity|]. split; [reflexivity|].
      exists r, g, b. cbn. rewrite !andb_true_iff in E.
      repeat split; try reflexivity; lia.
    + cbn [nth_error].
      destruct (IHn i) as [H|(Hm & H0 & r' & g' & b' & H1 & H2 & H3 & H4)];
        [left; exact H|].
      right. split.
      { replace (S (S (S (S i)))) with (i + 1 * 4)%nat by lia.
        rewrite Nat.Div0.mod_add. exact Hm. }
      split; [exact H0|].
      assert (Hi : (3 <= i)%nat).
      { destruct i as [|[|[|i]]]; cbn in Hm; try discriminate. lia. }
      exists r', g', b'.
      replace (S (S (S (S i))) - 3)%nat with (4 + (i - 3))%nat by lia.
      replace (S (S (S (S i))) - 2)%nat with (4 + (i - 2))%nat by lia.
      replace (S (S (S (S i))) - 1)%nat with (4 + (i - 1))%nat by lia.
      cbn [nth_error Nat.add]. tauto.
Qed.

End Keying.

(** ** The backdrop *)

Section Backdrop.
Context {host : Host}.

Lemma arrayFrom_Forall {A : Type} (P : A -> Prop) (fn : Rand A) :
  (forall n, P (fst (fn n))) ->
  forall k n, Forall P (fst (arrayFrom k fn n)).
Proof.
  intros HP. induction k as [|k IH]; intro n; simpl; [constructor|].
  unfold bind. pose proof (HP n) as H0. destruct (fn n) as [v n1].
  specialize (IH n1). destruct (arrayFrom k fn n1) as [vs n2].
  simpl in *. constructor; assumption.
Qed.

Lemma arrayFrom_calls {A : Type} (c : nat) (fn : Rand A) :
  (forall n, snd (fn n) = (n + c)%nat) ->
  forall k n, snd (arrayFrom k fn n) = (n + k * c)%nat.
Proof.
  intros Hc. induction k as [|k IH]; intro n; simpl; [lia|].
  unfold bind. pose proof (Hc n) as H0. destruct (fn n) as [v n1].
  specialize (IH n1). destruct (arrayFrom k fn n1) as [vs n2].
  simpl in *. lia.
Qed.

Lemma draw_range (d : Draw) : (0 <= draw_val d)%Q /\ (draw_val d < 1)%Q.
Proof.
  pose proof (draw_inUnit d) as H. unfold inUnit in H.
  apply andb_true_iff in H. destruct H as (H0 & H1). q_norm. tauto.
Qed.

(** X16. The star field: on a canvas of finite, non-negative size every
    one of the 180 stars lies inside the sky, between the left and right
    edge and above 88 percent of the ground line, with a radius of 1.4 or
    0.8, an alpha from 0.45 to 1 and a twinkle rate from 0.25 to 1.35; the
    generator draws six numbers a star, 1080 in all. *)
Theorem genStars_in_sky (w groundY : num) (n : nat) :
  isFinite w = true -> ofZ 0 <= w ->
  isFinite groundY = true -> ofZ 0 <= groundY ->
  Forall (starInSky w groundY) (fst (genStars w groundY n)) /\
  List.length (fst (genStars w groundY n)) = 180%nat /\
  snd (genStars w groundY n) = (n + 1080)%nat.
Proof.
  intros Hw Hw0 Hg Hg0.
  split; [|split].
  - apply arrayFrom_Forall. intro m.
    cbv beta iota delta [genStar bind random ret fst starInSky Star.x Star.y Star.r
                         Star.a Star.tw drawNum].
    destruct (draw_range (Math_random m)) as (Hx0 & Hx1).
    destruct (draw_range (Math_random (S m))) as (Hy0 & Hy1).
    destruct (draw_range (Math_random (S (S (S m))))) as (Ha0 & Ha1).
    destruct (draw_range (Math_random (S (S (S (S m)))))) as (Ht0 & Ht1).
    generalize dependent (draw_val (Math_random m)). intros qx Hx0 Hx1.
    generalize dependent (draw_val (Math_random (S m))). intros qy Hy0 Hy1.
    generalize dependent (draw_val (Math_random (S (S (S m))))). intros qa Ha0 Ha1.
    generalize dependent (draw_val (Math_random (S (S (S (S m)))))). intros qt Ht0 Ht1.
    generalize (draw_val (Math_random (S (S m)))). intro qr.
    destruct w as [w| | |]; try discriminate.
    destruct groundY as [gy| | |]; try discriminate.
    clear Hw Hg. revert Hw0 Hg0.
    cbv beta iota delta [JS.le leb ofZ inject_Z]. intros Hw0 Hg0. q_norm.
    assert (0 <= qx * w)%Q by (apply Qmult_le_0_compat; assumption).
    assert (0 <= (1 - qx) * w)%Q by (apply Qmult_le_0_compat; lra).
    assert (0 <= qy * gy)%Q by (apply Qmult_le_0_compat; assumption).
    assert (0 <= (1 - qy) * gy)%Q by (apply Qmult_le_0_compat; lra).
    repeat match goal with |- _ /\ _ => split end;
      try (cbv beta iota delta [JS.le JS.lt leb ltb mul add dec ofZ inject_Z];
           q_norm; lra).
    destruct (Fin qr <? dec 2 10); [left|right]; reflexivity.
  - apply genStars_length.
  - unfold genStars. rewrite (arrayFrom_calls 6); [lia|].
    intro m. cbv beta iota delta [genStar bind random ret snd]. lia.
Qed.

Lemma floorTimes_range (d : Draw) (n : Z) :
  (1 <= n)%Z -> (0 <= floorTimes (drawNum d) n <= n - 1)%Z.
Proof.
  intro Hn. destruct (draw_range d) as (H0 & H1).
  unfold floorTimes, drawNum. generalize dependent (draw_val d). intros q H0 H1.
  assert (Hn' : (inject_Z 0 < inject_Z n)%Q) by (rewrite <- Zlt_Qlt; lia).
  change (inject_Z 0) with 0%Q in Hn'.
  assert (Hlo : (0 <= q * inject_Z n)%Q) by (apply Qmult_le_0_compat; lra).
  assert (Hhi : (q * inject_Z n < inject_Z n)%Q) by nra.
  split.
  - change 0%Z with (Qfloor (inject_Z 0)). apply Qfloor_resp_le. exact Hlo.
  - assert (H : (Qfloor (q * inject_Z n) < n)%Z); [|lia].
    rewrite Zlt_Qlt. eapply Qle_lt_trans; [apply Qfloor_le|exact Hhi].
Qed.

Lemma genWindowsCols_spec (f : Z) (n : nat) :
  forall (c : Z) (ws : list Building.Window) (m : nat),
  exists new,
    fst (genWindowsCols f c n ws m) = ws ++ new /\
    Forall (fun w => Building.f w = f /\ (c <= Building.c w < c + Z.of_nat n)%Z) new.
Proof.
  induction n as [|n IH]; intros c ws m.
  - exists []. split; [symmetry; apply app_nil_r|constructor].
  - cbn [genWindowsCols]. unfold bind at 1. unfold random at 1.
    destruct (drawNum (Math_random m) >? dec 3 10).
    + unfold bind at 1. unfold random at 1.
      destruct (IH (c + 1)%Z
                   (ws ++ [Building.mkWindow f c (drawNum (Math_random (S m)) >? dec 25 100)])
                   (S (S m))) as (new & E & Hall).
      exists (Building.mkWindow f c (drawNum (Math_random (S m)) >? dec 25 100) :: new).
      split; [rewrite E, <- app_assoc; reflexivity|].
      constructor; [cbn; split; [reflexivity|lia]|].
      eapply Forall_impl; [|exact Hall]. cbv beta. intros w (Hf & Hc). split; [exact Hf|lia].
    + destruct (IH (c + 1)%Z ws (S m)) as (new & E & Hall).
      exists new. split; [exact E|].
      eapply Forall_impl; [|exact Hall]. cbv beta. intros w (Hf & Hc). split; [exact Hf|lia].
Qed.

Lemma genWindowsFloors_spec (cols : Z) (n : nat) :
  forall (f : Z) (ws : list Building.Window) (m : nat),
  exists new,
    fst (genWindowsFloors f n cols ws m) = ws ++ new /\
    Forall (fun w => (f <= Building.f w < f + Z.of_nat n)%Z /\
                     (0 <= Building.c w < Z.of_nat (Z.to_nat cols))%Z) new.
Proof.
  induction n as [|n IH]; intros f ws m.
  - exists []. split; [symmetry; apply app_nil_r|constructor].
  - cbn [genWindowsFloors]. unfold bind at 1.
    destruct (genWindowsCols_spec f (Z.to_nat cols) 0%Z ws m) as (new1 & E1 & H1).
    destruct (genWindowsCols f 0 (Z.to_nat cols) ws m) as [ws1 m1].
    unfold fst in E1. subst ws1.
    destruct (IH (f + 1)%Z (ws ++ new1) m1) as (new2 & E2 & H2).
    exists (new1 ++ new2). split; [rewrite E2, <- app_assoc; reflexivity|].
    apply Forall_app. split.
    + eapply Forall_impl; [|exact H1]. cbv beta. intros w (Hf & Hc). split; lia.
    + eapply Forall_impl; [|exact H2]. cbv beta. intros w (Hf & Hc). split; lia.
Qed.

Lemma laidOut_snoc (bs : list Building.T) :
  forall (x0 xm total : Z) (b : Building.T),
    laidOut x0 bs xm ->
    laidOut xm [b] total ->
    laidOut x0 (bs ++ [b]) total.
Proof.
  induction bs as [|b0 bs IH]; intros x0 xm total b H1 H2.
  - cbn in H1. subst xm. exact H2.
  - cbn [laidOut app] in *. destruct H1 as (Hx & gap & Hgap & Hrest).
    split; [exact Hx|]. exists gap. split; [exact Hgap|].
    exact (IH _ _ _ _ Hrest H2).
Qed.

(** Every building of the loop: its windows, its size, its place. *)
Lemma genBuildingsLoop_spec (minW maxW minH maxH : Z) (k : nat) :
  forall (bs : list Building.T) (x0 x : Z) (m : nat),
    laidOut x0 bs x ->
    exists new total,
      fst (genBuildingsLoop k minW maxW minH maxH bs x m) =
        Building.mkLayer (bs ++ new) total /\
      List.length new = k /\
      laidOut x0 (bs ++ new) total /\
      Forall (fun b =>
                (forall win, In win (Building.windows b) ->
                             insideBuilding b (drawLayer_window b win)) /\
                ((minW <= maxW)%Z -> (minH <= maxH)%Z ->
                 sizedWithin minW maxW minH maxH b)) new.
Proof.
  induction k as [|k IH]; intros bs x0 x m Hout.
  - exists [], x. rewrite app_nil_r. split; [reflexivity|]. split; [reflexivity|].
    split; [exact Hout|constructor].
  - cbn [genBuildingsLoop]. unfold bind at 1. unfold random at 1.
    unfold bind at 1. unfold random at 1. cbv zeta.
    set (bw := (minW + floorTimes (drawNum (Math_random m)) (maxW - minW + 1))%Z).
    set (bh := (minH + floorTimes (drawNum (Math_random (S m))) (maxH - minH + 1))%Z).
    unfold bind at 1.
    destruct (genWindowsFloors_spec (bw / 12) (Z.to_nat (bh / 14)) 0%Z [] (S (S m)))
      as (wins & Ew & Hw).
    destruct (genWindowsFloors 0 (Z.to_nat (bh / 14)) (bw / 12) [] (S (S m))) as [wins' m1].
    unfold fst in Ew. cbn [app] in Ew. subst wins'.
    unfold bind at 1. unfold random at 1.
    set (b := Building.mk x bw bh (bh / 14) (bw / 12) 14 12 wins).
    pose proof (floorTimes_range (Math_random m1) 10 ltac:(lia)) as Hgap.
    set (gap := floorTimes (drawNum (Math_random m1)) 10) in *.
    assert (Hout' : laidOut x0 (bs ++ [b]) (x + (bw + 3 + gap))).
    { apply (laidOut_snoc bs x0 x _ b Hout).
      unfold laidOut, b. cbn [Building.x Building.bw]. split; [reflexivity|].
      exists (3 + gap)%Z. split; lia. }
    destruct (IH (bs ++ [b]) x0 (x + (bw + 3 + gap))%Z (S m1) Hout')
      as (new & total & E & Hlen & Hlaid & Hall).
    exists (b :: new), total.
    rewrite <- app_assoc in E, Hlaid. cbn [app] in E, Hlaid.
    split; [exact E|]. split; [cbn; rewrite Hlen; reflexivity|].
    split; [exact Hlaid|].
    constructor; [|exact Hall].
    split.
    + intros win Hin. rewrite Forall_forall in Hw. destruct (Hw win Hin) as (Hf & Hc).
      unfold insideBuilding, drawLayer_window, b.
      cbn [Building.c Building.f Building.colW Building.floorH Building.bw Building.bh].
      assert (Hfl : (0 < bh / 14)%Z) by lia.
      assert (Hco : (0 < bw / 12)%Z) by lia.
      rewrite Z2Nat.id in Hf, Hc by lia.
      pose proof (Z.mul_div_le bw 12 ltac:(lia)).
      pose proof (Z.mul_div_le bh 14 ltac:(lia)).
      lia.
    + intros HW HH. unfold sizedWithin, b. cbn [Building.bw Building.bh].
      pose proof (floorTimes_range (Math_random m) (maxW - minW + 1) ltac:(lia)).
      pose proof (floorTimes_range (Math_random (S m)) (maxH - minH + 1) ltac:(lia)).
      unfold bw, bh. lia.
Qed.

(** X17. The skyline generator, for bounds in order: it returns [count]
    buildings, each with a width and a height within the bounds, laid out
    from 0 to the right, each one 3 to 12 px after the one before ended, and
    the total width ends one such gap after the last. *)
Theorem genBuildings_layout (count minW maxW minH maxH : Z) (n : nat) :
  (minW <= maxW)%Z -> (minH <= maxH)%Z ->
  let layer := fst (genBuildings count minW maxW minH maxH n) in
  List.length (Building.buildings layer) = Z.to_nat count /\
  Forall (sizedWithin minW maxW minH maxH) (Building.buildings layer) /\
  laidOut 0 (Building.buildings layer) (Building.totalW layer).
Proof.
  intros HW HH. cbv zeta. unfold genBuildings.
  destruct (genBuildingsLoop_spec minW maxW minH maxH (Z.to_nat count) [] 0%Z 0%Z n
              eq_refl) as (new & total & E & Hlen & Hlaid & Hall).
  rewrite E. cbn [app Building.buildings Building.totalW] in *.
  split; [exact Hlen|]. split; [|exact Hlaid].
  eapply Forall_impl; [|exact Hall]. cbv beta. intros b (_ & Hs). exact (Hs HW HH).
Qed.

(** X18. Whatever the arguments of the generator, the rectangle the
    layer paints for a window lies inside the rectangle of its building:
    the windows sit on a grid of 12 by 14 px cells that fit the size. *)
Theorem windows_inside_building (count minW maxW minH maxH : Z) (n : nat)
        (b : Building.T) (win : Building.Window) :
  In b (Building.buildings (fst (genBuildings count minW maxW minH maxH n))) ->
  In win (Building.windows b) ->
  insideBuilding b (drawLayer_window b win).
Proof.
  intros Hb Hwin. unfold genBuildings in Hb.
  destruct (genBuildingsLoop_spec minW maxW minH maxH (Z.to_nat count) [] 0%Z 0%Z n
              eq_refl) as (new & total & E & _ & _ & Hall).
  rewrite E in Hb. cbn [app Building.buildings] in Hb.
  rewrite Forall_forall in Hall. exact (proj1 (Hall b Hb) win Hwin).
Qed.

End Backdrop.

(** ** The score element *)

Section ScoreElement.
Context {host : Host}.

Lemma eqb_ofZ (a b : Z) : JS.eqb (ofZ a) (ofZ b) = true -> a = b.
Proof.
  unfold JS.eqb, ofZ. intro H. apply Qeq_bool_iff in H.
  unfold Qeq, inject_Z in H. cbn [Qnum Qden] in H. lia.
Qed.

Lemma loop_collision_display (os : list Obs.T) (g : G.T) (wd : World) :
  G.score (fst (loop_collision os g wd)) = G.score g /\
  G.lastDisplayScore (fst (loop_collision os g wd)) = G.lastDisplayScore g /\
  scoreEl (snd (loop_collision os g wd)) = scoreEl wd.
Proof.
  destruct (loop_collision_cases os g wd) as [(_ & ->)|(_ & ->)].
  - repeat split.
  - unfold gameOver. repeat split.
Qed.

(** The playing branch as the score display sees it. *)
Lemma loop_playing_display (physics : Physics) (dt : num) (g : G.T) (wd : World) :
  exists g4 wd4,
    loop_playing physics dt g wd = loop_display g4 wd4 /\
    G.score g4 = G.score (loop_advance physics dt g) /\
    G.lastDisplayScore g4 = G.lastDisplayScore g /\
    scoreEl wd4 = scoreEl wd.
Proof.
  unfold loop_playing.
  assert (H1 : G.score (loop_physics physics (loop_advance physics dt g)) =
               G.score (loop_advance physics dt g) /\
               G.lastDisplayScore (loop_physics physics (loop_advance physics dt g)) =
               G.lastDisplayScore g).
  { assert (Hp : forall x,
               G.score (loop_physics physics x) = G.score x /\
               G.lastDisplayScore (loop_physics physics x) = G.lastDisplayScore x)
      by (intro x; unfold loop_physics; split; reflexivity).
    destruct (Hp (loop_advance physics dt g)) as (-> & ->).
    split; [reflexivity|]. unfold loop_advance. reflexivity. }
  destruct H1 as (Hs1 & Hl1). rewrite <- Hs1, <- Hl1. clear Hs1 Hl1.
  generalize (loop_physics physics (loop_advance physics dt g)). intro g1.
  assert (H2 : exists g2,
             fst (loop_spawn physics dt g1 (randomCalls wd)) = inl g2 /\
             G.score g2 = G.score g1 /\
             G.lastDisplayScore g2 = G.lastDisplayScore g1).
  { unfold loop_spawn, bind, random, ret.
    cbn [G.nextGap G.with_nextGap].
    destruct (_ <=? _).
    - destruct (getCactusSize_drawn (Math_random (randomCalls wd))) as ([w h] & ->).
      eexists. split; [reflexivity|]. split; reflexivity.
    - eexists. split; [reflexivity|]. split; reflexivity. }
  destruct H2 as (g2 & E2 & Hs2 & Hl2).
  destruct (loop_spawn physics dt g1 (randomCalls wd)) as [res n].
  unfold fst in E2. subst res. rewrite <- Hs2, <- Hl2. clear Hs2 Hl2 g1.
  assert (H3 : G.score (loop_scroll g2) = G.score g2 /\
               G.lastDisplayScore (loop_scroll g2) = G.lastDisplayScore g2)
    by (unfold loop_scroll; split; reflexivity).
  destruct H3 as (Hs3 & Hl3). rewrite <- Hs3, <- Hl3. clear Hs3 Hl3.
  generalize (loop_scroll g2). intro g3.
  pose proof (loop_collision_display (G.obs g3) g3 (with_randomCalls n wd))
    as (Hs4 & Hl4 & He4).
  destruct (loop_collision (G.obs g3) g3 (with_randomCalls n wd)) as [g4 wd4].
  unfold fst, snd in *.
  exists g4, wd4. split; [reflexivity|]. split; [exact Hs4|]. split; [exact Hl4|].
  exact He4.
Qed.

(** X19. The score element follows the score: when the element agrees
    with the state before a playing frame (or the state has displayed
    nothing yet), and score and speed are finite and not negative, then
    after the frame the state records the floor of the new score as
    displayed, the element holds the text of that number, and the two agree
    again. *)
Theorem score_element_follows (physics : Physics) (ts : num) (wd : World) (g : G.T) :
  gRef wd = Some g ->
  G.phase g = playing ->
  forwardTime ts wd = true ->
  isFinite (G.score g) = true -> ofZ 0 <= G.score g ->
  isFinite (G.speed g) = true -> ofZ 0 <= G.speed g ->
  hudInSync wd g ->
  exists g',
    gRef (loop physics ts wd) = Some g' /\
    G.lastDisplayScore g' = Math_floor (G.score g') /\
    scoreEl (loop physics ts wd) = Some (scoreText (Math_floor (G.score g'))) /\
    hudInSync (loop physics ts wd) g'.
Proof.
  intros Hg Hph Htime Hsf Hs0 Hvf Hv0 (z & txt & Hz & Hel & Htxt).
  unfold loop. change (gRef (with_lastTs ts wd)) with (gRef wd).
  rewrite Hg, Hph. unfold Phase_eqb.
  set (dt := Math_min (ts - lastTs wd) (ofZ 50)).
  destruct (loop_playing_display physics dt (loop_animation physics dt g)
              (with_lastTs ts wd)) as (g4 & wd4 & E & Hs4 & Hl4 & He4).
  rewrite E. clear E.
  change (scoreEl (with_lastTs ts wd)) with (scoreEl wd) in He4.
  assert (Hl0 : G.lastDisplayScore (loop_animation physics dt g) = G.lastDisplayScore g)
    by (unfold loop_animation; reflexivity).
  rewrite Hl0, Hz in Hl4. rewrite Hel in He4. clear Hl0.
  destruct (loop_advance_score physics dt (loop_animation physics dt g)) as (Hsc & _).
  pose proof (loop_animation_char physics dt g) as Ha. cbv zeta in Ha.
  destruct Ha as (_ & _ & _ & _ & _ & Has & Hav & _).
  rewrite Has, Hav in Hsc. rewrite Hsc in Hs4. clear Hsc Has Hav.
  generalize dependent (loop_animation physics dt g). intros _.
  assert (Hk : exists k, Math_floor (G.score g4) = ofZ k /\ (0 <= k)%Z).
  { unfold forwardTime in Htime. rewrite !andb_true_iff in Htime.
    destruct Htime as ((Hf1 & Hf2) & Hle).
    destruct (dt_nonneg ts (lastTs wd) Hf1 Hf2 Hle) as (d & Ed & Hd0).
    fold dt in Ed. rewrite Hs4, Ed. clear - Hsf Hs0 Hvf Hv0 Hd0.
    destruct (G.score g) as [s0| | |]; try discriminate.
    destruct (G.speed g) as [v0| | |]; try discriminate.
    revert Hs0 Hv0.
    cbv beta iota delta [SCORE_RATE dec ofZ inject_Z JS.le leb add mul Math_floor].
    intros Hs0 Hv0. q_norm.
    eexists. split; [reflexivity|].
    change 0%Z with (Qfloor (inject_Z 0)). apply Qfloor_resp_le.
    change (inject_Z 0) with 0%Q. q_norm.
    assert (0 <= v0 * d)%Q by (apply Qmult_le_0_compat; assumption).
    lra. }
  destruct Hk as (k & Hk & Hk0).
  unfold loop_display. rewrite Hk, Hl4.
  destruct (JS.eqb (ofZ k) (ofZ z)) eqn:Eq; cbv beta iota delta [negb].
  - apply eqb_ofZ in Eq. subst z.
    assert (He : scoreEl (with_gRef (Some g4) wd4) = Some (scoreText (ofZ k))).
    { change (scoreEl wd4 = Some (scoreText (ofZ k))).
      rewrite He4, (Htxt ltac:(lia)). reflexivity. }
    exists g4. split; [reflexivity|].
    rewrite Hk. split; [exact Hl4|]. split; [exact He|].
    exists k, (scoreText (ofZ k)). split; [exact Hl4|]. split; [exact He|reflexivity].
  - set (g5 := G.with_lastDisplayScore (ofZ k) g4).
    assert (Hs5 : Math_floor (G.score g5) = ofZ k) by exact Hk.
    assert (He : scoreEl (with_gRef (Some g5)
                            (with_scoreEl
                               (setText (Str.padStart 5 (Number_toString (ofZ k)))
                                        (scoreEl wd4)) wd4)) =
                 Some (scoreText (ofZ k))).
    { cbn [scoreEl with_scoreEl with_gRef]. rewrite He4. reflexivity. }
    exists g5. split; [reflexivity|].
    rewrite Hs5. split; [reflexivity|]. split; [exact He|].
    exists k, (scoreText (ofZ k)). split; [reflexivity|]. split; [exact He|reflexivity].
Qed.

End ScoreElement.

(** ** Drawing an obstacle *)

Section Drawing.

Lemma forEachi_Forall {A B : Type} (P : B -> Prop) (fn : A -> nat -> list B)
      (arr : list A) :
  forall i0,
    (forall a k, nth_error arr k = Some a -> Forall P (fn a (i0 + k)%nat)) ->
    Forall P (forEachi fn i0 arr).
Proof.
  induction arr as [|a rest IH]; intros i0 H; cbn [forEachi]; [constructor|].
  apply Forall_app. split.
  - specialize (H a 0%nat eq_refl). rewrite Nat.add_0_r in H. exact H.
  - apply IH. intros b k Hk. specialize (H b (S k) Hk).
    replace (S i0 + k)%nat with (i0 + S k)%nat by lia. exact H.
Qed.

Lemma CACTUS_DEFS_fit : forallb fitsBox CACTUS_DEFS = true.
Proof. vm_compute. reflexivity. Qed.

(** The rectangles of one cell lie inside the box. *)
Lemma cell_in_box (qx qy s : Q) (ci ri n0 nr : nat) (b1 b2 b3 : bool) :
  (2 <= s)%Q -> (ci < n0)%nat -> (ri < nr)%nat ->
  let x := Fin qx in
  let groundY := Fin qy in
  let scale := Fin s in
  let startY := groundY - ofZ (Z.of_nat nr) * scale in
  let bx := x + ofZ (Z.of_nat ci) * scale in
  let by' := startY + ofZ (Z.of_nat ri) * scale in
  Forall (inBox x groundY (ofZ (Z.of_nat n0) * scale) (ofZ (Z.of_nat nr) * scale))
    ([mkFill "#267a3e" bx by' scale scale] ++
     (if b1 then [mkFill "#3db85e" bx by' (ofZ 2) scale] else []) ++
     (if b2 then [mkFill "#174d27" (bx + scale - ofZ 2) by' (ofZ 2) scale] else []) ++
     (if b3 then [mkFill "#4dce72" bx by' scale (ofZ 2)] else [])).
Proof.
  intros Hs Hc Hr. cbv zeta. unfold ofZ.
  assert (Hc0 : (0 <= inject_Z (Z.of_nat ci))%Q)
    by (change 0%Q with (inject_Z 0); rewrite <- Zle_Qle; lia).
  assert (Hr0 : (0 <= inject_Z (Z.of_nat ri))%Q)
    by (change 0%Q with (inject_Z 0); rewrite <- Zle_Qle; lia).
  assert (Hc1 : (inject_Z (Z.of_nat ci) + 1 <= inject_Z (Z.of_nat n0))%Q).
  { change 1%Q with (inject_Z 1). rewrite <- inject_Z_plus, <- Zle_Qle. lia. }
  assert (Hr1 : (inject_Z (Z.of_nat ri) + 1 <= inject_Z (Z.of_nat nr))%Q).
  { change 1%Q with (inject_Z 1). rewrite <- inject_Z_plus, <- Zle_Qle. lia. }
  generalize dependent (inject_Z (Z.of_nat ci)). intros c Hc0 Hc1.
  generalize dependent (inject_Z (Z.of_nat ri)). intros r Hr0 Hr1.
  generalize dependent (inject_Z (Z.of_nat n0)). intros n Hc1.
  generalize dependent (inject_Z (Z.of_nat nr)). intros m Hr1.
  assert (0 <= c * s)%Q by (apply Qmult_le_0_compat; lra).
  assert (0 <= r * s)%Q by (apply Qmult_le_0_compat; lra).
  assert (0 <= (n - c - 1) * s)%Q by (apply Qmult_le_0_compat; lra).
  assert (0 <= (m - r - 1) * s)%Q by (apply Qmult_le_0_compat; lra).
  unfold inject_Z.
  destruct b1, b2, b3; cbn [app];
    repeat (apply Forall_cons || apply Forall_nil);
    unfold inBox;
    cbv beta iota delta [fill_x fill_y fill_w fill_h JS.le leb add sub neg mul];
    repeat split; q_norm; lra.
Qed.

(** X20. An obstacle is drawn inside the box its size describes: for a
    type of the catalogue, every rectangle [drawCactus] fills, body and
    edges, lies between [x] and [x + w] and between [groundY - h] and
    [groundY], with [w] and [h] the size [getCactusSize] gives the
    collision test. *)
Theorem drawCactus_in_box (x groundY type w h : num) :
  isFinite x = true -> isFinite groundY = true ->
  getCactusSize type = Some (w, h) ->
  exists fills,
    drawCactus x groundY type = Some fills /\
    Forall (inBox x groundY w h) fills.
Proof.
  intros Hx Hy Hsz. unfold getCactusSize in Hsz. unfold drawCactus.
  destruct (index CACTUS_DEFS type) as [d|] eqn:Ed; [|discriminate].
  assert (Hin : In d CACTUS_DEFS).
  { unfold index in Ed. destruct type as [q| | |]; try discriminate.
    destruct (_ && _)%bool; [|discriminate]. eapply nth_error_In. exact Ed. }
  pose proof CACTUS_DEFS_fit as Hfit. rewrite forallb_forall in Hfit.
  specialize (Hfit d Hin). unfold fitsBox in Hfit. clear Ed Hin.
  destruct (rows d) as [|row0 rest] eqn:Er; [discriminate|].
  injection Hsz as <- <-.
  rewrite !andb_true_iff in Hfit. destruct Hfit as ((Hrows & Hfin) & Hs2).
  rewrite forallb_forall in Hrows.
  destruct (scale d) as [s| | |]; try discriminate.
  destruct x as [qx| | |]; try discriminate.
  destruct groundY as [qy| | |]; try discriminate.
  assert (Hs : (2 <= s)%Q).
  { revert Hs2. unfold leb, ofZ, inject_Z. intro Hs2. q_norm. exact Hs2. }
  eexists. split; [reflexivity|].
  apply forEachi_Forall. intros row ri Hri.
  apply forEachi_Forall. intros filled ci Hci.
  destruct (Nat.eqb filled 0); [constructor|].
  cbn [Nat.add]. unfold lengthOf.
  apply (cell_in_box qx qy s ci ri (List.length row0) (List.length (row0 :: rest))).
  - exact Hs.
  - assert (Hlt : (ci < List.length row)%nat)
      by (apply nth_error_Some; rewrite Hci; discriminate).
    pose proof (Hrows row (nth_error_In _ _ Hri)) as Hle.
    apply Nat.leb_le in Hle. lia.
  - apply nth_error_Some. rewrite Hri. discriminate.
Qed.

End Drawing.

(** ** The music loop *)

Section Music.

Lemma note_withinPass (f : num) (type : string) (vol : num) (q i d : Q) :
  Qle_bool 0 i = true -> Qltb 0 d = true -> Qle_bool (i + d) (48 # 7) = true ->
  withinPass (Fin q) (Fin q + Fin (48 # 7))
             (scheduleNote f type vol (Fin q + Fin i) (Fin d)).
Proof.
  intros Hi Hd Hid. q_norm.
  unfold withinPass, scheduleNote.
  cbv beta iota delta [note_start note_rampEnd note_stop JS.le JS.lt leb ltb add mul dec].
  repeat split; q_norm; lra.
Qed.

Ltac pass_case Hk q :=
  injection Hk as <-;
  match goal with
  | |- context [truthy ?a] =>
      let b := eval vm_compute in (truthy a) in change (truthy a) with b
  end;
  cbv iota;
  [apply Forall_nil ||
   (apply Forall_cons; [|apply Forall_nil];
    apply (note_withinPass _ _ _ q); vm_compute; reflexivity)].

(** X21. One pass of the tune stays inside its own time: every note the
    scheduler hands over starts at or after the start of the pass and has
    stopped when the next pass starts, 32 steps later, so the passes
    follow each other without overlap. *)
Theorem notes_within_pass (currentTime : num) (loopStart : option num) :
  isFinite (loopStartOr currentTime loopStart) = true ->
  let s := scheduleMusic currentTime loopStart in
  next_loopStart s = loopStartOr currentTime loopStart + ofZ 32 * MUSIC_STEP /\
  Forall (withinPass (loopStartOr currentTime loopStart) (next_loopStart s)) (notes s).
Proof.
  intro Ht. cbv zeta. unfold scheduleMusic.
  cbn [next_loopStart notes].
  destruct (loopStartOr currentTime loopStart) as [q| | |]; try discriminate.
  split; [reflexivity|].
  change (lengthOf MUSIC_MELODY * MUSIC_STEP) with (Fin (48 # 7)).
  apply Forall_app. split.
  - apply forEachi_Forall. intros f k Hk. unfold MUSIC_MELODY in Hk. cbn [map] in Hk.
    do 32 (destruct k as [|k]; [pass_case Hk q|cbn [nth_error] in Hk]).
    destruct k; discriminate.
  - apply forEachi_Forall. intros f k Hk. unfold MUSIC_BASS in Hk. cbn [map] in Hk.
    do 32 (destruct k as [|k]; [pass_case Hk q|cbn [nth_error] in Hk]).
    destruct k; discriminate.
Qed.

(** X22. The timer of the scheduler: its delay is never negative, and it
    is zero, so that the next pass is scheduled at once, exactly when the
    clock has reached the start of the next pass less 0.4 s. *)
Theorem timer_delay_zero_iff (currentTime : num) (loopStart : option num) :
  isFinite currentTime = true ->
  isFinite (loopStartOr currentTime loopStart) = true ->
  let s := scheduleMusic currentTime loopStart in
  ofZ 0 <= timer_delay s /\
  (JS.eqb (timer_delay s) (ofZ 0) = true <->
   next_loopStart s - dec 4 10 <= currentTime).
Proof.
  intros Hc Ht. cbv zeta. unfold scheduleMusic.
  cbn [next_loopStart timer_delay].
  destruct (loopStartOr currentTime loopStart) as [q| | |]; try discriminate.
  destruct currentTime as [c| | |]; try discriminate.
  change (lengthOf MUSIC_MELODY * MUSIC_STEP) with (Fin (48 # 7)).
  assert (Hm : exists m,
             (Fin q + Fin (48 # 7) - dec 4 10 - Fin c) * ofZ 1000 = Fin m /\
             (m == (q + (48 # 7) - (4 # 10) - c) * 1000)%Q).
  { eexists. split; [reflexivity|]. q_norm. unfold inject_Z. ring. }
  destruct Hm as (m & -> & Hm).
  assert (Hmax : Math_max (ofZ 0) (Fin m) = Fin (if Qle_bool 0 m then m else 0)).
  { unfold Math_max, ofZ, leb, inject_Z. destruct (Qle_bool 0 m); reflexivity. }
  rewrite Hmax. clear Hmax.
  assert (Hle : Fin q + Fin (48 # 7) - dec 4 10 <= Fin c <->
                (q + (48 # 7) - (4 # 10) <= c)%Q).
  { cbv beta iota delta [JS.le leb add sub neg dec]. split; intro H; q_norm; lra. }
  rewrite Hle. clear Hle.
  unfold JS.le, JS.eqb, leb, ofZ, inject_Z.
  destruct (Qle_bool 0 m) eqn:E.
  - split; [exact E|]. q_norm.
    split; intro H; [apply Qeq_bool_iff in H|apply Qeq_bool_iff]; lra.
  - split; [reflexivity|]. q_norm.
    split; intro H; [lra|reflexivity].
Qed.

End Music.

Set Implicit Arguments.
(** ** Runs on concrete inputs *)

#[local] Existing Instance sampleHost.

Lemma playingWorld_state : gRef playingWorld = Some playingState.
Proof. vm_compute. reflexivity. Qed.

Lemma gameoverWorld_state :
  gRef gameoverWorld = Some gameoverState /\ G.phase gameoverState = gameover.
Proof. vm_compute. split; reflexivity. Qed.

(** A hop: the press takes the character off the ground with the jump force
    as velocity, gravity brings it back, and at the sixth frame the clamp
    puts it on the floor again with no velocity. *)
Example short_hop :
  option_map (fun g => (Char.y (G.char g), Char.vy (G.char g), Char.grounded (G.char g)))
             (gRef (doAction hop playingWorld)) =
    Some (ofZ 360, ofZ (-2), false) /\
  map (fun n =>
         option_map (fun g => (Char.y (G.char g), Char.grounded (G.char g)))
                    (gRef (run hop (every16 n) (doAction hop playingWorld))))
      [1; 5; 6]%nat =
    [Some (Fin (17931 # 50), false); Some (Fin (3593 # 10), false);
     Some (ofZ 360, true)].
Proof. vm_compute. split; reflexivity. Qed.

(** What a fresh state reads from the store: a number, a number followed by
    other text, an empty entry, no entry, a negative number. *)
Example stored_hiScore_examples :
  storedHiScore (setItem "da_hi" "42" emptyStorage) = ofZ 42 /\
  storedHiScore (setItem "da_hi" "12abc" emptyStorage) = ofZ 12 /\
  storedHiScore (setItem "da_hi" "" emptyStorage) = ofZ 0 /\
  storedHiScore emptyStorage = ofZ 0 /\
  storedHiScore (setItem "da_hi" "-7" emptyStorage) = ofZ (-7).
Proof. vm_compute. repeat split. Qed.

(** With an entry that does not parse, the high score is [NaN] from the
    mount on, the HUD shows it, and the game-over commit writes it back. *)
Example unparseable_store_stays_broken :
  option_map G.hiScore (gRef brokenWorld) = Some NaN /\
  hiEl brokenWorld = Some "HI 00NaN"%string /\
  option_map (fun g => (G.phase g, G.hiScore g))
             (gRef (loop PHYSICS_DEFAULTS (ofZ 16) (withObstacle brokenWorld))) =
    Some (gameover, NaN) /\
  getItem (localStorage (loop PHYSICS_DEFAULTS (ofZ 16) (withObstacle brokenWorld)))
          "da_hi" = Some "NaN"%string.
Proof. vm_compute. repeat split. Qed.

(** The theorems at concrete inputs, with their hypotheses checked there. *)

Lemma C1_floor_clamp_witness :
  gRef playingWorld = Some playingState /\
  G.phase playingState = playing /\
  finiteChar playingState = true /\
  isFinite (gravity PHYSICS_DEFAULTS) = true /\
  exists g',
    gRef (loop PHYSICS_DEFAULTS (ofZ 16) playingWorld) = Some g' /\
    Char.y (G.char g') <= G.gndY g' - CHAR_H /\
    ((Char.y (G.char playingState) +
      (Char.vy (G.char playingState) + gravity PHYSICS_DEFAULTS)
        >=? G.gndY playingState - CHAR_H) = true ->
     Char.y (G.char g') = G.gndY g' - CHAR_H /\
     Char.vy (G.char g') = ofZ 0 /\
     Char.grounded (G.char g') = true).
Proof.
  assert (H1 : gRef playingWorld = Some playingState) by (vm_compute; reflexivity).
  assert (H2 : G.phase playingState = playing) by reflexivity.
  assert (H3 : finiteChar playingState = true) by (vm_compute; reflexivity).
  assert (H4 : isFinite (gravity PHYSICS_DEFAULTS) = true) by reflexivity.
  split; [exact H1|]. split; [exact H2|]. split; [exact H3|]. split; [exact H4|].
  exact (@C1_floor_clamp sampleHost PHYSICS_DEFAULTS (ofZ 16) playingWorld
           playingState H1 H2 H3 H4).
Defined.

Lemma C2_collision_commits_witness :
  gRef collidingWorld = Some collidingState /\
  G.phase collidingState = playing /\
  exists g',
    gRef (loop PHYSICS_DEFAULTS (ofZ 16) collidingWorld) = Some g' /\
    (existsb (hit g') (G.obs g') = true ->
     G.phase g' = gameover /\
     G.hiScore g' = Math_max (G.hiScore collidingState) (Math_floor (G.score g')) /\
     localStorage (loop PHYSICS_DEFAULTS (ofZ 16) collidingWorld) =
       setItem "da_hi" (Number_toString (G.hiScore g')) (localStorage collidingWorld) /\
     getItem (localStorage (loop PHYSICS_DEFAULTS (ofZ 16) collidingWorld)) "da_hi" =
       Some (Number_toString (G.hiScore g'))).
Proof.
  assert (H1 : gRef collidingWorld = Some collidingState) by reflexivity.
  assert (H2 : G.phase collidingState = playing) by reflexivity.
  split; [exact H1|]. split; [exact H2|].
  exact (@C2_collision_commits sampleHost PHYSICS_DEFAULTS (ofZ 16) collidingWorld
           collidingState H1 H2).
Defined.

(** The colliding frame ends the run, and the store then holds ["0"]. *)
Example colliding_frame_outcome :
  option_map (fun g => (G.phase g, G.hiScore g)) (gRef gameoverWorld) =
    Some (gameover, ofZ 0) /\
  getItem (localStorage gameoverWorld) "da_hi" = Some "0"%string /\
  uiPhase gameoverWorld = gameover.
Proof. vm_compute. repeat split. Qed.

Lemma C3_hiScore_monotone_witness :
  gRef collidingWorld = Some collidingState /\
  finiteScore collidingWorld collidingState = true /\
  finiteEvent (Frame (ofZ 16)) = true /\
  exists g',
    gRef (handle PHYSICS_DEFAULTS (Frame (ofZ 16)) collidingWorld) = Some g' /\
    G.hiScore collidingState <= G.hiScore g'.
Proof.
  assert (H1 : gRef collidingWorld = Some collidingState) by reflexivity.
  assert (H2 : finiteScore collidingWorld collidingState = true)
    by (vm_compute; reflexivity).
  assert (H3 : finiteEvent (Frame (ofZ 16)) = true) by reflexivity.
  split; [exact H1|]. split; [exact H2|]. split; [exact H3|].
  exact (@C3_hiScore_monotone sampleHost PHYSICS_DEFAULTS (Frame (ofZ 16))
           collidingWorld collidingState H1 H2 H3).
Defined.

Lemma C4_speed_curve_witness :
  gRef playingWorld = Some playingState /\
  G.phase playingState = playing /\
  growingPhysics PHYSICS_DEFAULTS = true /\
  onSpeedCurve PHYSICS_DEFAULTS playingState = true /\
  forwardTime (ofZ 16) playingWorld = true /\
  exists g',
    gRef (loop PHYSICS_DEFAULTS (ofZ 16) playingWorld) = Some g' /\
    G.speed playingState <= G.speed g' /\
    G.speed g' <= maxSpeed PHYSICS_DEFAULTS /\
    G.speed g' =
      Math_min (maxSpeed PHYSICS_DEFAULTS)
               (initSpeed PHYSICS_DEFAULTS + G.score g' * speedRate PHYSICS_DEFAULTS) /\
    onSpeedCurve PHYSICS_DEFAULTS g' = true.
Proof.
  assert (H1 : gRef playingWorld = Some playingState) by (vm_compute; reflexivity).
  assert (H2 : G.phase playingState = playing) by reflexivity.
  assert (H3 : growingPhysics PHYSICS_DEFAULTS = true) by (vm_compute; reflexivity).
  assert (H4 : onSpeedCurve PHYSICS_DEFAULTS playingState = true)
    by (vm_compute; reflexivity).
  assert (H5 : forwardTime (ofZ 16) playingWorld = true) by (vm_compute; reflexivity).
  split; [exact H1|]. split; [exact H2|]. split; [exact H3|]. split; [exact H4|].
  split; [exact H5|].
  exact (@C4_speed_curve sampleHost PHYSICS_DEFAULTS (ofZ 16) playingWorld
           playingState H1 H2 H3 H4 H5).
Defined.

(** C4 as stated fails.  After a retry under the slider values
    [initSpeed = 20], [maxSpeed = 5], the playing state starts at speed 20,
    above the maximum, and its first frame ends at speed 5, below the speed
    before.  And in a run under the defaults, pulling the maximum-speed
    slider down to 5 after the first frame makes the second frame end at
    speed 5, below the speed the first frame ended with.  And with the
    sliders in order ([0 <= initSpeed <= maxSpeed]): the state is made at
    the mount with the default speed 5; with the initial-speed slider
    pulled down to 1 on the intro screen, the first frame after the press
    ends at speed [1 + 0.072 * 0.014], below the speed before.  The state
    was not on the speed curve of the values the frame reads. *)
Lemma C4_speed_drops :
  growingPhysics slowStart = true /\ inSliderRange slowStart = true /\
  option_map G.phase (gRef slowStartWorld) = Some playing /\
  option_map G.speed (gRef slowStartWorld) = Some (ofZ 5) /\
  option_map (onSpeedCurve slowStart) (gRef slowStartWorld) = Some false /\
  option_map G.speed (gRef (loop slowStart (ofZ 16) slowStartWorld)) =
    Some (dec 1001008 1000000) /\
  (dec 1001008 1000000 <? ofZ 5) = true /\
  inSliderRange fastStart = true /\
  option_map G.phase (gRef fastStartWorld) = Some playing /\
  option_map G.speed (gRef fastStartWorld) = Some (ofZ 20) /\
  (maxSpeed fastStart <? ofZ 20) = true /\
  option_map G.speed (gRef (loop fastStart (ofZ 32) fastStartWorld)) = Some (ofZ 5) /\
  (ofZ 5 <? ofZ 20) = true /\
  inSliderRange tunedDown = true /\
  option_map (fun g => ofZ 5 <? G.speed g)
             (gRef (loop PHYSICS_DEFAULTS (ofZ 16) playingWorld)) = Some true /\
  option_map G.speed
             (gRef (loop tunedDown (ofZ 32)
                      (loop PHYSICS_DEFAULTS (ofZ 16) playingWorld))) = Some (ofZ 5).
Proof. vm_compute. repeat split. Qed.

Lemma C5_jump_witness :
  gRef playingWorld = Some playingState /\
  G.phase playingState = playing /\
  (Char.grounded (G.char playingState) = true ->
   exists g',
     gRef (doAction PHYSICS_DEFAULTS playingWorld) = Some g' /\
     Char.vy (G.char g') = jumpForce PHYSICS_DEFAULTS /\
     Char.grounded (G.char g') = false /\
     G.phase g' = playing) /\
  (Char.grounded (G.char playingState) = false ->
   doAction PHYSICS_DEFAULTS playingWorld = playingWorld) /\
  jumpForce PHYSICS_DEFAULTS < ofZ 0 /\
  (inSliderRange PHYSICS_DEFAULTS = true -> jumpForce PHYSICS_DEFAULTS < ofZ 0).
Proof.
  assert (H1 : gRef playingWorld = Some playingState) by (vm_compute; reflexivity).
  assert (H2 : G.phase playingState = playing) by reflexivity.
  split; [exact H1|]. split; [exact H2|].
  exact (@C5_jump sampleHost PHYSICS_DEFAULTS playingWorld playingState H1 H2).
Defined.

Lemma C6_retry_witness :
  gRef gameoverWorld = Some gameoverState /\
  G.phase gameoverState = gameover /\
  exists g',
    gRef (doAction PHYSICS_DEFAULTS gameoverWorld) = Some g' /\
    G.score g' = ofZ 0 /\
    G.speed g' = initSpeed PHYSICS_DEFAULTS /\
    G.phase g' = playing /\
    G.hiScore g' = G.hiScore gameoverState.
Proof.
  assert (H1 : gRef gameoverWorld = Some gameoverState) by (vm_compute; reflexivity).
  assert (H2 : G.phase gameoverState = gameover) by (vm_compute; reflexivity).
  split; [exact H1|]. split; [exact H2|].
  exact (@C6_retry sampleHost PHYSICS_DEFAULTS gameoverWorld gameoverState H1 H2).
Defined.

(** The state the run has reached before the spawning frame: the countdown
    is down to 50, and no obstacle is there yet. *)
Example before_spawning_frame :
  gRef spawnWorld = Some spawnState /\
  G.nextGap spawnState = ofZ 50 /\ G.obs spawnState = [] /\
  lastTs spawnWorld = ofZ 1350.
Proof. vm_compute. repeat split. Qed.

(** The spawning frame: the countdown runs out, one obstacle is appended at
    [w + 60] and scrolled by the speed, and the countdown is redrawn as
    [(420 + 0.5 * 530) / speed * (1000 / 60)], finite and positive. *)
Example spawning_frame_outcome :
  option_map (fun g => (G.nextGap g - Math_min (ofZ 1400 - lastTs spawnWorld) (ofZ 50) <=? ofZ 0,
                        List.length (G.obs g)))
             (gRef spawnWorld) = Some (true, 0%nat) /\
  option_map (fun g => (List.length (G.obs g),
                        JS.eqb (G.nextGap g)
                               ((ofZ 420 + dec 5 10 * (ofZ 950 - ofZ 420)) / G.speed g
                                * (ofZ 1000 / ofZ 60)),
                        ofZ 2000 <? G.nextGap g))
             (gRef (loop PHYSICS_DEFAULTS (ofZ 1400) spawnWorld)) =
    Some (1%nat, true, true).
Proof. vm_compute. split; reflexivity. Qed.

Lemma C7_spawn_countdown_witness :
  gRef spawnWorld = Some spawnState /\
  G.phase spawnState = playing /\
  inSpawnRange PHYSICS_DEFAULTS = true /\
  spawnReady spawnState = true /\
  forwardTime (ofZ 1400) spawnWorld = true /\
  exists g',
    gRef (loop PHYSICS_DEFAULTS (ofZ 1400) spawnWorld) = Some g' /\
    ofZ 1 <= G.speed g' /\
    isFinite (G.nextGap g') = true /\
    ofZ 0 < G.nextGap g' /\
    (List.length (G.obs g') <= S (List.length (G.obs spawnState)))%nat /\
    spawnReady g' = true.
Proof.
  assert (H1 : gRef spawnWorld = Some spawnState) by (vm_compute; reflexivity).
  assert (H2 : G.phase spawnState = playing) by (vm_compute; reflexivity).
  assert (H3 : inSpawnRange PHYSICS_DEFAULTS = true) by (vm_compute; reflexivity).
  assert (H4 : spawnReady spawnState = true) by (vm_compute; reflexivity).
  assert (H5 : forwardTime (ofZ 1400) spawnWorld = true) by (vm_compute; reflexivity).
  split; [exact H1|]. split; [exact H2|]. split; [exact H3|]. split; [exact H4|].
  split; [exact H5|].
  exact (@C7_spawn_countdown sampleHost PHYSICS_DEFAULTS (ofZ 1400) spawnWorld
           spawnState H1 H2 H3 H4 H5).
Defined.

(** C7 as stated fails: with the maximum speed at zero the speed is zero
    from the first frame on, and when the countdown runs out, at the 28th
    frame, the spawn block divides the gap by zero: the new countdown is
    [Infinity]. *)
Lemma C7_division_by_zero :
  option_map (fun g => (G.phase g, G.speed g, G.nextGap g, List.length (G.obs g)))
             (gRef (run stalled (every50 28) playingWorld)) =
    Some (playing, ofZ 0, PInf, 1%nat) /\
  isFinite PInf = false.
Proof. vm_compute. split; reflexivity. Qed.


Lemma C10_resize_twice_witness :
  gRef playingWorld = Some playingState /\
  exists g1 g2,
    gRef (resize 1024 768 playingWorld) = Some g1 /\
    gRef (resize 1024 768 (resize 1024 768 playingWorld)) = Some g2 /\
    G.gndY g1 = Math_floor (ofZ 768 * GROUND_RATIO) /\
    G.gndY g2 = G.gndY g1 /\
    List.length (G.stars g1) = 180%nat /\
    List.length (G.stars g2) = 180%nat /\
    G.score g1 = G.score playingState /\ G.score g2 = G.score playingState /\
    G.phase g1 = G.phase playingState /\ G.phase g2 = G.phase playingState /\
    uiPhase (resize 1024 768 (resize 1024 768 playingWorld)) = uiPhase playingWorld.
Proof.
  assert (H1 : gRef playingWorld = Some playingState) by (vm_compute; reflexivity).
  split; [exact H1|].
  exact (@C10_resize_twice sampleHost 1024 768 playingWorld playingState H1).
Defined.

(** ** More of the component at concrete inputs *)

Lemma hiScore_from_stored_decimal_witness :
  (Z.abs 42 <= 2 ^ 53)%Z /\
  stopsDigits "abc" /\
  exists g,
    gRef (mount PHYSICS_DEFAULTS 800 600
            (initialWorld (setItem "da_hi" (Str.decimal 42 ++ "abc") emptyStorage))) =
      Some g /\
    G.hiScore g = ofZ 42.
Proof.
  assert (H1 : (Z.abs 42 <= 2 ^ 53)%Z) by (vm_compute; discriminate).
  assert (H2 : stopsDigits "abc") by reflexivity.
  split; [exact H1|]. split; [exact H2|].
  exact (@hiScore_from_stored_decimal sampleHost PHYSICS_DEFAULTS 800 600 emptyStorage
           42 "abc" H1 H2).
Defined.

Lemma parseInt_Number_toString_witness :
  (Z.abs 1234 < 10 ^ 21)%Z /\
  Str.parseInt (Number_toString (ofZ 1234)) = ofZ 1234.
Proof.
  assert (H1 : (Z.abs 1234 < 10 ^ 21)%Z) by reflexivity.
  split; [exact H1|].
  exact (@parseInt_Number_toString sampleHost 1234 H1).
Defined.

Lemma phase_machine_witness :
  gRef collidingWorld = Some collidingState /\
  exists g',
    gRef (handle PHYSICS_DEFAULTS (Frame (ofZ 16)) collidingWorld) = Some g' /\
    In (G.phase g') (nextPhases (Frame (ofZ 16)) (G.phase collidingState)) /\
    (G.phase g' = intro -> G.phase collidingState = intro).
Proof.
  assert (H1 : gRef collidingWorld = Some collidingState) by reflexivity.
  split; [exact H1|].
  exact (@phase_machine sampleHost PHYSICS_DEFAULTS (Frame (ofZ 16)) collidingWorld
           collidingState H1).
Defined.

Lemma uiPhase_mirrors_phase_witness :
  gRef collidingWorld = Some collidingState /\
  uiPhase collidingWorld = G.phase collidingState /\
  exists g',
    gRef (handle PHYSICS_DEFAULTS (Frame (ofZ 16)) collidingWorld) = Some g' /\
    uiPhase (handle PHYSICS_DEFAULTS (Frame (ofZ 16)) collidingWorld) = G.phase g'.
Proof.
  assert (H1 : gRef collidingWorld = Some collidingState) by reflexivity.
  assert (H2 : uiPhase collidingWorld = G.phase collidingState)
    by (vm_compute; reflexivity).
  split; [exact H1|]. split; [exact H2|].
  exact (@uiPhase_mirrors_phase sampleHost PHYSICS_DEFAULTS (Frame (ofZ 16))
           collidingWorld collidingState H1 H2).
Defined.

Lemma hiEl_shows_hiScore_witness :
  gRef collidingWorld = Some collidingState /\
  hiEl collidingWorld = Some (hiText (G.hiScore collidingState)) /\
  exists g',
    gRef (handle PHYSICS_DEFAULTS (Frame (ofZ 16)) collidingWorld) = Some g' /\
    hiEl (handle PHYSICS_DEFAULTS (Frame (ofZ 16)) collidingWorld) =
      Some (hiText (G.hiScore g')).
Proof.
  assert (H1 : gRef collidingWorld = Some collidingState) by reflexivity.
  assert (H2 : hiEl collidingWorld = Some (hiText (G.hiScore collidingState)))
    by (vm_compute; reflexivity).
  split; [exact H1|]. split; [exact H2|].
  exact (@hiEl_shows_hiScore sampleHost PHYSICS_DEFAULTS (Frame (ofZ 16))
           collidingWorld collidingState H1 H2).
Defined.

Lemma idle_frame_is_cosmetic_witness :
  gRef gameoverWorld = Some gameoverState /\
  G.phase gameoverState <> playing /\
  exists frame frameTick,
    loop PHYSICS_DEFAULTS (ofZ 32) gameoverWorld =
      with_gRef
        (Some (G.with_char
                 (Char.with_frameTick frameTick
                    (Char.with_frame frame (G.char gameoverState))) gameoverState))
        (with_lastTs (ofZ 32) gameoverWorld) /\
    (G.phase gameoverState = gameover -> frame = Char.frame (G.char gameoverState)).
Proof.
  assert (H1 : gRef gameoverWorld = Some gameoverState) by (vm_compute; reflexivity).
  assert (H2 : G.phase gameoverState <> playing) by (vm_compute; discriminate).
  split; [exact H1|]. split; [exact H2|].
  exact (@idle_frame_is_cosmetic sampleHost PHYSICS_DEFAULTS (ofZ 32) gameoverWorld
           gameoverState H1 H2).
Defined.

Lemma hiScore_survives_reload_witness :
  gRef collidingWorld = Some collidingState /\
  G.phase collidingState = playing /\
  gRef (loop PHYSICS_DEFAULTS (ofZ 16) collidingWorld) = Some gameoverState /\
  G.phase gameoverState = gameover /\
  safeInteger (G.hiScore gameoverState) = true /\
  exists g'',
    gRef (mount PHYSICS_DEFAULTS 800 600
            (initialWorld (localStorage (loop PHYSICS_DEFAULTS (ofZ 16) collidingWorld)))) =
      Some g'' /\
    G.hiScore g'' = G.hiScore gameoverState.
Proof.
  assert (H1 : gRef collidingWorld = Some collidingState) by reflexivity.
  assert (H2 : G.phase collidingState = playing) by reflexivity.
  assert (H3 : gRef (loop PHYSICS_DEFAULTS (ofZ 16) collidingWorld) = Some gameoverState)
    by (vm_compute; reflexivity).
  assert (H4 : G.phase gameoverState = gameover) by (vm_compute; reflexivity).
  assert (H5 : safeInteger (G.hiScore gameoverState) = true) by (vm_compute; reflexivity).
  split; [exact H1|]. split; [exact H2|]. split; [exact H3|]. split; [exact H4|].
  split; [exact H5|].
  exact (@hiScore_survives_reload sampleHost PHYSICS_DEFAULTS PHYSICS_DEFAULTS (ofZ 16)
           collidingWorld collidingState gameoverState 800 600 H1 H2 H3 H4 H5).
Defined.

Lemma obstacles_after_frame_witness :
  gRef collidingWorld = Some collidingState /\
  G.phase collidingState = playing /\
  exists g',
    gRef (loop PHYSICS_DEFAULTS (ofZ 16) collidingWorld) = Some g' /\
    (List.length (G.obs g') <= S (List.length (G.obs collidingState)))%nat /\
    forall o', In o' (G.obs g') ->
      onStage o' = true /\
      ((exists o, In o (G.obs collidingState) /\
                  o' = Obs.with_x (Obs.x o - G.speed g') o) \/
       (Obs.x o' = G.w collidingState + ofZ 60 - G.speed g' /\ fromCatalogue o' /\
        In (Obs.w o', Obs.h o') catalogueSizes)).
Proof.
  assert (H1 : gRef collidingWorld = Some collidingState) by reflexivity.
  assert (H2 : G.phase collidingState = playing) by reflexivity.
  split; [exact H1|]. split; [exact H2|].
  exact (@obstacles_after_frame sampleHost PHYSICS_DEFAULTS (ofZ 16) collidingWorld
           collidingState H1 H2).
Defined.

Lemma obstacles_from_catalogue_witness :
  gRef collidingWorld = Some collidingState /\
  Forall fromCatalogue (G.obs collidingState) /\
  exists g',
    gRef (handle PHYSICS_DEFAULTS (Frame (ofZ 16)) collidingWorld) = Some g' /\
    Forall (fun o => fromCatalogue o /\ In (Obs.w o, Obs.h o) catalogueSizes)
           (G.obs g').
Proof.
  assert (H1 : gRef collidingWorld = Some collidingState) by reflexivity.
  assert (H2 : Forall fromCatalogue (G.obs collidingState)).
  { apply Forall_cons; [vm_compute; reflexivity|apply Forall_nil]. }
  split; [exact H1|]. split; [exact H2|].
  exact (@obstacles_from_catalogue sampleHost PHYSICS_DEFAULTS (Frame (ofZ 16))
           collidingWorld collidingState H1 H2).
Defined.

Lemma scroll_offsets_witness :
  gRef playingWorld = Some playingState /\
  G.phase playingState = playing /\
  growingPhysics PHYSICS_DEFAULTS = true /\
  onSpeedCurve PHYSICS_DEFAULTS playingState = true /\
  forwardTime (ofZ 16) playingWorld = true /\
  inTile playingState = true /\
  isFinite (G.farOff playingState) = true /\
  isFinite (G.nearOff playingState) = true /\
  exists g',
    gRef (loop PHYSICS_DEFAULTS (ofZ 16) playingWorld) = Some g' /\
    inTile g' = true /\
    G.farOff playingState <= G.farOff g' /\
    G.nearOff playingState <= G.nearOff g'.
Proof.
  assert (H1 : gRef playingWorld = Some playingState) by (vm_compute; reflexivity).
  assert (H2 : G.phase playingState = playing) by reflexivity.
  assert (H3 : growingPhysics PHYSICS_DEFAULTS = true) by (vm_compute; reflexivity).
  assert (H4 : onSpeedCurve PHYSICS_DEFAULTS playingState = true)
    by (vm_compute; reflexivity).
  assert (H5 : forwardTime (ofZ 16) playingWorld = true) by (vm_compute; reflexivity).
  assert (H6 : inTile playingState = true) by (vm_compute; reflexivity).
  assert (H7 : isFinite (G.farOff playingState) = true) by (vm_compute; reflexivity).
  assert (H8 : isFinite (G.nearOff playingState) = true) by (vm_compute; reflexivity).
  split; [exact H1|]. split; [exact H2|]. split; [exact H3|]. split; [exact H4|].
  split; [exact H5|]. split; [exact H6|]. split; [exact H7|]. split; [exact H8|].
  exact (@scroll_offsets sampleHost PHYSICS_DEFAULTS (ofZ 16) playingWorld playingState
           H1 H2 H3 H4 H5 H6 H7 H8).
Defined.

Lemma standing_stays_witness :
  gRef playingWorld = Some playingState /\
  isFinite (gravity PHYSICS_DEFAULTS) = true /\
  ofZ 0 <= gravity PHYSICS_DEFAULTS /\
  isFinite (G.gndY playingState) = true /\
  standing playingState /\
  exists g', gRef (loop PHYSICS_DEFAULTS (ofZ 16) playingWorld) = Some g' /\ standing g'.
Proof.
  assert (H1 : gRef playingWorld = Some playingState) by (vm_compute; reflexivity).
  assert (H2 : isFinite (gravity PHYSICS_DEFAULTS) = true) by reflexivity.
  assert (H3 : ofZ 0 <= gravity PHYSICS_DEFAULTS) by (vm_compute; reflexivity).
  assert (H4 : isFinite (G.gndY playingState) = true) by (vm_compute; reflexivity).
  assert (H5 : standing playingState) by (vm_compute; repeat split).
  split; [exact H1|]. split; [exact H2|]. split; [exact H3|]. split; [exact H4|].
  split; [exact H5|].
  exact (@standing_stays sampleHost PHYSICS_DEFAULTS (ofZ 16) playingWorld playingState
           H1 H2 H3 H4 H5).
Defined.

Lemma frame_step_bounded_witness :
  gRef playingWorld = Some playingState /\
  G.phase playingState = playing /\
  forwardTime (ofZ 400) playingWorld = true /\
  isFinite (G.t playingState) = true /\
  isFinite (G.score playingState) = true /\
  isFinite (G.speed playingState) = true /\
  ofZ 0 <= G.speed playingState /\
  exists g',
    gRef (loop PHYSICS_DEFAULTS (ofZ 400) playingWorld) = Some g' /\
    G.t playingState <= G.t g' /\ G.t g' <= G.t playingState + ofZ 50 /\
    G.score playingState <= G.score g' /\
    G.score g' <=
      G.score playingState + G.speed playingState * ofZ 50 * SCORE_RATE * dec 1 10.
Proof.
  assert (H1 : gRef playingWorld = Some playingState) by (vm_compute; reflexivity).
  assert (H2 : G.phase playingState = playing) by reflexivity.
  assert (H3 : forwardTime (ofZ 400) playingWorld = true) by (vm_compute; reflexivity).
  assert (H4 : isFinite (G.t playingState) = true) by (vm_compute; reflexivity).
  assert (H5 : isFinite (G.score playingState) = true) by (vm_compute; reflexivity).
  assert (H6 : isFinite (G.speed playingState) = true) by (vm_compute; reflexivity).
  assert (H7 : ofZ 0 <= G.speed playingState) by (vm_compute; reflexivity).
  split; [exact H1|]. split; [exact H2|]. split; [exact H3|]. split; [exact H4|].
  split; [exact H5|]. split; [exact H6|]. split; [exact H7|].
  exact (@frame_step_bounded sampleHost PHYSICS_DEFAULTS (ofZ 400) playingWorld
           playingState H1 H2 H3 H4 H5 H6 H7).
Defined.

Lemma genStars_in_sky_witness :
  isFinite (ofZ 800) = true /\ ofZ 0 <= ofZ 800 /\
  isFinite (ofZ 456) = true /\ ofZ 0 <= ofZ 456 /\
  Forall (starInSky (ofZ 800) (ofZ 456)) (fst (genStars (ofZ 800) (ofZ 456) 0%nat)) /\
  List.length (fst (genStars (ofZ 800) (ofZ 456) 0%nat)) = 180%nat /\
  snd (genStars (ofZ 800) (ofZ 456) 0%nat) = (0 + 1080)%nat.
Proof.
  assert (H1 : isFinite (ofZ 800) = true) by reflexivity.
  assert (H2 : ofZ 0 <= ofZ 800) by reflexivity.
  assert (H3 : isFinite (ofZ 456) = true) by reflexivity.
  assert (H4 : ofZ 0 <= ofZ 456) by reflexivity.
  split; [exact H1|]. split; [exact H2|]. split; [exact H3|]. split; [exact H4|].
  exact (@genStars_in_sky sampleHost (ofZ 800) (ofZ 456) 0%nat H1 H2 H3 H4).
Defined.

Lemma genBuildings_layout_witness :
  (30 <= 65)%Z /\ (45 <= 120)%Z /\
  List.length (Building.buildings (fst (genBuildings 50 30 65 45 120 0%nat))) =
    Z.to_nat 50 /\
  Forall (sizedWithin 30 65 45 120)
         (Building.buildings (fst (genBuildings 50 30 65 45 120 0%nat))) /\
  laidOut 0 (Building.buildings (fst (genBuildings 50 30 65 45 120 0%nat)))
          (Building.totalW (fst (genBuildings 50 30 65 45 120 0%nat))).
Proof.
  assert (H1 : (30 <= 65)%Z) by lia.
  assert (H2 : (45 <= 120)%Z) by lia.
  split; [exact H1|]. split; [exact H2|].
  exact (@genBuildings_layout sampleHost 50 30 65 45 120 0%nat H1 H2).
Defined.

Lemma windows_inside_building_witness :
  In sampleBuilding
     (Building.buildings (fst (genBuildings 1 30 65 45 120 0%nat))) /\
  In sampleWindow (Building.windows sampleBuilding) /\
  insideBuilding sampleBuilding (drawLayer_window sampleBuilding sampleWindow).
Proof.
  assert (H1 : In sampleBuilding
                  (Building.buildings (fst (genBuildings 1 30 65 45 120 0%nat))))
    by (vm_compute; left; reflexivity).
  assert (H2 : In sampleWindow (Building.windows sampleBuilding))
    by (vm_compute; left; reflexivity).
  split; [exact H1|]. split; [exact H2|].
  exact (@windows_inside_building sampleHost 1 30 65 45 120 0%nat sampleBuilding
           sampleWindow H1 H2).
Defined.

Lemma score_element_follows_witness :
  gRef playingWorld = Some playingState /\
  G.phase playingState = playing /\
  forwardTime (ofZ 16) playingWorld = true /\
  isFinite (G.score playingState) = true /\ ofZ 0 <= G.score playingState /\
  isFinite (G.speed playingState) = true /\ ofZ 0 <= G.speed playingState /\
  hudInSync playingWorld playingState /\
  exists g',
    gRef (loop PHYSICS_DEFAULTS (ofZ 16) playingWorld) = Some g' /\
    G.lastDisplayScore g' = Math_floor (G.score g') /\
    scoreEl (loop PHYSICS_DEFAULTS (ofZ 16) playingWorld) =
      Some (scoreText (Math_floor (G.score g'))) /\
    hudInSync (loop PHYSICS_DEFAULTS (ofZ 16) playingWorld) g'.
Proof.
  assert (H1 : gRef playingWorld = Some playingState) by (vm_compute; reflexivity).
  assert (H2 : G.phase playingState = playing) by reflexivity.
  assert (H3 : forwardTime (ofZ 16) playingWorld = true) by (vm_compute; reflexivity).
  assert (H4 : isFinite (G.score playingState) = true) by (vm_compute; reflexivity).
  assert (H5 : ofZ 0 <= G.score playingState) by (vm_compute; reflexivity).
  assert (H6 : isFinite (G.speed playingState) = true) by (vm_compute; reflexivity).
  assert (H7 : ofZ 0 <= G.speed playingState) by (vm_compute; reflexivity).
  assert (H8 : hudInSync playingWorld playingState).
  { exists (-1)%Z, "00000"%string.
    split; [vm_compute; reflexivity|]. split; [vm_compute; reflexivity|].
    intro H. contradiction H. reflexivity. }
  split; [exact H1|]. split; [exact H2|]. split; [exact H3|]. split; [exact H4|].
  split; [exact H5|]. split; [exact H6|]. split; [exact H7|]. split; [exact H8|].
  exact (@score_element_follows sampleHost PHYSICS_DEFAULTS (ofZ 16) playingWorld
           playingState H1 H2 H3 H4 H5 H6 H7 H8).
Defined.

Lemma drawCactus_in_box_witness :
  isFinite (ofZ 150) = true /\ isFinite (ofZ 456) = true /\
  getCactusSize (ofZ 0) = Some (ofZ 49, ofZ 77) /\
  exists fills,
    drawCactus (ofZ 150) (ofZ 456) (ofZ 0) = Some fills /\
    Forall (inBox (ofZ 150) (ofZ 456) (ofZ 49) (ofZ 77)) fills.
Proof.
  assert (H1 : isFinite (ofZ 150) = true) by reflexivity.
  assert (H2 : isFinite (ofZ 456) = true) by reflexivity.
  assert (H3 : getCactusSize (ofZ 0) = Some (ofZ 49, ofZ 77)) by (vm_compute; reflexivity).
  split; [exact H1|]. split; [exact H2|]. split; [exact H3|].
  exact (drawCactus_in_box (ofZ 150) (ofZ 456) (ofZ 0) (ofZ 49) (ofZ 77) H1 H2 H3).
Defined.

Lemma notes_within_pass_witness :
  isFinite (loopStartOr (ofZ 0) None) = true /\
  next_loopStart (scheduleMusic (ofZ 0) None) =
    loopStartOr (ofZ 0) None + ofZ 32 * MUSIC_STEP /\
  Forall (withinPass (loopStartOr (ofZ 0) None)
                     (next_loopStart (scheduleMusic (ofZ 0) None)))
         (notes (scheduleMusic (ofZ 0) None)).
Proof.
  assert (H1 : isFinite (loopStartOr (ofZ 0) None) = true) by (vm_compute; reflexivity).
  split; [exact H1|].
  exact (notes_within_pass (ofZ 0) None H1).
Defined.

Lemma timer_delay_zero_iff_witness :
  isFinite (ofZ 0) = true /\
  isFinite (loopStartOr (ofZ 0) None) = true /\
  ofZ 0 <= timer_delay (scheduleMusic (ofZ 0) None) /\
  (JS.eqb (timer_delay (scheduleMusic (ofZ 0) None)) (ofZ 0) = true <->
   next_loopStart (scheduleMusic (ofZ 0) None) - dec 4 10 <= ofZ 0).
Proof.
  assert (H1 : isFinite (ofZ 0) = true) by reflexivity.
  assert (H2 : isFinite (loopStartOr (ofZ 0) None) = true) by (vm_compute; reflexivity).
  split; [exact H1|]. split; [exact H2|].
  exact (timer_delay_zero_iff (ofZ 0) None H1 H2).
Defined.
